(** * MuLoom control server: shared mix state and byte-range streaming

    A shallow embedding of [src/server/index.js]: the Range handling and the
    path checks of the [/stream/mp4/...] endpoint, the catalogue of shaders
    and clips read from the disk, and the realtime message handlers that
    mutate the session state and fan frames out to the connected clients.

    Conventions.
    - A JavaScript string is a [string]: a sequence of code units below 256.
    - The numbers of the Range code are byte positions: non-negative
      integer-valued doubles or [Infinity].  They are integers of [Z], the
      rounding of [Number(...)] to 53 bits written out.  File sizes are
      below 2^53, where the subtractions of the source are exact.
    - The numbers of the realtime payloads are arbitrary doubles:
      [spec_float], the IEEE 754 model of the Standard Library.
    - Node's [path] module is the POSIX one ([path.sep] is [/]). *)

From Stdlib Require Import ZArith List Bool Lia Ascii String DecimalString.
From Stdlib Require Import Floats.SpecFloat.
Import ListNotations.

Local Open Scope string_scope.
Local Open Scope Z_scope.

(** ** Strings *)

Module Str.

Definition code (c : ascii) : N := N_of_ascii c.

(** WhiteSpace and LineTerminator code units below 256: TAB, LF, VT, FF, CR,
    SP and NBSP. *)
Definition is_whitespace (c : ascii) : bool :=
  let n := code c in
  ((9 <=? n) && (n <=? 13))%N || (n =? 32)%N || (n =? 160)%N.

Fixpoint trimStart (s : string) : string :=
  match s with
  | "" => ""
  | String c r => if is_whitespace c then trimStart r else s
  end.

Fixpoint trimEnd (s : string) : string :=
  match s with
  | "" => ""
  | String c r =>
      let r' := trimEnd r in
      if is_whitespace c && (r' =? "")%string then "" else String c r'
  end.

(** [String.prototype.trim] *)
Definition trim (s : string) : string := trimEnd (trimStart s).

(** [String.prototype.toLowerCase] on code units below 256: A-Z and the
    Latin-1 capitals (all of 0xC0-0xDE but the multiplication sign). *)
Definition lower_char (c : ascii) : ascii :=
  let n := code c in
  if ((65 <=? n) && (n <=? 90))%N
     || ((192 <=? n) && (n <=? 222) && negb (n =? 215))%N
  then ascii_of_N (n + 32) else c.

Fixpoint toLowerCase (s : string) : string :=
  match s with
  | "" => ""
  | String c r => String (lower_char c) (toLowerCase r)
  end.

(** [s.startsWith(p)] *)
Fixpoint startsWith (p s : string) : bool :=
  match p, s with
  | "", _ => true
  | String a p', String b s' => Ascii.eqb a b && startsWith p' s'
  | String _ _, "" => false
  end.

(** [s.includes(needle)] *)
Fixpoint includes (needle s : string) : bool :=
  startsWith needle s ||
  match s with
  | "" => false
  | String _ r => includes needle r
  end.

(** What is left of [s] after the prefix [p], when [s] starts with it. *)
Fixpoint strip_prefix (p s : string) : option string :=
  match p, s with
  | "", _ => Some s
  | String a p', String b s' =>
      if Ascii.eqb a b then strip_prefix p' s' else None
  | String _ _, "" => None
  end.

Definition is_digit (c : ascii) : bool :=
  let n := code c in ((48 <=? n) && (n <=? 57))%N.

(** The longest run of decimal digits at the head of [s], and the rest:
    what a greedy run of [\d] consumes. *)
Fixpoint span_digits (s : string) : string * string :=
  match s with
  | String c r =>
      if is_digit c
      then let '(d, rest) := span_digits r in (String c d, rest)
      else ("", s)
  | "" => ("", "")
  end.

(** The template literal [`${n}`] for an integer below 1e21. *)
Definition of_Z (z : Z) : string := NilZero.string_of_int (Z.to_int z).

End Str.

(** ** Numbers of the Range code *)

(** An integer-valued double that is not negative, or [Infinity]. *)
Inductive dnum : Type :=
| DFin (z : Z)
| DInf.

Module Double.

(** Round a non-negative integer to the nearest double, ties to even:
    keep the 53 leading bits. *)
Definition round (n : Z) : Z :=
  let k := Z.log2 n - 52 in
  if k <=? 0 then n
  else
    let q := Z.shiftr n k in
    let r := Z.land n (Z.ones k) in
    let half := Z.shiftl 1 (k - 1) in
    let q' := if (half <? r) || ((r =? half) && Z.odd q) then q + 1 else q in
    Z.shiftl q' k.

(** The decimal value of a string of digits. *)
Fixpoint digits_value (acc : Z) (s : string) : Z :=
  match s with
  | "" => acc
  | String c r =>
      digits_value (10 * acc + (Z.of_N (Str.code c) - 48)) r
  end.

(** [Number(s)] for [s] a run of digits: [Number('')] is 0, and a value
    that rounds to 2^1024 or more is [Infinity]. *)
Definition Number (s : string) : dnum :=
  let m := round (digits_value 0 s) in
  if 2 ^ 1024 <=? m then DInf else DFin m.

End Double.

(** ** The Range header (lines 263-314) *)

(** The regular expression applied to [rangeHeader]: the text [bytes=], a
    greedy run of digits, a dash, a greedy run of digits, the end of input.
    The result is the two captured groups. *)
Definition range_regex (rangeHeader : string) : option (string * string) :=
  match Str.strip_prefix "bytes=" rangeHeader with
  | None => None
  | Some r =>
      let '(startString, r1) := Str.span_digits r in
      match r1 with
      | String "-" r2 =>
          let '(endString, r3) := Str.span_digits r2 in
          if (r3 =? "")%string then Some (startString, endString) else None
      | _ => None
      end
  end.

Inductive range_result : Type :=
| ByteRange (start end_ : Z)
| Rejected (body : string).

(** The range computation of the handler, from the [exec] call to the test
    [start >= stats.size]; [Rejected] carries the body sent with the 416. *)
Definition resolve_range (rangeHeader : string) (size : Z) : range_result :=
  match range_regex rangeHeader with
  | None => Rejected "Malformed Range header"
  | Some (startString, endString) =>
      let bounds : option (Z * Z) :=
        if (startString =? "")%string && negb (endString =? "")%string then
          match Double.Number endString with
          | DInf => None
          | DFin suffixLength =>
              if suffixLength <=? 0 then None
              else Some (Z.max 0 (size - suffixLength), size - 1)
          end
        else
          match Double.Number startString with
          | DInf => None
          | DFin start =>
              if start <? 0 then None
              else
                let end0 :=
                  if (endString =? "")%string then DFin (size - 1)
                  else Double.Number endString in
                match end0 with
                | DInf => None
                | DFin end_ =>
                    if end_ <? start then None
                    else Some (start, Z.min end_ (size - 1))
                end
          end
      in
      match bounds with
      | None => Rejected "Invalid Range"
      | Some (start, end_) =>
          if size <=? start then Rejected "Range Not Satisfiable"
          else ByteRange start end_
      end
  end.

(** ** Node's POSIX [path] module

    [path] is not part of the repository.  [normalize] and [resolve] are
    modelled on the segments of a path, which is what the character loop of
    Node's [normalizeString] computes: empty and [.] segments are dropped, a
    [..] segment removes the segment before it, or is kept when there is
    none and the path is relative. *)

Module Path.

Definition sep : string := "/".

Definition is_slash (c : ascii) : bool := Ascii.eqb c "/".

(** [s.split('/')] *)
Fixpoint split (s : string) : list string :=
  match s with
  | "" => [""]
  | String c r =>
      if is_slash c then "" :: split r
      else match split r with
           | h :: t => String c h :: t
           | [] => [String c ""]
           end
  end.

(** [segs.join('/')] *)
Fixpoint join (segs : list string) : string :=
  match segs with
  | [] => ""
  | [x] => x
  | x :: rest => x ++ "/" ++ join rest
  end.

(** One segment of [normalizeString]; [res] holds the segments kept so far,
    the last one first. *)
Definition step (allowAboveRoot : bool) (res : list string) (seg : string)
  : list string :=
  if (seg =? "")%string || (seg =? ".")%string then res
  else if (seg =? "..")%string then
    match res with
    | last :: res' =>
        if (last =? "..")%string
        then (if allowAboveRoot then ".." :: res else res)
        else res'
    | [] => if allowAboveRoot then [".."] else []
    end
  else seg :: res.

Definition normalizeString (path : string) (allowAboveRoot : bool) : string :=
  join (rev (fold_left (step allowAboveRoot) (split path) [])).

(** The segments that [step] keeps as they are. *)
Definition keep (seg : string) : bool :=
  negb ((seg =? "")%string || (seg =? ".")%string).

Definition no_slash (seg : string) : Prop :=
  Forall (fun c => is_slash c = false) (list_ascii_of_string seg).

(** A segment of a normalized absolute path: a name without a slash that
    is not empty, [.] or [..]. *)
Definition clean (seg : string) : Prop :=
  keep seg = true /\ seg <> ".." /\ no_slash seg.

Definition isAbsolute (path : string) : bool := Str.startsWith "/" path.

Fixpoint endsWithSlash (path : string) : bool :=
  match path with
  | "" => false
  | String c "" => is_slash c
  | String _ r => endsWithSlash r
  end.

(** [path.normalize] *)
Definition normalize (path : string) : string :=
  if (path =? "")%string then "."
  else
    let trailingSeparator := endsWithSlash path in
    let p := normalizeString path (negb (isAbsolute path)) in
    if (p =? "")%string then
      if isAbsolute path then "/"
      else if trailingSeparator then "./" else "."
    else
      (if isAbsolute path then "/" else "")
        ++ p ++ (if trailingSeparator then "/" else "").

(** The loop of [path.resolve], from the last argument to the first and
    then to the working directory, until an absolute path is met. *)
Fixpoint resolve_loop (cwd : string) (args_rev : list string)
    (resolvedPath : string) : string * bool :=
  match args_rev with
  | [] => (cwd ++ "/" ++ resolvedPath, isAbsolute cwd)
  | path :: rest =>
      if (path =? "")%string then resolve_loop cwd rest resolvedPath
      else if isAbsolute path then (path ++ "/" ++ resolvedPath, true)
      else resolve_loop cwd rest (path ++ "/" ++ resolvedPath)
  end.

(** [path.resolve(...args)], [cwd] being [process.cwd()]. *)
Definition resolve (cwd : string) (args : list string) : string :=
  let '(resolvedPath, resolvedAbsolute) := resolve_loop cwd (rev args) "" in
  let p := normalizeString resolvedPath (negb resolvedAbsolute) in
  if resolvedAbsolute then "/" ++ p
  else if (p =? "")%string then "." else p.

End Path.

(** ** The streaming endpoint (lines 204-334) *)

Inductive body : Type :=
| StatusText                                   (* [res.sendStatus(code)] *)
| Text (s : string)                            (* [res.send(s)] *)
| FileBytes (path : string) (range : option (Z * Z)).   (* [stream.pipe(res)] *)

Record response : Type := mkResponse {
  status : Z;
  headers : list (string * string);
  payload : body
}.

(** What [fs.promises.stat] resolves to. *)
Record Stats : Type := mkStats {
  isFile : bool;
  size : Z
}.

(** The calls into [fs], in the order they are made. *)
Inductive fs_call : Type :=
| Stat (path : string)
| CreateReadStream (path : string) (range : option (Z * Z)).

Definition fs_path (c : fs_call) : string :=
  match c with
  | Stat p => p
  | CreateReadStream p _ => p
  end.

(** A GET matched by the route: the captured group [req.params[0]] and
    [req.headers.range]. *)
Record request : Type := mkRequest {
  param : string;
  range : option string
}.

(** [s.replace(/^([/\\])+/, '')]: drop the slashes and backslashes at the
    head of [s]. *)
Fixpoint strip_leading_separators (s : string) : string :=
  match s with
  | String c r =>
      if Ascii.eqb c "/" || Ascii.eqb c "\" then strip_leading_separators r
      else s
  | "" => ""
  end.

Section Streaming.

(** [process.cwd()] and the directory of the server module. *)
Variable cwd : string.
Variable __dirname : string.

(** The file system as [stat] sees it: [None] when the call rejects. *)
Variable stat : string -> option Stats.

Definition mp4Dir : string := Path.resolve cwd [__dirname; "../mp4"].

Definition contentType : string := "video/mp4".

Definition isInsideMp4Dir (absolutePath : string) : bool :=
  (absolutePath =? mp4Dir)%string
  || Str.startsWith (mp4Dir ++ Path.sep) absolutePath.

(** The asset root itself, or a path below it. *)
Definition inside_root (p : string) : Prop :=
  p = mp4Dir \/ exists rest, p = mp4Dir ++ Path.sep ++ rest.

Definition range_not_satisfiable (size : Z) (text : string) : response :=
  mkResponse 416 [("Content-Range", "bytes */" ++ Str.of_Z size)] (Text text).

(** The handler from the [stat] result on: the full file without a Range
    header, else one byte range or a 416. *)
Definition serve_file (absolutePath : string) (stats : Stats)
    (rangeHeader : option string) : response * list fs_call :=
  let no_range :=
    (mkResponse 200
       [("Content-Length", Str.of_Z (size stats));
        ("Content-Type", contentType);
        ("Accept-Ranges", "bytes")]
       (FileBytes absolutePath None),
     [CreateReadStream absolutePath None]) in
  match rangeHeader with
  | None => no_range
  | Some h =>
      if (h =? "")%string then no_range
      else
        match resolve_range h (size stats) with
        | Rejected text => (range_not_satisfiable (size stats) text, [])
        | ByteRange start end_ =>
            let chunkSize := end_ - start + 1 in
            (mkResponse 206
               [("Content-Range",
                 "bytes " ++ Str.of_Z start ++ "-" ++ Str.of_Z end_
                   ++ "/" ++ Str.of_Z (size stats));
                ("Accept-Ranges", "bytes");
                ("Content-Length", Str.of_Z chunkSize);
                ("Content-Type", contentType)]
               (FileBytes absolutePath (Some (start, end_))),
             [CreateReadStream absolutePath (Some (start, end_))])
        end
  end.

(** The handler up to the [stat] call: the response sent without touching
    the file system, or the [absolutePath] that goes to [stat]. *)
Definition locate (req : request) : response + string :=
  let requestedPath := Str.trim (param req) in
  if (requestedPath =? "")%string then inl (mkResponse 404 [] StatusText)
  else
    let normalizedPath :=
      strip_leading_separators (Path.normalize requestedPath) in
    if Str.includes ".." normalizedPath then
      inl (mkResponse 400 [] (Text "Invalid video path"))
    else
      let absolutePath := Path.resolve cwd [mp4Dir; normalizedPath] in
      if negb (isInsideMp4Dir absolutePath) then
        inl (mkResponse 400 [] (Text "Invalid video path"))
      else inr absolutePath.

(** The whole handler: the response and the [fs] calls made on the way.
    Errors of the read stream after [stat] are not modelled here; they
    are added by [stream_mp4_ending]. *)
Definition stream_mp4 (req : request) : response * list fs_call :=
  match locate req with
  | inl res => (res, [])
  | inr absolutePath =>
      match stat absolutePath with
      | None => (mkResponse 404 [] StatusText, [Stat absolutePath])
      | Some stats =>
          if negb (isFile stats) then
            (mkResponse 404 [] StatusText, [Stat absolutePath])
          else
            let '(res, calls) := serve_file absolutePath stats (range req) in
            (res, Stat absolutePath :: calls)
      end
  end.

End Streaming.

(** ** JavaScript values of the realtime channel *)

Definition number : Type := spec_float.

Module Num.

Definition NaN : number := S754_nan.
Definition zero : number := S754_zero false.
Definition of_Z (z : Z) : number :=
  binary_normalize 53 1024 z 0 false.
Definition one : number := Eval cbv in of_Z 1.
Definition hundred : number := Eval cbv in of_Z 100.

Definition isNaN (x : number) : bool :=
  match x with
  | S754_nan => true
  | _ => false
  end.

(** [Math.max(a, b)]: NaN when either is NaN, and [+0] above [-0]. *)
Definition max (a b : number) : number :=
  match SFcompare a b with
  | None => NaN
  | Some Lt => b
  | Some Gt => a
  | Some Eq =>
      match a, b with
      | S754_zero sa, S754_zero sb => S754_zero (sa && sb)
      | _, _ => a
      end
  end.

(** [Math.min(a, b)] *)
Definition min (a b : number) : number :=
  match SFcompare a b with
  | None => NaN
  | Some Lt => a
  | Some Gt => b
  | Some Eq =>
      match a, b with
      | S754_zero sa, S754_zero sb => S754_zero (sa || sb)
      | _, _ => a
      end
  end.

(** [lo <= x <= hi] *)
Definition between (lo hi x : number) : bool := SFleb lo x && SFleb x hi.

End Num.

(** What [JSON.parse] produces, and [undefined] for the properties that are
    not there.  An object lists its own properties in insertion order
    (JavaScript lists the keys that are array indices first; nothing below
    depends on the order). *)
#[warnings="-register-all"]
Inductive value : Type :=
| VUndefined
| VNull
| VBool (b : bool)
| VNum (x : number)
| VStr (s : string)
| VArr (elems : list value)
| VObj (props : list (string * value)).

Definition obj : Type := list (string * value).

Module JS.

(** [Boolean(v)] *)
Definition truthy (v : value) : bool :=
  match v with
  | VUndefined | VNull => false
  | VBool b => b
  | VNum (S754_zero _) | VNum S754_nan => false
  | VNum _ => true
  | VStr s => negb (s =? "")%string
  | VArr _ | VObj _ => true
  end.

(** [a || b] *)
Definition or_else (a b : value) : value := if truthy a then a else b.

(** [a ?? b] *)
Definition coalesce (a b : value) : value :=
  match a with
  | VUndefined | VNull => b
  | _ => a
  end.

Fixpoint get_prop (o : obj) (k : string) : value :=
  match o with
  | [] => VUndefined
  | (k', v) :: rest => if (k' =? k)%string then v else get_prop rest k
  end.

(** [o[k] = v] on an object: the property keeps its place when it is
    there, and is added last when it is not. *)
Fixpoint set_prop (o : obj) (k : string) (v : value) : obj :=
  match o with
  | [] => [(k, v)]
  | (k', v') :: rest =>
      if (k' =? k)%string then (k, v) :: rest
      else (k', v') :: set_prop rest k v
  end.

(** [v.k] and [v?.k] for the property names the server reads (none of them
    is on a built-in prototype): the own property of an object, [undefined]
    on anything else.  On [null] the plain [v.k] throws; the one place where
    the source does that, [message.type], is handled in [on_message]. *)
Definition get (v : value) (k : string) : value :=
  match v with
  | VObj o => get_prop o k
  | _ => VUndefined
  end.

Definition index_key (i : nat) : string :=
  NilZero.string_of_uint (Nat.to_uint i).

Fixpoint indexed {A : Type} (f : A -> value) (i : nat) (l : list A) : obj :=
  match l with
  | [] => []
  | x :: rest => (index_key i, f x) :: indexed f (S i) rest
  end.

(** The own enumerable properties that a spread [...v] copies: those of an
    object, the elements of an array, the characters of a string. *)
Definition own_props (v : value) : obj :=
  match v with
  | VObj o => o
  | VArr l => indexed (fun x => x) 0 l
  | VStr s => indexed (fun c => VStr (String c "")) 0 (list_ascii_of_string s)
  | _ => []
  end.

Definition assign (target : obj) (source : value) : obj :=
  fold_left (fun o kv => set_prop o (fst kv) (snd kv)) (own_props source) target.

(** The object literal with two spreads: first [a], then [b] over it. *)
Definition spread2 (a b : value) : obj := assign (assign [] a) b.

(** [['shader', 'video', 'generative'].includes(v)] and the like: only a
    string is equal to a string. *)
Definition includes (l : list string) (v : value) : bool :=
  match v with
  | VStr s => existsb (String.eqb s) l
  | _ => false
  end.

(** [v === 'literal'] *)
Definition is_string (v : value) (literal : string) : bool :=
  match v with
  | VStr s => (s =? literal)%string
  | _ => false
  end.

(** The names that [Object.prototype] answers to. *)
Definition object_prototype_names : list string :=
  ["constructor"; "__proto__"; "hasOwnProperty"; "isPrototypeOf";
   "propertyIsEnumerable"; "toLocaleString"; "toString"; "valueOf";
   "__defineGetter__"; "__defineSetter__"; "__lookupGetter__";
   "__lookupSetter__"].

End JS.

(** ** Session state (lines 83-128) *)

Inductive DeckKey : Type := deck_a | deck_b | deck_c | deck_d.

(** An object with the four own properties [a], [b], [c] and [d]. *)
Record PerDeck (A : Type) : Type := mkPerDeck {
  at_a : A;
  at_b : A;
  at_c : A;
  at_d : A
}.
Arguments mkPerDeck {A}.
Arguments at_a {A}.
Arguments at_b {A}.
Arguments at_c {A}.
Arguments at_d {A}.

Definition deck_name (k : DeckKey) : string :=
  match k with
  | deck_a => "a"
  | deck_b => "b"
  | deck_c => "c"
  | deck_d => "d"
  end.

Definition deck_get {A : Type} (p : PerDeck A) (k : DeckKey) : A :=
  match k with
  | deck_a => at_a p
  | deck_b => at_b p
  | deck_c => at_c p
  | deck_d => at_d p
  end.

Definition deck_set {A : Type} (p : PerDeck A) (k : DeckKey) (x : A)
  : PerDeck A :=
  match k with
  | deck_a => mkPerDeck x (at_b p) (at_c p) (at_d p)
  | deck_b => mkPerDeck (at_a p) x (at_c p) (at_d p)
  | deck_c => mkPerDeck (at_a p) (at_b p) x (at_d p)
  | deck_d => mkPerDeck (at_a p) (at_b p) (at_c p) x
  end.

Definition defaultMixDeck : obj :=
  [("type", VNull); ("assetId", VNull); ("opacity", VNum Num.one);
   ("enabled", VBool false)].

Record DeckMediaState : Type := mkDeckMediaState {
  isPlaying : bool;
  progress : number;
  isLoading : bool;
  error : bool;
  src : value
}.

Definition defaultDeckMediaState : DeckMediaState :=
  mkDeckMediaState false Num.zero false false VNull.

Record MixState : Type := mkMixState {
  crossfaderAB : number;
  crossfaderAC : number;
  crossfaderBD : number;
  crossfaderCD : number;
  decks : PerDeck obj
}.

Record State : Type := mkState {
  fallbackLayers : value;
  controlSettings : obj;
  viewerStatus : obj;
  mixState : MixState;
  deckMediaStates : PerDeck DeckMediaState
}.

Definition half : number := Eval cbv in binary_normalize 53 1024 1 (-1) false.

Definition initial_state : State :=
  mkState
    (VArr [])
    [("modelProvider", VStr "gemini"); ("audioInputMode", VStr "file");
     ("prompt", VStr "")]
    [("isRunning", VBool false); ("isGenerating", VBool false);
     ("error", VStr "")]
    (mkMixState half half half half
       (mkPerDeck defaultMixDeck defaultMixDeck defaultMixDeck defaultMixDeck))
    (mkPerDeck defaultDeckMediaState defaultDeckMediaState
       defaultDeckMediaState defaultDeckMediaState).

(** The fields that [crossfaderFieldMap] names. *)
Inductive CrossfaderField : Type := fieldAB | fieldAC | fieldBD | fieldCD.

Definition crossfader (m : MixState) (f : CrossfaderField) : number :=
  match f with
  | fieldAB => crossfaderAB m
  | fieldAC => crossfaderAC m
  | fieldBD => crossfaderBD m
  | fieldCD => crossfaderCD m
  end.

Definition set_crossfader (m : MixState) (f : CrossfaderField) (x : number)
  : MixState :=
  match f with
  | fieldAB =>
      mkMixState x (crossfaderAC m) (crossfaderBD m) (crossfaderCD m) (decks m)
  | fieldAC =>
      mkMixState (crossfaderAB m) x (crossfaderBD m) (crossfaderCD m) (decks m)
  | fieldBD =>
      mkMixState (crossfaderAB m) (crossfaderAC m) x (crossfaderCD m) (decks m)
  | fieldCD =>
      mkMixState (crossfaderAB m) (crossfaderAC m) (crossfaderBD m) x (decks m)
  end.

Definition set_decks (m : MixState) (d : PerDeck obj) : MixState :=
  mkMixState (crossfaderAB m) (crossfaderAC m) (crossfaderBD m)
    (crossfaderCD m) d.

Definition set_fallbackLayers (s : State) (v : value) : State :=
  mkState v (controlSettings s) (viewerStatus s) (mixState s)
    (deckMediaStates s).

Definition set_controlSettings (s : State) (o : obj) : State :=
  mkState (fallbackLayers s) o (viewerStatus s) (mixState s)
    (deckMediaStates s).

Definition set_viewerStatus (s : State) (o : obj) : State :=
  mkState (fallbackLayers s) (controlSettings s) o (mixState s)
    (deckMediaStates s).

Definition set_mixState (s : State) (m : MixState) : State :=
  mkState (fallbackLayers s) (controlSettings s) (viewerStatus s) m
    (deckMediaStates s).

Definition set_deckMediaStates (s : State) (d : PerDeck DeckMediaState)
  : State :=
  mkState (fallbackLayers s) (controlSettings s) (viewerStatus s)
    (mixState s) d.

(** ** Connections and frames (lines 130-149) *)

(** A member of [clients]: the socket (by identity), whether its
    [readyState] is [OPEN], and the role it registered. *)
Record Client : Type := mkClient {
  ws : nat;
  isOpen : bool;
  role : value
}.

(** The messages given to [broadcast], before [JSON.stringify]. *)
Inductive frame : Type :=
| MixStateFrame (m : MixState)                      (* type 'mix-state' *)
| FallbackLayersFrame (layers : value)              (* 'fallback-layers' *)
| ControlSettingsFrame (settings : obj)             (* 'control-settings' *)
| ViewerStatusFrame (st : obj)                      (* 'viewer-status' *)
| DeckMediaStateFrame (deck : value) (st : DeckMediaState)
| RtcSignalFrame (rtc : string) (data : value)      (* 'rtc-signal' *)
| Relay (message : value).                          (* the inbound message *)

(** One [client.ws.send(payload)]. *)
Definition sent : Type := (nat * frame)%type.

(** [broadcast(message, { exclude })]: one send to each client that is not
    the excluded socket and whose socket is open, in the order of the set. *)
Definition broadcast (clients : list Client) (message : frame)
    (exclude : option nat) : list sent :=
  map (fun client => (ws client, message))
    (filter
       (fun client =>
          negb (match exclude with
                | Some w => Nat.eqb w (ws client)
                | None => false
                end)
          && isOpen client)
       clients).

Definition broadcastMixState (clients : list Client) (s : State) : list sent :=
  broadcast clients (MixStateFrame (mixState s)) None.

(** Who was sent something, in order. *)
Definition recipients (out : list sent) : list nat := map fst out.

(** The sockets of all open connections, and of all but one. *)
Definition all_open (clients : list Client) : list nat :=
  map ws (filter isOpen clients).

Definition others_open (clients : list Client) (sender : nat) : list nat :=
  map ws (filter (fun c => isOpen c && negb (Nat.eqb (ws c) sender)) clients).


Definition crossfaderFieldMap (target : string) : option CrossfaderField :=
  if (target =? "main")%string then Some fieldAB
  else if (target =? "ab")%string then Some fieldAB
  else if (target =? "ac")%string then Some fieldAC
  else if (target =? "bd")%string then Some fieldBD
  else if (target =? "cd")%string then Some fieldCD
  else None.

(** ** Message handlers (lines 159-191 and 363-493) *)

Record World : Type := mkWorld {
  state : State;
  clients : list Client
}.

(** The condition [deck && table[deck]] on a table with the own keys [a],
    [b], [c] and [d].  [Some (Some k)]: true, on the own key [k].
    [Some None]: false.  [None]: the lookup is not modelled, either because
    the key is an array or an object (its conversion to a property key runs
    [toString]), or because it is a name inherited from [Object.prototype],
    which the source takes for a deck. *)
Definition deck_lookup (deck : value) : option (option DeckKey) :=
  if negb (JS.truthy deck) then Some None
  else
    match deck with
    | VStr s =>
        if (s =? "a")%string then Some (Some deck_a)
        else if (s =? "b")%string then Some (Some deck_b)
        else if (s =? "c")%string then Some (Some deck_c)
        else if (s =? "d")%string then Some (Some deck_d)
        else if existsb (String.eqb s) JS.object_prototype_names then None
        else Some None
    | VArr _ | VObj _ => None
    | _ => Some None
    end.

(** The object literal of the [update-mix-deck] case: the deck [k] as it
    is, with the properties of [message.payload?.data || {}] over it. *)
Definition merged_deck (w : World) (message : value) (k : DeckKey) : obj :=
  JS.spread2 (VObj (deck_get (decks (mixState (state w))) k))
    (JS.or_else (JS.get (JS.get message "payload") "data") (VObj [])).

Definition rtc_kinds : list string :=
  ["offer"; "answer"; "ice-candidate"; "request-offer"].

Definition deck_types : list string := ["shader"; "video"; "generative"].

Section Handlers.

(** [Number] on a string, and on an array or an object.  The second runs
    [valueOf] and [toString] and is [None] when that throws, which happens
    when the JSON data shadows both with values that are not functions. *)
Variable StringToNumber : string -> number.
Variable ObjectToNumber : value -> option number.

(** [Number(v)] *)
Definition ToNumber (v : value) : option number :=
  match v with
  | VUndefined => Some Num.NaN
  | VNull => Some Num.zero
  | VBool true => Some Num.one
  | VBool false => Some Num.zero
  | VNum x => Some x
  | VStr s => Some (StringToNumber s)
  | VArr _ | VObj _ => ObjectToNumber v
  end.

(** [Math.min(1, Math.max(0, x))] *)
Definition clamp01 (x : number) : number := Num.min Num.one (Num.max Num.zero x).

(** The statements of the [update-mix-deck] case from the type test to the
    coercion of [enabled], on [current]; [None] when [Number] throws. *)
Definition apply_deck_invariants (current : obj) : option obj :=
  let current :=
    if negb (JS.includes deck_types (JS.get_prop current "type"))
    then JS.set_prop current "type" VNull
    else current in
  let current :=
    if JS.is_string (JS.get_prop current "type") "generative"
    then JS.set_prop current "assetId" VNull
    else if negb (JS.truthy (JS.get_prop current "assetId"))
            || negb (JS.truthy (JS.get_prop current "type"))
    then JS.set_prop (JS.set_prop current "type" VNull) "assetId" VNull
    else current in
  match ToNumber (JS.coalesce (JS.get_prop current "opacity") (VNum Num.one)) with
  | None => None
  | Some x =>
      let current := JS.set_prop current "opacity" (VNum (clamp01 x)) in
      Some (JS.set_prop current "enabled"
              (VBool (JS.truthy (JS.get_prop current "enabled"))))
  end.

(** The [update-mix-deck] case. *)
Definition update_mix_deck (w : World) (message : value)
  : option (World * list sent) :=
  let deck := JS.get (JS.get message "payload") "deck" in
  match deck_lookup deck with
  | None => None
  | Some None => Some (w, [])
  | Some (Some k) =>
      let s := state w in
      match apply_deck_invariants (merged_deck w message k) with
      | None => None
      | Some current =>
          let s' :=
            set_mixState s
              (set_decks (mixState s) (deck_set (decks (mixState s)) k current)) in
          Some (mkWorld s' (clients w), broadcastMixState (clients w) s')
      end
  end.

(** [applyCrossfaderUpdate(payload)]: the returned boolean, the state and
    the frames sent.  A target that is a name inherited from
    [Object.prototype] reaches a value that is not a key of [mixState] and
    is refused like an unknown one. *)
Definition applyCrossfaderUpdate (w : World) (payload : value)
  : option (bool * World * list sent) :=
  if negb (JS.truthy payload) then Some (false, w, [])
  else
    let target :=
      match JS.get payload "target" with
      | VStr t => VStr (Str.toLowerCase (Str.trim t))
      | _ => VUndefined
      end in
    let field :=
      match target with
      | VStr t => if JS.truthy target then crossfaderFieldMap t else None
      | _ => None
      end in
    match field with
    | None => Some (false, w, [])
    | Some f =>
        match ToNumber (JS.coalesce (JS.get payload "value") (VNum Num.zero)) with
        | None => None
        | Some x =>
            let value := clamp01 x in
            let s' :=
              set_mixState (state w) (set_crossfader (mixState (state w)) f value) in
            Some (true, mkWorld s' (clients w), broadcastMixState (clients w) s')
        end
    end.

(** [handleRTCSignaling(message, ws)] *)
Definition handleRTCSignaling (w : World) (message : value) (sender : nat)
  : list sent :=
  match JS.get message "rtc" with
  | VStr rtc =>
      let rtcType := Str.toLowerCase (Str.trim rtc) in
      if negb (existsb (String.eqb rtcType) rtc_kinds) then []
      else
        broadcast (clients w)
          (RtcSignalFrame rtcType (JS.coalesce (JS.get message "payload") VNull))
          (Some sender)
  | _ => []
  end.

(** The [deck-media-state] case. *)
Definition deck_media_state (w : World) (message : value) (sender : nat)
  : option (World * list sent) :=
  let deck := JS.get (JS.get message "payload") "deck" in
  let deckState := JS.get (JS.get message "payload") "state" in
  match deck_lookup deck with
  | None => None
  | Some None => Some (w, [])
  | Some (Some k) =>
      if negb (JS.truthy deckState) then Some (w, [])
      else
        match ToNumber (JS.coalesce (JS.get deckState "progress") (VNum Num.zero)) with
        | None => None
        | Some p =>
            let entry :=
              mkDeckMediaState
                (JS.truthy (JS.get deckState "isPlaying"))
                (Num.max Num.zero (Num.min Num.hundred p))
                (JS.truthy (JS.get deckState "isLoading"))
                (JS.truthy (JS.get deckState "error"))
                (match JS.get deckState "src" with
                 | VStr s =>
                     if negb (Str.trim s =? "")%string then VStr s else VNull
                 | _ => VNull
                 end) in
            let s' :=
              set_deckMediaStates (state w)
                (deck_set (deckMediaStates (state w)) k entry) in
            Some (mkWorld s' (clients w),
                  broadcast (clients w) (DeckMediaStateFrame deck entry)
                    (Some sender))
        end
  end.

Definition set_role (sender : nat) (r : value) (c : Client) : Client :=
  if Nat.eqb (ws c) sender then mkClient (ws c) (isOpen c) r else c.

(** The listener of the [message] event of the socket [sender], on the
    message that [JSON.parse] returned.  [None]: the run leaves the model,
    because the listener throws ([message] is [null], or [Number] throws)
    or because of a deck key that [deck_lookup] does not model. *)
Definition on_message (w : World) (sender : nat) (message : value)
  : option (World * list sent) :=
  match message with
  | VNull | VUndefined => None
  | _ =>
      match JS.get message "type" with
      | VStr "register" =>
          let r := JS.or_else (JS.get message "role") (VStr "unknown") in
          Some (mkWorld (state w) (map (set_role sender r) (clients w)), [])
      | VStr "update-fallback-layers" =>
          let s' :=
            set_fallbackLayers (state w)
              (JS.or_else (JS.get message "payload") (VArr [])) in
          Some (mkWorld s' (clients w),
                broadcast (clients w) (FallbackLayersFrame (fallbackLayers s'))
                  (Some sender))
      | VStr "update-control-settings" =>
          let s' :=
            set_controlSettings (state w)
              (JS.spread2 (VObj (controlSettings (state w)))
                 (JS.or_else (JS.get message "payload") (VObj []))) in
          Some (mkWorld s' (clients w),
                broadcast (clients w)
                  (ControlSettingsFrame (controlSettings s')) (Some sender))
      | VStr "update-mix-deck" => update_mix_deck w message
      | VStr "update-crossfader"
      | VStr "updateCrossfader" =>
          match applyCrossfaderUpdate w (JS.get message "payload") with
          | None => None
          | Some (_, w', out) => Some (w', out)
          end
      | VStr "start-visualization"
      | VStr "stop-visualization"
      | VStr "regenerate-shader"
      | VStr "set-audio-sensitivity" =>
          Some (w, broadcast (clients w) (Relay message) (Some sender))
      | VStr "viewer-status" =>
          let s' :=
            set_viewerStatus (state w)
              (JS.spread2 (VObj (viewerStatus (state w)))
                 (JS.or_else (JS.get message "payload") (VObj []))) in
          Some (mkWorld s' (clients w),
                broadcast (clients w) (ViewerStatusFrame (viewerStatus s'))
                  (Some sender))
      | VStr "code-progress" =>
          Some (w, broadcast (clients w) (Relay message) (Some sender))
      | VStr "deck-media-state" => deck_media_state w message sender
      | VStr "rtc-signal" => Some (w, handleRTCSignaling w message sender)
      | _ => Some (w, [])
      end
  end.

End Handlers.

(** ** The words of the specification *)

(** [v] is [x] clamped to the interval from 0 to 1: [v] lies in the
    interval, is 0 for [x] below 0, 1 for [x] above 1, and equal to [x] (as
    numbers) for [x] inside. *)
Definition clamped_to_unit (x v : number) : Prop :=
  Num.between Num.zero Num.one v = true /\
  (SFltb x Num.zero = true -> v = Num.zero) /\
  (SFltb Num.one x = true -> v = Num.one) /\
  (Num.between Num.zero Num.one x = true -> SFeqb v x = true).

(** The invariants of a deck, as the specification lists them. *)
Definition deck_invariants_as_stated (deck : obj) : Prop :=
  let type := JS.get_prop deck "type" in
  let assetId := JS.get_prop deck "assetId" in
  (type = VStr "generative" -> assetId = VNull) /\
  (JS.includes deck_types type = false -> type = VNull) /\
  (assetId = VNull \/ type = VNull -> assetId = VNull /\ type = VNull) /\
  (exists x,
     JS.get_prop deck "opacity" = VNum x /\
     Num.between Num.zero Num.one x = true) /\
  (exists b, JS.get_prop deck "enabled" = VBool b).


(** Who must see an update: every connection, or every one but the
    originator. *)
Inductive audience : Type := Everyone | Others.

Definition update_audience (type : string) : option audience :=
  if existsb (String.eqb type)
       ["update-mix-deck"; "update-crossfader"; "updateCrossfader"]
  then Some Everyone
  else if existsb (String.eqb type)
       ["update-fallback-layers"; "update-control-settings"; "viewer-status";
        "deck-media-state"]
  then Some Others
  else None.



Definition pass_through_types : list string :=
  ["start-visualization"; "stop-visualization"; "regenerate-shader";
   "set-audio-sensitivity"; "code-progress"].

Definition deck_names : list string := ["a"; "b"; "c"; "d"].

Definition crossfader_targets : list string := ["main"; "ab"; "ac"; "bd"; "cd"].

(** The field that a target names, [main] standing for [ab]. *)
Definition target_field (target : string) : CrossfaderField :=
  if (target =? "ac")%string then fieldAC
  else if (target =? "bd")%string then fieldBD
  else if (target =? "cd")%string then fieldCD
  else fieldAB.

(** ** Concrete inputs *)

Module Example.

Definition cwd : string := "/srv/muloom".
Definition dirname : string := "/srv/muloom/server".

(** A disk with a clip of 1000 bytes and an empty file below the asset
    root. *)
Definition disk (p : string) : option Stats :=
  if (p =? "/srv/muloom/mp4/music/clip.mp4")%string then Some (mkStats true 1000)
  else if (p =? "/srv/muloom/mp4/loops/empty.mp4")%string then Some (mkStats true 0)
  else if (p =? "/srv/muloom/mp4")%string then Some (mkStats false 4096)
  else if (p =? "/srv/muloom/mp4/music")%string then Some (mkStats false 4096)
  else if (p =? "/srv/muloom/mp4/loops")%string then Some (mkStats false 4096)
  else None.

(** A stand-in for the conversions of the engine, enough to run the
    examples below: it agrees with [Number] on the texts that are blank
    (0) or spell no number (NaN), on the empty array (0) and on plain
    objects (NaN); no example converts anything else. *)
Definition StringToNumber (s : string) : number :=
  if (Str.trim s =? "")%string then Num.zero else Num.NaN.
Definition ObjectToNumber (v : value) : option number :=
  match v with
  | VArr [] => Some Num.zero
  | _ => Some Num.NaN
  end.

Definition one_and_a_half : number :=
  Eval cbv in binary_normalize 53 1024 3 (-1) false.

Definition three_clients : list Client :=
  [mkClient 1 true (VStr "controller"); mkClient 2 true (VStr "viewer");
   mkClient 3 false (VStr "viewer")].

Definition world : World := mkWorld initial_state three_clients.

Definition message (type : string) (payload : value) : value :=
  VObj [("type", VStr type); ("payload", payload)].

End Example.

(** ** Asset catalogue (lines 17-81) *)

(** [s.endsWith(suffix)]: some tail of [s] is [suffix]. *)
Fixpoint endsWith (suffix s : string) : bool :=
  (s =? suffix)%string ||
  match s with
  | "" => false
  | String _ r => endsWith suffix r
  end.

(** [s.replace(/EXT$/i, '')] for a literal [ext] in lower case: the tail of
    [s] that reads [ext] when case is ignored is removed, and [s] is left
    as it is when it has no such tail. *)
Fixpoint remove_extension (ext s : string) : string :=
  if (Str.toLowerCase s =? ext)%string then ""
  else
    match s with
    | "" => ""
    | String c r => String c (remove_extension ext r)
    end.

(** [path.join(...args)]: the arguments that are not empty, joined with
    slashes and normalized; [.] when there is none. *)
Definition path_join (args : list string) : string :=
  match filter (fun a => negb (a =? "")%string) args with
  | [] => "."
  | parts => Path.normalize (Path.join parts)
  end.

(** The synchronous calls into [fs] that the catalogue makes; [None] is a
    call that throws. *)
Record Disk : Type := mkDisk {
  existsSync : string -> bool;
  readdirSync : string -> option (list string);
  isDirectory : string -> option bool;       (* [fs.statSync(p).isDirectory()] *)
  readFileSync : string -> option string
}.

Record GlslAsset : Type := mkGlslAsset {
  glsl_id : string;
  glsl_name : string;
  glsl_code : string
}.

Record VideoAsset : Type := mkVideoAsset {
  video_id : string;
  video_name : string;
  video_category : string;
  video_url : string
}.

Record FallbackAssets : Type := mkFallbackAssets {
  glsl : list GlslAsset;
  videos : list VideoAsset
}.

Section Catalogue.

Variable cwd : string.
Variable __dirname : string.
Variable disk : Disk.

Definition glslDir : string := Path.resolve cwd [__dirname; "../glsl"].

(** The body of the loop over the entries of [glslDir]: what one entry
    adds to [glsl].  A file that cannot be read is skipped. *)
Definition glsl_of_entry (entry : string) : list GlslAsset :=
  if endsWith ".glsl" (Str.toLowerCase entry) then
    match readFileSync disk (path_join [glslDir; entry]) with
    | Some code =>
        [mkGlslAsset entry (remove_extension ".glsl" entry) code]
    | None => []
    end
  else [].

(** The body of the inner loop: what one entry of a category adds to
    [videos]. *)
Definition video_of_entry (category entry : string) : list VideoAsset :=
  if negb (endsWith ".mp4" (Str.toLowerCase entry)) then []
  else
    let filePath := path_join [category; entry] in
    [mkVideoAsset filePath (remove_extension ".mp4" entry) category
       ("/stream/mp4/" ++ filePath)].

(** The body of the outer loop: what one entry of [mp4Dir] adds to
    [videos].  An entry that is not a directory, or that cannot be
    inspected or listed, is skipped. *)
Definition videos_of_category (category : string) : list VideoAsset :=
  let categoryDir := path_join [mp4Dir cwd __dirname; category] in
  match isDirectory disk categoryDir with
  | Some true =>
      match readdirSync disk categoryDir with
      | Some entries => flat_map (video_of_entry category) entries
      | None => []
      end
  | _ => []
  end.

(** [readFallbackAssets()]; [None] when it throws, which is when a root
    exists and cannot be listed. *)
Definition readFallbackAssets : option FallbackAssets :=
  let glsl :=
    if existsSync disk glslDir then
      option_map (flat_map glsl_of_entry) (readdirSync disk glslDir)
    else Some [] in
  match glsl with
  | None => None
  | Some glsl =>
      let videos :=
        if existsSync disk (mp4Dir cwd __dirname) then
          option_map (flat_map videos_of_category)
            (readdirSync disk (mp4Dir cwd __dirname))
        else Some [] in
      match videos with
      | None => None
      | Some videos => Some (mkFallbackAssets glsl videos)
      end
  end.

End Catalogue.

(** ** Connections (lines 349-361 and 495-497) *)

(** The listener of [close]: [clients.delete(client)]. *)
Definition on_close (w : World) (socket : nat) : World :=
  mkWorld (state w)
    (filter (fun c => negb (Nat.eqb (ws c) socket)) (clients w)).

(** ** Reachable states *)

(** The message types of the [switch]. *)
Definition message_types : list string :=
  ["register"; "update-fallback-layers"; "update-control-settings";
   "update-mix-deck"; "update-crossfader"; "updateCrossfader";
   "start-visualization"; "stop-visualization"; "regenerate-shader";
   "set-audio-sensitivity"; "viewer-status"; "code-progress";
   "deck-media-state"; "rtc-signal"].

(** [k] is an own property of [o]. *)
Definition has_key (o : obj) (k : string) : bool :=
  existsb (fun kv => (fst kv =? k)%string) o.

(** A number in the unit interval, or NaN. *)
Definition unit_or_NaN (x : number) : Prop :=
  Num.isNaN x = true \/ Num.between Num.zero Num.one x = true.

(** What every deck of the server looks like: no property twice, the type
    and the asset consistent, a number for opacity, a boolean [enabled]. *)
Definition deck_ok (deck : obj) : Prop :=
  NoDup (map fst deck) /\
  ((JS.get_prop deck "type" = VNull /\ JS.get_prop deck "assetId" = VNull)
   \/ (JS.get_prop deck "type" = VStr "generative"
       /\ JS.get_prop deck "assetId" = VNull)
   \/ (exists s, JS.get_prop deck "type" = VStr s /\ In s ["shader"; "video"]
                 /\ JS.truthy (JS.get_prop deck "assetId") = true)) /\
  (exists x, JS.get_prop deck "opacity" = VNum x /\ unit_or_NaN x) /\
  (exists b, JS.get_prop deck "enabled" = VBool b).

(** What every media state of the server looks like: a progress from 0 to
    100 (or NaN), and a source that is [null] or a text that is not
    blank. *)
Definition media_ok (m : DeckMediaState) : Prop :=
  (Num.isNaN (progress m) = true
   \/ Num.between Num.zero Num.hundred (progress m) = true) /\
  (src m = VNull
   \/ exists s, src m = VStr s /\ Str.trim s <> "").

Definition state_ok (s : State) : Prop :=
  NoDup (map fst (controlSettings s)) /\
  NoDup (map fst (viewerStatus s)) /\
  (forall f, unit_or_NaN (crossfader (mixState s) f)) /\
  (forall k, deck_ok (deck_get (decks (mixState s)) k)) /\
  (forall k, media_ok (deck_get (deckMediaStates s) k)).

(** The worlds that the server goes through: it starts with the initial
    state and no client, and then connections open and close, sockets
    change their ready state, and messages arrive from connected sockets
    and are handled. *)
Inductive reachable (StringToNumber : string -> number)
    (ObjectToNumber : value -> option number) : World -> Prop :=
| reach_start :
    reachable StringToNumber ObjectToNumber (mkWorld initial_state [])
| reach_connect w socket :
    reachable StringToNumber ObjectToNumber w ->
    ~ In socket (map ws (clients w)) ->
    reachable StringToNumber ObjectToNumber
      (mkWorld (state w) (clients w ++ [mkClient socket true (VStr "unknown")])%list)
| reach_close w socket :
    reachable StringToNumber ObjectToNumber w ->
    reachable StringToNumber ObjectToNumber (on_close w socket)
| reach_ready w socket ready :
    reachable StringToNumber ObjectToNumber w ->
    reachable StringToNumber ObjectToNumber
      (mkWorld (state w)
         (map (fun c => if Nat.eqb (ws c) socket
                        then mkClient (ws c) ready (role c) else c)
            (clients w)))
| reach_message w sender message w' out :
    reachable StringToNumber ObjectToNumber w ->
    In sender (map ws (clients w)) ->
    on_message StringToNumber ObjectToNumber w sender message = Some (w', out) ->
    reachable StringToNumber ObjectToNumber w'.

(** What one message may do to the state: nothing, or one of the seven
    assignments of the handlers. *)
Inductive state_step (StringToNumber : string -> number)
    (ObjectToNumber : value -> option number) (s : State) : State -> Prop :=
| step_none : state_step StringToNumber ObjectToNumber s s
| step_layers payload :
    state_step StringToNumber ObjectToNumber s
      (set_fallbackLayers s (JS.or_else payload (VArr [])))
| step_settings payload :
    state_step StringToNumber ObjectToNumber s
      (set_controlSettings s
         (JS.spread2 (VObj (controlSettings s)) (JS.or_else payload (VObj []))))
| step_status payload :
    state_step StringToNumber ObjectToNumber s
      (set_viewerStatus s
         (JS.spread2 (VObj (viewerStatus s)) (JS.or_else payload (VObj []))))
| step_deck k data current :
    apply_deck_invariants StringToNumber ObjectToNumber
      (JS.spread2 (VObj (deck_get (decks (mixState s)) k))
         (JS.or_else data (VObj []))) = Some current ->
    state_step StringToNumber ObjectToNumber s
      (set_mixState s
         (set_decks (mixState s) (deck_set (decks (mixState s)) k current)))
| step_crossfader f x :
    state_step StringToNumber ObjectToNumber s
      (set_mixState s (set_crossfader (mixState s) f (clamp01 x)))
| step_media k deckState p :
    JS.truthy deckState = true ->
    state_step StringToNumber ObjectToNumber s
      (set_deckMediaStates s
         (deck_set (deckMediaStates s) k
            (mkDeckMediaState
               (JS.truthy (JS.get deckState "isPlaying"))
               (Num.max Num.zero (Num.min Num.hundred p))
               (JS.truthy (JS.get deckState "isLoading"))
               (JS.truthy (JS.get deckState "error"))
               (match JS.get deckState "src" with
                | VStr src =>
                    if negb (Str.trim src =? "")%string then VStr src
                    else VNull
                | _ => VNull
                end)))).

(** What a run of the listener leaves behind, the clients apart: the
    state and the frames sent. *)
Definition outcome (r : option (World * list sent))
  : option (State * list sent) :=
  option_map (fun r => (state (fst r), snd r)) r.

(** ** Paths below the asset root *)

(** [p] lies in the asset root, segment by segment: the root is an absolute
    path of names, and [p] is that path followed by more names (or by
    none); a name being a segment that is not empty, [.] or [..] and holds
    no slash. *)
Definition below_root (cwd __dirname p : string) : Prop :=
  exists root names,
    root <> [] /\ Forall Path.clean root /\ Forall Path.clean names /\
    mp4Dir cwd __dirname = "/" ++ Path.join root /\
    p = "/" ++ Path.join (root ++ names)%list.

(** ** Errors of the read stream (lines 250-259 and 324-333) *)

(** What becomes of the read stream that is piped into the response: it
    ends, or it emits [error] before the headers of the response went out
    (the file cannot be opened), or after. *)
Inductive stream_fate : Type :=
| StreamEnds
| ErrorBeforeHeaders
| ErrorAfterHeaders.

(** How a request ends: with the response as the handler set it up; with
    the [res.sendStatus(500)] of the listener of [error]; or with
    [res.destroy(err)] after the head of the response went out. *)
Inductive ending : Type :=
| Answered (res : response)
| InternalServerError
| Destroyed (res : response).

Section StreamErrors.

Variable cwd : string.
Variable __dirname : string.
Variable stat : string -> option Stats.

(** The read stream of a file and a range, as the disk decides. *)
Variable fate : string -> option (Z * Z) -> stream_fate.

(** The handler with the listeners of [error] of its two read streams. *)
Definition stream_mp4_ending (req : request) : ending * list fs_call :=
  let '(res, calls) := stream_mp4 cwd __dirname stat req in
  (match payload res with
   | FileBytes path range =>
       match fate path range with
       | StreamEnds => Answered res
       | ErrorBeforeHeaders => InternalServerError
       | ErrorAfterHeaders => Destroyed res
       end
   | _ => Answered res
   end,
   calls).

End StreamErrors.

(** ** Digits of a Range header *)

(** A run of decimal digits: what one digit group of the Range pattern
    matches. *)
Definition digits (ds : string) : Prop :=
  Forall (fun c => Str.is_digit c = true) (list_ascii_of_string ds).

(** ** The dispatch on the message type *)

Ltac split_head :=
  repeat lazymatch goal with
  | |- match ?x with _ => _ end = _ => destruct x
  end.

(** ** More concrete inputs *)

(** A disk for the catalogue: a category with two clips and a text, a
    file beside the categories, and two shaders, one of which cannot be
    read. *)
Module Fixture.

Definition disk : Disk :=
  mkDisk
    (fun p => (p =? "/srv/muloom/mp4")%string
              || (p =? "/srv/muloom/glsl")%string)
    (fun p =>
       if (p =? "/srv/muloom/mp4")%string then Some ["loops"; "readme.txt"]
       else if (p =? "/srv/muloom/mp4/loops")%string
       then Some ["Intro.MP4"; "take..2.mp4"; "notes.txt"]
       else if (p =? "/srv/muloom/glsl")%string
       then Some ["plasma.glsl"; "broken.glsl"]
       else None)
    (fun p =>
       if (p =? "/srv/muloom/mp4/loops")%string then Some true
       else if (p =? "/srv/muloom/mp4/readme.txt")%string then Some false
       else None)
    (fun p =>
       if (p =? "/srv/muloom/glsl/plasma.glsl")%string
       then Some "void main() {}"
       else None).

Definition intro : VideoAsset :=
  mkVideoAsset "loops/Intro.MP4" "Intro" "loops" "/stream/mp4/loops/Intro.MP4".

Definition take2 : VideoAsset :=
  mkVideoAsset "loops/take..2.mp4" "take..2" "loops"
    "/stream/mp4/loops/take..2.mp4".

Definition assets : FallbackAssets :=
  mkFallbackAssets [mkGlslAsset "plasma.glsl" "plasma" "void main() {}"]
    [intro; take2].

End Fixture.

(** Messages for the handlers, as [JSON.parse] returns them. *)
Module Messages.

Definition register : value :=
  VObj [("type", VStr "register"); ("role", VStr "viewer")].

Definition ping : value := Example.message "ping" VNull.

Definition new_prompt : value :=
  Example.message "update-control-settings" (VObj [("prompt", VStr "waves")]).

Definition running : value :=
  Example.message "viewer-status" (VObj [("isRunning", VBool true)]).

Definition settings_alone : value :=
  VObj [("type", VStr "update-control-settings")].

Definition offer : value :=
  VObj [("type", VStr "rtc-signal"); ("rtc", VStr " Offer ");
        ("payload", VStr "sdp")].

Definition playing : value :=
  Example.message "deck-media-state"
    (VObj [("deck", VStr "b");
           ("state",
            VObj [("isPlaying", VBool true); ("progress", VNum Num.one);
                  ("src", VStr "loops/Intro.MP4")])]).

Definition label_deck : value :=
  Example.message "update-mix-deck"
    (VObj [("deck", VStr "a");
           ("data", VObj [("label", VStr "intro"); ("opacity", VNull)])]).

(** The clients of the example world under other roles. *)
Definition other_roles : list Client :=
  [mkClient 1 true (VStr "viewer"); mkClient 2 true (VStr "unknown");
   mkClient 3 false VNull].

End Messages.

(** * Properties *)

(** ** Strings *)

Lemma startsWith_prefix (p s : string) :
  Str.startsWith p s = true -> exists rest, s = p ++ rest.
Proof.
  revert s; induction p as [|a p IH]; intros s H.
  - exists s; reflexivity.
  - destruct s as [|b s]; [discriminate|].
    simpl in H. apply andb_true_iff in H as [Hab Hps].
    apply Ascii.eqb_eq in Hab; subst b.
    destruct (IH _ Hps) as [rest ->].
    exists rest; reflexivity.
Qed.

Lemma startsWith_app (p rest : string) : Str.startsWith p (p ++ rest) = true.
Proof.
  induction p as [|a p IH]; simpl; [reflexivity|].
  rewrite Ascii.eqb_refl; exact IH.
Qed.

Lemma append_assoc (a b c : string) : (a ++ b) ++ c = a ++ (b ++ c).
Proof.
  induction a as [|x a IH]; simpl; [reflexivity|now rewrite IH].
Qed.

Lemma append_empty_r (a : string) : a ++ "" = a.
Proof.
  induction a as [|x a IH]; simpl; [reflexivity|now rewrite IH].
Qed.

(** ** The Range header *)

Lemma span_digits_stop (ds rest : string) :
  Forall (fun c => Str.is_digit c = true) (list_ascii_of_string ds) ->
  match rest with
  | String c _ => Str.is_digit c = false
  | "" => True
  end ->
  Str.span_digits (ds ++ rest) = (ds, rest).
Proof.
  intros Hds Hrest.
  induction ds as [|c ds IH]; simpl in *.
  - destruct rest as [|c r]; [reflexivity|].
    simpl. now rewrite Hrest.
  - inversion Hds as [|? ? Hc Hds']; subst.
    rewrite Hc, (IH Hds'). reflexivity.
Qed.

Lemma range_regex_open_ended (ds : string) :
  Forall (fun c => Str.is_digit c = true) (list_ascii_of_string ds) ->
  range_regex ("bytes=" ++ ds ++ "-") = Some (ds, "").
Proof.
  intros Hds. unfold range_regex.
  change (Str.strip_prefix "bytes=" ("bytes=" ++ ds ++ "-"))
    with (Some (ds ++ "-")).
  cbv beta iota.
  rewrite (span_digits_stop ds "-" Hds) by reflexivity.
  reflexivity.
Qed.

(** A header [bytes=N-] with no end position is refused exactly when the
    start is not below the size: the end defaults to [size - 1], which is
    then below the start. *)
Lemma open_ended_range (ds : string) (n size : Z) :
  Forall (fun c => Str.is_digit c = true) (list_ascii_of_string ds) ->
  ds <> "" ->
  Double.Number ds = DFin n ->
  0 <= n ->
  resolve_range ("bytes=" ++ ds ++ "-") size =
    if size <=? n then Rejected "Invalid Range" else ByteRange n (size - 1).
Proof.
  intros Hds Hne Hnum Hn.
  unfold resolve_range.
  rewrite (range_regex_open_ended ds Hds).
  destruct (String.eqb_spec ds "") as [->|_]; [now elim Hne|].
  cbn [andb String.eqb]. rewrite Hnum.
  destruct (Z.ltb_spec n 0) as [?|_]; [lia|].
  destruct (Z.ltb_spec (size - 1) n) as [Hlt|Hge].
  - destruct (Z.leb_spec size n); [reflexivity|lia].
  - rewrite Z.min_id.
    destruct (Z.leb_spec size n); [lia|reflexivity].
Qed.

(** Whatever the header, no range is found in a resource of size 0. *)
Lemma resolve_range_empty_resource (h : string) :
  exists text, resolve_range h 0 = Rejected text.
Proof.
  unfold resolve_range.
  destruct (range_regex h) as [[startString endString]|]; [|eauto].
  match goal with
  | |- context [match ?b with Some _ => _ | None => _ end] =>
      destruct b as [[start end_]|] eqn:Hb
  end; [|eauto].
  assert (Hstart : 0 <= start).
  { destruct ((startString =? "")%string && negb (endString =? "")%string).
    - destruct (Double.Number endString) as [suffixLength|]; [|discriminate].
      destruct (suffixLength <=? 0); [discriminate|].
      injection Hb as <- <-. apply Z.le_max_l.
    - destruct (Double.Number startString) as [st|]; [|discriminate].
      destruct (Z.ltb_spec st 0); [discriminate|].
      destruct (if (endString =? "")%string then DFin (0 - 1)
                else Double.Number endString) as [e|]; [|discriminate].
      destruct (e <? st); [discriminate|].
      injection Hb as <- <-. assumption. }
  destruct (Z.leb_spec 0 start); [eauto|lia].
Qed.

(** C4. The five headers of the specification on a resource of 1000 bytes:
    [bytes=0-99] is the range 0-99, [bytes=-50] the last fifty bytes 950-999,
    [bytes=900-2000] is cut at the last byte, 900-999, [bytes=1000-] is
    refused because the start 1000 is not below the size (the end defaults
    to 999, which lies below the start: [open_ended_range]), and
    [notbytes=x] is refused as malformed. *)
Theorem range_resolver_examples :
  resolve_range "bytes=0-99" 1000 = ByteRange 0 99 /\
  resolve_range "bytes=-50" 1000 = ByteRange 950 999 /\
  resolve_range "bytes=900-2000" 1000 = ByteRange 900 999 /\
  resolve_range "bytes=1000-" 1000 = Rejected "Invalid Range" /\
  resolve_range "notbytes=x" 1000 = Rejected "Malformed Range header".
Proof.
  repeat split; vm_compute; reflexivity.
Qed.

(** C6, as the code has it.  The header [bytes=-] matches the regular
    expression with both groups empty, [Number('')] is 0, and a resource
    that is not empty is served whole: no rejection. *)
Theorem both_positions_empty_is_served (size : Z) :
  range_regex "bytes=-" = Some ("", "") /\
  resolve_range "bytes=-" 1000 = ByteRange 0 999 /\
  resolve_range "bytes=-" size =
    if size <=? 0 then Rejected "Invalid Range" else ByteRange 0 (size - 1).
Proof.
  split; [reflexivity|]. split; [reflexivity|].
  unfold resolve_range.
  change (range_regex "bytes=-") with (Some ("", "")).
  cbn [String.eqb andb negb].
  change (Double.Number "") with (DFin 0).
  cbv beta iota.
  change (0 <? 0) with false. cbv iota.
  destruct (Z.ltb_spec (size - 1) 0) as [Hlt|Hge].
  - destruct (Z.leb_spec size 0); [reflexivity|lia].
  - rewrite Z.min_id.
    destruct (Z.leb_spec size 0); [lia|reflexivity].
Qed.

(** ** The streaming endpoint *)

Section StreamingFacts.

Variable cwd : string.
Variable dirname : string.
Variable stat : string -> option Stats.

Lemma isInsideMp4Dir_inside (p : string) :
  isInsideMp4Dir cwd dirname p = true -> inside_root cwd dirname p.
Proof.
  unfold isInsideMp4Dir, inside_root. intros H.
  apply orb_true_iff in H as [H|H].
  - left. now apply String.eqb_eq.
  - right. destruct (startsWith_prefix _ _ H) as [rest ->].
    exists rest. now rewrite append_assoc.
Qed.

(** What [locate] answers: a 404 or a 400, or a path inside the root. *)
Lemma locate_cases (req : request) :
  match locate cwd dirname req with
  | inl res =>
      res = mkResponse 404 [] StatusText
      \/ res = mkResponse 400 [] (Text "Invalid video path")
  | inr p => isInsideMp4Dir cwd dirname p = true
  end.
Proof.
  unfold locate.
  destruct (Str.trim (param req) =? "")%string; [now left|].
  destruct (Str.includes ".." _); [now right|].
  destruct (isInsideMp4Dir cwd dirname _) eqn:Hin; [exact Hin|now right].
Qed.

(** What [serve_file] answers: never a 400, and it reads nothing but the
    file it was given. *)
Lemma serve_file_cases (p : string) (stats : Stats) (h : option string) :
  (status (fst (serve_file p stats h)) =? 400) = false /\
  Forall (fun c => fs_path c = p) (snd (serve_file p stats h)).
Proof.
  unfold serve_file.
  destruct h as [h|]; [|split; [reflexivity|repeat constructor]].
  destruct (h =? "")%string; [split; [reflexivity|repeat constructor]|].
  destruct (resolve_range h (size stats));
    split; try reflexivity; repeat constructor.
Qed.

(** C9, amended.  The file found is a regular file of size 0.  A request
    whose Range header is not the empty string is answered 416 with
    [Content-Range: bytes */0] and nothing is read; a request without the
    header is answered 200 with [Content-Length: 0] and the file is
    streamed. *)
Theorem empty_file_range_requests (req : request) (absolutePath : string) :
  locate cwd dirname req = inr absolutePath ->
  stat absolutePath = Some (mkStats true 0) ->
  (forall h, range req = Some h -> h <> "" ->
     exists text,
       stream_mp4 cwd dirname stat req =
         (mkResponse 416 [("Content-Range", "bytes */0")] (Text text),
          [Stat absolutePath]))
  /\
  (range req = None ->
     stream_mp4 cwd dirname stat req =
       (mkResponse 200
          [("Content-Length", "0"); ("Content-Type", "video/mp4");
           ("Accept-Ranges", "bytes")]
          (FileBytes absolutePath None),
        [Stat absolutePath; CreateReadStream absolutePath None])).
Proof.
  intros Hloc Hstat. unfold stream_mp4. rewrite Hloc, Hstat. cbn [isFile negb].
  split.
  - intros h -> Hne. unfold serve_file.
    destruct (String.eqb_spec h "") as [->|_]; [now elim Hne|].
    cbn [size].
    destruct (resolve_range_empty_resource h) as [text ->].
    exists text. reflexivity.
  - intros ->. reflexivity.
Qed.

End StreamingFacts.

Lemma empty_file_range_requests_witness :
  (exists text,
     stream_mp4 Example.cwd Example.dirname Example.disk
       (mkRequest "loops/empty.mp4" (Some "bytes=0-10")) =
       (mkResponse 416 [("Content-Range", "bytes */0")] (Text text),
        [Stat "/srv/muloom/mp4/loops/empty.mp4"]))
  /\
  stream_mp4 Example.cwd Example.dirname Example.disk
    (mkRequest "loops/empty.mp4" None) =
    (mkResponse 200
       [("Content-Length", "0"); ("Content-Type", "video/mp4");
        ("Accept-Ranges", "bytes")]
       (FileBytes "/srv/muloom/mp4/loops/empty.mp4" None),
     [Stat "/srv/muloom/mp4/loops/empty.mp4";
      CreateReadStream "/srv/muloom/mp4/loops/empty.mp4" None]).
Proof.
  split.
  - destruct (empty_file_range_requests Example.cwd Example.dirname Example.disk
                (mkRequest "loops/empty.mp4" (Some "bytes=0-10"))
                "/srv/muloom/mp4/loops/empty.mp4" eq_refl eq_refl) as [H _].
    apply (H "bytes=0-10" eq_refl). discriminate.
  - destruct (empty_file_range_requests Example.cwd Example.dirname Example.disk
                (mkRequest "loops/empty.mp4" None)
                "/srv/muloom/mp4/loops/empty.mp4" eq_refl eq_refl) as [_ H].
    apply H. reflexivity.
Defined.

(** C9, as stated, fails on a Range header whose value is the empty string:
    the test [!rangeHeader] takes it for a missing header, and the empty
    file is streamed with status 200. *)
Lemma empty_file_empty_range_header :
  locate Example.cwd Example.dirname
    (mkRequest "loops/empty.mp4" (Some ""))
    = inr "/srv/muloom/mp4/loops/empty.mp4" /\
  Example.disk "/srv/muloom/mp4/loops/empty.mp4" = Some (mkStats true 0) /\
  range (mkRequest "loops/empty.mp4" (Some "")) = Some "" /\
  status (fst (stream_mp4 Example.cwd Example.dirname Example.disk
                 (mkRequest "loops/empty.mp4" (Some "")))) = 200.
Proof.
  repeat split.
Qed.

(** ** Paths *)

Module PathFacts.
Import Path.

Lemma split_nonempty (s : string) : split s <> [].
Proof.
  destruct s as [|c r]; simpl; [discriminate|].
  destruct (is_slash c); [discriminate|].
  destruct (split r); discriminate.
Qed.

Lemma split_app_slash (a b : string) :
  split (a ++ String "/" b) = (split a ++ split b)%list.
Proof.
  induction a as [|c a IH]; [reflexivity|].
  simpl. destruct (is_slash c); [now rewrite IH|].
  rewrite IH. pose proof (split_nonempty a) as Hne.
  destruct (split a); [now elim Hne|reflexivity].
Qed.

Lemma split_no_slash (s : string) : no_slash s -> split s = [s].
Proof.
  unfold no_slash. induction s as [|c r IH]; intros H; [reflexivity|].
  simpl in *. inversion H as [|? ? Hc Hr]; subst.
  rewrite Hc, (IH Hr). reflexivity.
Qed.

Lemma split_segments_no_slash (s : string) : Forall no_slash (split s).
Proof.
  induction s as [|c r IH]; simpl.
  - repeat constructor.
  - destruct (is_slash c) eqn:Hc.
    + constructor; [constructor|exact IH].
    + destruct (split r) as [|h t]; [repeat constructor; exact Hc|].
      inversion IH as [|? ? Hh Ht]; subst.
      constructor; [|exact Ht].
      constructor; [exact Hc|exact Hh].
Qed.

Lemma split_join (segs : list string) :
  segs <> [] -> Forall no_slash segs -> split (join segs) = segs.
Proof.
  induction segs as [|x rest IH]; intros Hne Hall; [now elim Hne|].
  inversion Hall as [|? ? Hx Hrest]; subst.
  destruct rest as [|y rest].
  - simpl. now apply split_no_slash.
  - change (join (x :: y :: rest)) with (x ++ String "/" (join (y :: rest))).
    rewrite split_app_slash, (split_no_slash x Hx), IH;
      [reflexivity|discriminate|exact Hrest].
Qed.

Lemma join_app (a b : list string) :
  a <> [] -> b <> [] -> join (a ++ b)%list = join a ++ "/" ++ join b.
Proof.
  induction a as [|x a IH]; intros Ha Hb; [now elim Ha|].
  destruct a as [|y a].
  - destruct b as [|z b]; [now elim Hb|reflexivity].
  - change (join ((x :: y :: a) ++ b)%list)
      with (x ++ "/" ++ join ((y :: a) ++ b)%list).
    rewrite IH by (assumption || discriminate).
    change (join (x :: y :: a)) with (x ++ "/" ++ join (y :: a)).
    rewrite !append_assoc. reflexivity.
Qed.

(** The first segment of a path is a prefix of the path. *)
Lemma split_head_prefix (s : string) :
  exists h t, split s = h :: t /\ Str.startsWith h s = true.
Proof.
  induction s as [|c r (h & t & Hsplit & Hpre)]; simpl.
  - exists "", []. split; reflexivity.
  - destruct (is_slash c).
    + exists "", (split r). split; reflexivity.
    + rewrite Hsplit. exists (String c h), t. split; [reflexivity|].
      simpl. now rewrite Ascii.eqb_refl.
Qed.

(** A path without the substring [..] has no segment [..]. *)
Lemma includes_dotdot_split (s : string) :
  Str.includes ".." s = false -> ~ In ".." (split s).
Proof.
  induction s as [|c r IH]; intros Hinc Hin.
  - simpl in Hin. destruct Hin as [Heq|[]]. discriminate.
  - cbn [Str.includes] in Hinc. apply orb_false_iff in Hinc as [Hpre Hinc].
    specialize (IH Hinc). simpl in Hin.
    destruct (is_slash c).
    + destruct Hin as [Heq|Hin]; [discriminate|now apply IH].
    + destruct (split_head_prefix r) as (h & t & Hsplit & Hh).
      rewrite Hsplit in Hin, IH.
      destruct Hin as [Heq|Hin]; [|apply IH; now right].
      injection Heq as -> ->.
      destruct r as [|c' r']; [discriminate|].
      cbn [Str.startsWith] in Hh. apply andb_true_iff in Hh as [Hc' _].
      apply Ascii.eqb_eq in Hc'; subst c'.
      discriminate Hpre.
Qed.

Lemma step_plain (res : list string) (seg : string) :
  seg <> ".." ->
  step false res seg = if keep seg then seg :: res else res.
Proof.
  intros Hne. unfold step, keep.
  destruct ((seg =? "")%string || (seg =? ".")%string); [reflexivity|].
  destruct (String.eqb_spec seg ".."); [contradiction|reflexivity].
Qed.

(** Without [..] segments, [normalizeString] only drops the empty and the
    [.] segments. *)
Lemma fold_step_no_dotdot (segs res : list string) :
  ~ In ".." segs ->
  fold_left (step false) segs res = (rev (filter keep segs) ++ res)%list.
Proof.
  revert res; induction segs as [|seg segs IH]; intros res Hno; [reflexivity|].
  simpl. rewrite step_plain by (intros ->; apply Hno; now left).
  rewrite IH by (intros Hin; apply Hno; now right).
  destruct (keep seg); [|reflexivity].
  simpl. now rewrite <- app_assoc.
Qed.

Lemma step_clean (res : list string) (seg : string) :
  Forall clean res -> no_slash seg -> Forall clean (step false res seg).
Proof.
  intros Hres Hseg. unfold step.
  destruct ((seg =? "")%string || (seg =? ".")%string) eqn:Hkeep; [exact Hres|].
  destruct (String.eqb_spec seg "..") as [->|Hne].
  - destruct res as [|last res']; [constructor|].
    inversion Hres; subst.
    destruct (last =? "..")%string; assumption.
  - constructor; [|exact Hres].
    unfold clean, keep. rewrite Hkeep. auto.
Qed.

Lemma fold_step_clean (segs res : list string) :
  Forall clean res -> Forall no_slash segs ->
  Forall clean (fold_left (step false) segs res).
Proof.
  revert res; induction segs as [|seg segs IH]; intros res Hres Hsegs;
    [exact Hres|].
  inversion Hsegs; subst. simpl. apply IH; [|assumption].
  now apply step_clean.
Qed.

Lemma clean_no_dotdot (base : list string) :
  Forall clean base -> ~ In ".." base.
Proof.
  intros Hall Hin. rewrite Forall_forall in Hall.
  destruct (Hall _ Hin) as (_ & Hne & _). now apply Hne.
Qed.

Lemma clean_filter_keep (base : list string) :
  Forall clean base -> filter keep base = base.
Proof.
  induction 1 as [|x base (Hk & _) _ IH]; [reflexivity|].
  simpl. now rewrite Hk, IH.
Qed.

Lemma clean_no_slash (base : list string) :
  Forall clean base -> Forall no_slash base.
Proof.
  intros H. eapply Forall_impl; [|exact H]. now intros x (_ & _ & Hx).
Qed.

Lemma strip_leading_not_absolute (s : string) :
  isAbsolute (strip_leading_separators s) = false.
Proof.
  induction s as [|c r IH]; [reflexivity|].
  cbn [strip_leading_separators].
  destruct (Ascii.eqb c "/") eqn:Hc; [exact IH|].
  destruct (Ascii.eqb c "\"); [exact IH|].
  unfold isAbsolute. cbn [orb Str.startsWith].
  rewrite Ascii.eqb_sym, Hc. reflexivity.
Qed.

Lemma absolute_nonempty (p : string) :
  isAbsolute p = true -> (p =? "")%string = false.
Proof.
  destruct p; [discriminate|reflexivity].
Qed.

End PathFacts.

Section AssetRoot.
Import Path PathFacts.

Variable cwd : string.
Variable dirname : string.
Variable stat : string -> option Stats.

(** An absolute path made of clean segments, followed by a relative tail
    without [..] segments, normalizes to the segments of the path followed
    by the segments kept from the tail. *)
Lemma normalize_under (base : list string) (tailp : string) :
  base <> [] -> Forall clean base -> ~ In ".." (split tailp) ->
  normalizeString (("/" ++ join base) ++ "/" ++ tailp) false
    = join (base ++ filter keep (split tailp))%list.
Proof.
  intros Hne Hbase Htail. unfold normalizeString.
  change (("/" ++ join base) ++ "/" ++ tailp)
    with (String "/" (join base ++ String "/" tailp)).
  change (split (String "/" (join base ++ String "/" tailp)))
    with ("" :: split (join base ++ String "/" tailp)).
  rewrite split_app_slash, (split_join base Hne (clean_no_slash _ Hbase)).
  rewrite fold_step_no_dotdot.
  - rewrite app_nil_r, rev_involutive.
    change (filter keep ("" :: base ++ split tailp)%list)
      with (filter keep (base ++ split tailp)%list).
    rewrite filter_app, (clean_filter_keep base Hbase). reflexivity.
  - intros [Heq|Hin]; [discriminate|].
    apply in_app_or in Hin as [Hin|Hin]; [|now apply Htail].
    now apply (clean_no_dotdot base Hbase).
Qed.

(** [path.resolve(root, rest)] for an absolute [root] of clean segments and
    a [rest] that is relative and free of [..]. *)
Lemma resolve_under (base : list string) (rest : string) :
  base <> [] -> Forall clean base ->
  isAbsolute rest = false -> ~ In ".." (split rest) ->
  resolve cwd ["/" ++ join base; rest]
    = "/" ++ join (base ++ filter keep (split rest))%list.
Proof.
  intros Hne Hbase Hrel Hrest. unfold resolve.
  cbn [rev app resolve_loop].
  destruct (String.eqb_spec rest "") as [->|Hnonempty].
  - cbn [resolve_loop String.eqb isAbsolute Str.startsWith append].
    rewrite Ascii.eqb_refl. cbn [andb negb].
    f_equal.
    apply (normalize_under base "" Hne Hbase).
    intros [Heq|[]]; discriminate.
  - rewrite Hrel.
    cbn [resolve_loop String.eqb isAbsolute Str.startsWith append].
    rewrite Ascii.eqb_refl. cbn [andb negb].
    f_equal.
    change (String "/" (join base ++ String "/" (rest ++ String "/" "")))
      with (("/" ++ join base) ++ "/" ++ (rest ++ String "/" "")).
    rewrite (normalize_under base (rest ++ String "/" "") Hne Hbase).
    + rewrite split_app_slash, filter_app. cbn [split filter keep].
      cbn. now rewrite app_nil_r.
    + rewrite split_app_slash. intros Hin.
      apply in_app_or in Hin as [Hin|[Heq|[]]]; [now apply Hrest|discriminate].
Qed.

(** The asset root is an absolute path of clean segments, the last of which
    is [mp4]. *)
Lemma mp4Dir_shape :
  isAbsolute dirname = true ->
  exists base,
    base <> [] /\ Forall clean base /\ mp4Dir cwd dirname = "/" ++ join base.
Proof.
  intros Habs. unfold mp4Dir, resolve.
  cbn [rev app resolve_loop].
  change ("../mp4" =? "")%string with false.
  change (isAbsolute "../mp4") with false. cbv iota.
  rewrite (absolute_nonempty _ Habs), Habs. cbn [negb].
  unfold normalizeString.
  change (dirname ++ "/" ++ "../mp4" ++ "/" ++ "")
    with (dirname ++ String "/" "../mp4/").
  rewrite split_app_slash, fold_left_app.
  set (acc := fold_left (step false) (split dirname) []).
  assert (Hacc : Forall clean acc).
  { apply fold_step_clean; [constructor|apply split_segments_no_slash]. }
  change (split "../mp4/") with [".."; "mp4"; ""].
  cbn [fold_left].
  set (acc' := step false acc "..").
  assert (Hacc' : Forall clean acc').
  { apply step_clean; [exact Hacc|]. repeat constructor. }
  change (step false (step false acc' "mp4") "") with ("mp4" :: acc').
  exists (rev ("mp4" :: acc')). repeat split.
  - simpl. intros H. now apply app_eq_nil in H as [_ H].
  - apply Forall_rev. constructor; [|exact Hacc'].
    repeat split; [discriminate|repeat constructor].
Qed.

End AssetRoot.

Lemma strip_leading_no_separator (s : string) :
  Str.startsWith "/" (strip_leading_separators s)
  || Str.startsWith "\" (strip_leading_separators s) = false.
Proof.
  induction s as [|c r IH]; [reflexivity|].
  cbn [strip_leading_separators].
  destruct (Ascii.eqb c "/") eqn:Hs; [exact IH|].
  destruct (Ascii.eqb c "\") eqn:Hb; [exact IH|].
  cbn [orb Str.startsWith].
  rewrite (Ascii.eqb_sym "/" c), (Ascii.eqb_sym "\" c), Hs, Hb. reflexivity.
Qed.

(** C10. The requested path, trimmed, begins with a slash or a backslash,
    and its normalized form, the separators at its head removed, contains
    no [..].  Then what is left begins with no separator, it is resolved
    against the asset root, and the resulting path is the root followed by
    the segments of what is left: the request passes the test on the root
    (no 400), the path goes to [stat], and the answer is 404 when [stat]
    finds nothing there. *)
Theorem leading_separators_resolve_inside_root
    (cwd dirname : string) (stat : string -> option Stats) (req : request) :
  let requestedPath := Str.trim (param req) in
  let normalizedPath :=
    strip_leading_separators (Path.normalize requestedPath) in
  let absolutePath := Path.resolve cwd [mp4Dir cwd dirname; normalizedPath] in
  Path.isAbsolute dirname = true ->
  Str.startsWith "/" requestedPath || Str.startsWith "\" requestedPath = true ->
  Str.includes ".." normalizedPath = false ->
  Str.startsWith "/" normalizedPath || Str.startsWith "\" normalizedPath = false
  /\ absolutePath =
       match filter Path.keep (Path.split normalizedPath) with
       | [] => mp4Dir cwd dirname
       | kept => mp4Dir cwd dirname ++ "/" ++ Path.join kept
       end
  /\ locate cwd dirname req = inr absolutePath
  /\ inside_root cwd dirname absolutePath
  /\ (stat absolutePath = None ->
      stream_mp4 cwd dirname stat req
        = (mkResponse 404 [] StatusText, [Stat absolutePath])).
Proof.
  intros requestedPath normalizedPath absolutePath Habs Hlead Hdots.
  destruct (mp4Dir_shape cwd dirname Habs) as (base & Hne & Hclean & Hroot).
  assert (Hrel : Path.isAbsolute normalizedPath = false).
  { apply PathFacts.strip_leading_not_absolute. }
  assert (Hpath : absolutePath =
            match filter Path.keep (Path.split normalizedPath) with
            | [] => mp4Dir cwd dirname
            | kept => mp4Dir cwd dirname ++ "/" ++ Path.join kept
            end).
  { unfold absolutePath. rewrite Hroot.
    rewrite (resolve_under cwd base normalizedPath Hne Hclean Hrel
               (PathFacts.includes_dotdot_split _ Hdots)).
    destruct (filter Path.keep (Path.split normalizedPath)) as [|k kept].
    - now rewrite app_nil_r.
    - rewrite PathFacts.join_app by (assumption || discriminate).
      now rewrite append_assoc. }
  assert (Hinside : isInsideMp4Dir cwd dirname absolutePath = true).
  { unfold isInsideMp4Dir. rewrite Hpath.
    destruct (filter Path.keep (Path.split normalizedPath)) as [|k kept].
    - now rewrite String.eqb_refl.
    - apply orb_true_iff; right.
      rewrite <- append_assoc. apply startsWith_app. }
  assert (Hloc : locate cwd dirname req = inr absolutePath).
  { unfold locate. fold requestedPath. fold normalizedPath.
    fold absolutePath.
    destruct (String.eqb_spec requestedPath "") as [Hempty|_].
    - rewrite Hempty in Hlead. discriminate.
    - now rewrite Hdots, Hinside. }
  split; [apply strip_leading_no_separator|].
  split; [exact Hpath|].
  split; [exact Hloc|].
  split; [now apply isInsideMp4Dir_inside|].
  intros Hstat. unfold stream_mp4. now rewrite Hloc, Hstat.
Qed.

Lemma leading_separators_resolve_inside_root_witness :
  Path.resolve Example.cwd
    [mp4Dir Example.cwd Example.dirname;
     strip_leading_separators (Path.normalize (Str.trim "/etc/passwd"))]
    = "/srv/muloom/mp4/etc/passwd"
  /\ stream_mp4 Example.cwd Example.dirname Example.disk
       (mkRequest "/etc/passwd" None)
     = (mkResponse 404 [] StatusText, [Stat "/srv/muloom/mp4/etc/passwd"]).
Proof.
  destruct (leading_separators_resolve_inside_root
              Example.cwd Example.dirname Example.disk
              (mkRequest "/etc/passwd" None) eq_refl eq_refl eq_refl)
    as (_ & Hpath & _ & _ & Hstat).
  split; [exact Hpath|].
  apply Hstat. reflexivity.
Defined.

(** ** Numbers *)

Module NumFacts.

Lemma compare_swap (a b : number) :
  SFcompare b a = option_map CompOpp (SFcompare a b).
Proof.
  destruct a as [sa|sa| |sa ma ea], b as [sb|sb| |sb mb eb];
    try reflexivity;
    try (destruct sa; reflexivity);
    try (destruct sb; reflexivity);
    try (destruct sa, sb; reflexivity).
  destruct sa, sb; try reflexivity; simpl;
    rewrite (Z.compare_antisym ea eb);
    destruct (ea ?= eb); simpl; try reflexivity;
    rewrite (Pos.compare_cont_antisym ma mb Eq); simpl;
    destruct (Pos.compare_cont Eq ma mb); reflexivity.
Qed.

Lemma compare_refl (x : number) :
  Num.isNaN x = false -> SFcompare x x = Some Eq.
Proof.
  destruct x as [s|s| |s m e]; intros H; try discriminate; simpl.
  - reflexivity.
  - destruct s; reflexivity.
  - destruct s; now rewrite Z.compare_refl, Pos.compare_cont_refl.
Qed.

Lemma compare_zero_eq (x : number) :
  SFcompare Num.zero x = Some Eq -> exists s, x = S754_zero s.
Proof.
  destruct x as [s|s| |s m e]; simpl; intros H; try discriminate.
  - now exists s.
  - destruct s; discriminate.
  - destruct s; discriminate.
Qed.

Lemma compare_total (a x : number) :
  Num.isNaN a = false -> Num.isNaN x = false -> SFcompare a x <> None.
Proof.
  destruct a, x; intros; (discriminate || (simpl; congruence)).
Qed.

(** The three outcomes of [Math.min(1, Math.max(0, x))]. *)
Lemma clamp01_cases (x : number) :
  Num.isNaN x = false ->
  (SFcompare Num.zero x = Some Lt /\ SFcompare Num.one x = Some Gt /\ clamp01 x = x)
  \/ (SFcompare Num.zero x = Some Lt /\ (SFcompare Num.one x = Some Lt \/ SFcompare Num.one x = Some Eq) /\ clamp01 x = Num.one)
  \/ ((SFcompare Num.zero x = Some Gt \/ SFcompare Num.zero x = Some Eq) /\ clamp01 x = Num.zero).
Proof.
  intros Hnan. unfold clamp01, Num.max.
  pose proof (compare_total Num.zero x eq_refl Hnan) as T0.
  pose proof (compare_total Num.one x eq_refl Hnan) as T1.
  destruct (SFcompare Num.zero x) as [[| |]|] eqn:H0; [| | |congruence].
  - right; right. split; [now right|].
    apply compare_zero_eq in H0 as [s ->]. now destruct s.
  - unfold Num.min.
    destruct (SFcompare Num.one x) as [[| |]|] eqn:H1; [| | |congruence].
    + right; left. repeat split; auto.
    + right; left. repeat split; auto.
    + left. repeat split; auto.
  - right; right. split; [now left|reflexivity].
Qed.

(** [Math.min(1, Math.max(0, x))] is [x] clamped to the unit interval,
    unless [x] is NaN. *)
Lemma clamp01_clamped (x : number) :
  Num.isNaN x = false -> clamped_to_unit x (clamp01 x).
Proof.
  intros Hnan.
  pose proof (compare_swap Num.zero x) as Hz.
  pose proof (compare_swap Num.one x) as Ho.
  unfold clamped_to_unit, Num.between, SFltb, SFleb, SFeqb.
  rewrite Hz, Ho.
  destruct (clamp01_cases x Hnan)
    as [(H0 & H1 & ->) | [(H0 & H1 & ->) | (H0 & ->)]].
  - rewrite H0, H1, Ho, H1, (compare_refl x Hnan). cbn.
    repeat split; intros; try (reflexivity || congruence).
  - rewrite H0. destruct H1 as [H1|H1]; rewrite H1; cbn;
      repeat split; intros; try (reflexivity || congruence).
  - assert (H1 : SFcompare Num.one x = Some Gt).
    { destruct x as [s|s| |s m e]; try discriminate;
        destruct H0 as [H0|H0]; simpl in H0 |- *; destruct s;
        (reflexivity || discriminate). }
    rewrite H1. destruct H0 as [H0|H0]; rewrite H0; cbn;
      repeat split; intros; try (reflexivity || congruence).
Qed.

Lemma clamp01_NaN : clamp01 Num.NaN = Num.NaN.
Proof. reflexivity. Qed.

End NumFacts.

(** ** Objects *)

Lemma get_set_same (o : obj) (k : string) (v : value) :
  JS.get_prop (JS.set_prop o k v) k = v.
Proof.
  induction o as [|[k' v'] o IH]; simpl.
  - now rewrite String.eqb_refl.
  - destruct (String.eqb_spec k' k) as [->|Hne]; simpl.
    + now rewrite String.eqb_refl.
    + destruct (String.eqb_spec k' k); [contradiction|exact IH].
Qed.

Lemma get_set_other (o : obj) (k k' : string) (v : value) :
  k <> k' -> JS.get_prop (JS.set_prop o k v) k' = JS.get_prop o k'.
Proof.
  intros Hne. induction o as [|[k0 v0] o IH]; simpl.
  - destruct (String.eqb_spec k k'); [contradiction|reflexivity].
  - destruct (String.eqb_spec k0 k) as [->|Hk]; simpl.
    + destruct (String.eqb_spec k k'); [contradiction|reflexivity].
    + destruct (String.eqb_spec k0 k'); [reflexivity|exact IH].
Qed.

(** ** Broadcast *)

Lemma broadcast_frames (clients : list Client) (f : frame) (ex : option nat) :
  Forall (fun s => snd s = f) (broadcast clients f ex).
Proof.
  unfold broadcast. apply Forall_forall. intros s Hin.
  apply in_map_iff in Hin as (c & <- & _). reflexivity.
Qed.

Lemma broadcast_everyone (clients : list Client) (f : frame) :
  recipients (broadcast clients f None) = all_open clients.
Proof.
  unfold recipients, broadcast, all_open. rewrite map_map. reflexivity.
Qed.

Lemma broadcast_others (clients : list Client) (f : frame) (sender : nat) :
  recipients (broadcast clients f (Some sender)) = others_open clients sender.
Proof.
  unfold recipients, broadcast, others_open. rewrite map_map. cbn [fst].
  f_equal. apply filter_ext. intros c.
  rewrite (Nat.eqb_sym sender (ws c)). apply andb_comm.
Qed.


Lemma others_open_includes (clients : list Client) (sender : nat) (c : Client) :
  In c clients -> isOpen c = true -> ws c <> sender ->
  In (ws c) (others_open clients sender).
Proof.
  intros Hin Hopen Hne. unfold others_open. apply in_map. apply filter_In.
  split; [exact Hin|]. rewrite Hopen. simpl.
  apply negb_true_iff. now apply Nat.eqb_neq.
Qed.


(** ** Message handlers *)

Section HandlerFacts.

Variable StringToNumber : string -> number.
Variable ObjectToNumber : value -> option number.

(** A message with a [type] is an object. *)
Lemma typed_message_is_object (message : value) (t : string) :
  JS.get message "type" = VStr t ->
  exists o, message = VObj o /\ JS.get_prop o "type" = VStr t.
Proof.
  destruct message; simpl; intros H; try discriminate. eauto.
Qed.

(** C7. A message of type [start-visualization], [stop-visualization],
    [regenerate-shader], [set-audio-sensitivity] or [code-progress] leaves
    the session state (and the set of clients) as it is, and the message
    itself is sent to every open connection but the sender, and to nobody
    else. *)
Theorem pass_through_relays_verbatim
    (w : World) (sender : nat) (message : value) (t : string) :
  JS.get message "type" = VStr t ->
  In t pass_through_types ->
  exists out,
    on_message StringToNumber ObjectToNumber w sender message
      = Some (w, out) /\
    recipients out = others_open (clients w) sender /\
    Forall (fun s => snd s = Relay message) out.
Proof.
  intros Htype Hin.
  exists (broadcast (clients w) (Relay message) (Some sender)).
  split; [|split; [apply broadcast_others|apply broadcast_frames]].
  destruct (typed_message_is_object _ _ Htype) as (o & -> & Ho).
  unfold on_message. cbn [JS.get]. rewrite Ho.
  unfold pass_through_types in Hin. simpl in Hin.
  destruct Hin as [<-|[<-|[<-|[<-|[<-|[]]]]]]; reflexivity.
Qed.

End HandlerFacts.

Lemma pass_through_relays_verbatim_witness :
  exists out,
    on_message Example.StringToNumber Example.ObjectToNumber Example.world 1
      (Example.message "regenerate-shader" VNull)
      = Some (Example.world, out) /\
    recipients out = [2%nat] /\
    Forall
      (fun s => snd s = Relay (Example.message "regenerate-shader" VNull)) out.
Proof.
  exact (pass_through_relays_verbatim
           Example.StringToNumber Example.ObjectToNumber Example.world 1
           (Example.message "regenerate-shader" VNull) "regenerate-shader"
           eq_refl (or_intror (or_intror (or_introl eq_refl)))).
Defined.

(** ** Decks *)

Section DeckFacts.

Variable StringToNumber : string -> number.
Variable ObjectToNumber : value -> option number.

Lemma deck_lookup_name (k : DeckKey) :
  deck_lookup (VStr (deck_name k)) = Some (Some k).
Proof. destruct k; reflexivity. Qed.

Lemma includes_deck_types (v : value) :
  JS.includes deck_types v = true ->
  exists s, v = VStr s /\ In s deck_types.
Proof.
  destruct v as [| | | |s| |]; unfold JS.includes; intros H; try discriminate.
  exists s. split; [reflexivity|].
  apply existsb_exists in H as (t & Hin & Heq).
  apply String.eqb_eq in Heq. now subst.
Qed.

Lemma is_string_true (v : value) (s : string) :
  JS.is_string v s = true -> v = VStr s.
Proof.
  destruct v; simpl; intros H; try discriminate.
  apply String.eqb_eq in H. now subst.
Qed.

Lemma is_string_false (s t : string) :
  JS.is_string (VStr s) t = false -> s <> t.
Proof.
  simpl. intros H. now apply String.eqb_neq.
Qed.

Lemma truthy_not_null (v : value) : JS.truthy v = true -> v <> VNull.
Proof. intros H ->. discriminate. Qed.

(** What the statements of the [update-mix-deck] case establish. *)
Lemma apply_deck_invariants_spec (current : obj) :
  match apply_deck_invariants StringToNumber ObjectToNumber current with
  | Some current' =>
      let type := JS.get_prop current' "type" in
      let assetId := JS.get_prop current' "assetId" in
      ((type = VNull /\ assetId = VNull)
       \/ (type = VStr "generative" /\ assetId = VNull)
       \/ (exists s, type = VStr s /\ In s deck_types /\ s <> "generative"
                     /\ JS.truthy assetId = true)) /\
      (exists x,
         ToNumber StringToNumber ObjectToNumber
           (JS.coalesce (JS.get_prop current "opacity") (VNum Num.one))
           = Some x /\
         JS.get_prop current' "opacity" = VNum (clamp01 x)) /\
      (exists b, JS.get_prop current' "enabled" = VBool b)
  | None =>
      ToNumber StringToNumber ObjectToNumber
        (JS.coalesce (JS.get_prop current "opacity") (VNum Num.one)) = None
  end.
Proof.
  unfold apply_deck_invariants.
  set (c1 := if negb (JS.includes deck_types (JS.get_prop current "type"))
             then JS.set_prop current "type" VNull else current).
  set (c2 := if JS.is_string (JS.get_prop c1 "type") "generative"
             then JS.set_prop c1 "assetId" VNull
             else if negb (JS.truthy (JS.get_prop c1 "assetId"))
                     || negb (JS.truthy (JS.get_prop c1 "type"))
             then JS.set_prop (JS.set_prop c1 "type" VNull) "assetId" VNull
             else c1).
  assert (Hop1 : JS.get_prop c1 "opacity" = JS.get_prop current "opacity").
  { unfold c1. destruct (negb _); [|reflexivity].
    apply get_set_other. discriminate. }
  assert (Hop2 : JS.get_prop c2 "opacity" = JS.get_prop current "opacity").
  { rewrite <- Hop1. unfold c2.
    destruct (JS.is_string _ _); [apply get_set_other; discriminate|].
    destruct (_ || _); [|reflexivity].
    rewrite !get_set_other by discriminate. reflexivity. }
  assert (Ht1 : JS.get_prop c1 "type" = VNull
                \/ exists s, JS.get_prop c1 "type" = VStr s /\ In s deck_types).
  { unfold c1.
    destruct (JS.includes deck_types (JS.get_prop current "type")) eqn:Hinc;
      cbn [negb].
    - right. now apply includes_deck_types.
    - left. apply get_set_same. }
  assert (Hc2 :
    (JS.get_prop c2 "type" = VNull /\ JS.get_prop c2 "assetId" = VNull)
    \/ (JS.get_prop c2 "type" = VStr "generative"
        /\ JS.get_prop c2 "assetId" = VNull)
    \/ (exists s, JS.get_prop c2 "type" = VStr s /\ In s deck_types
                  /\ s <> "generative"
                  /\ JS.truthy (JS.get_prop c2 "assetId") = true)).
  { unfold c2.
    destruct (JS.is_string (JS.get_prop c1 "type") "generative") eqn:Hgen.
    - right; left. rewrite get_set_other by discriminate.
      rewrite get_set_same. split; [now apply is_string_true|reflexivity].
    - destruct (JS.truthy (JS.get_prop c1 "assetId")) eqn:Hasset; cbn [negb orb].
      + destruct (JS.truthy (JS.get_prop c1 "type")) eqn:Htype; cbn [negb].
        * right; right. destruct Ht1 as [Hnull|(s & Hs & Hin)].
          { rewrite Hnull in Htype. discriminate. }
          exists s. rewrite Hs in Hgen.
          repeat split; auto. now apply is_string_false.
        * left. rewrite get_set_other by discriminate.
          now rewrite !get_set_same.
      + left. rewrite get_set_other by discriminate.
        now rewrite !get_set_same. }
  rewrite Hop2.
  destruct (ToNumber _ _ _) as [x|]; [|reflexivity].
  cbv zeta.
  rewrite !(get_set_other _ _ "type") by discriminate.
  rewrite !(get_set_other _ _ "assetId") by discriminate.
  split; [exact Hc2|]. split.
  - exists x. split; [reflexivity|].
    rewrite get_set_other by discriminate. apply get_set_same.
  - eexists. apply get_set_same.
Qed.


Lemma dispatch_update_mix_deck (w : World) (sender : nat) (message : value) :
  JS.get message "type" = VStr "update-mix-deck" ->
  on_message StringToNumber ObjectToNumber w sender message
    = update_mix_deck StringToNumber ObjectToNumber w message.
Proof.
  intros Htype.
  destruct (typed_message_is_object _ _ Htype) as (o & -> & Ho).
  unfold on_message. cbn [JS.get]. now rewrite Ho.
Qed.

(** C1, amended.  An [update-mix-deck] message names one of the decks [a],
    [b], [c], [d], and [Number] completes on the merged opacity, with the
    result [x].  Then the handler completes, and the deck it leaves has: a
    type among [shader], [video], [generative] and [null]; no asset when
    the type is [generative]; for any other type, both the type and the
    asset [null] as soon as one of them is; a number for opacity, in the
    unit interval when [x] is not NaN; a boolean [enabled]. *)
Theorem deck_update_invariants
    (w : World) (sender : nat) (message : value) (k : DeckKey) (x : number) :
  JS.get message "type" = VStr "update-mix-deck" ->
  JS.get (JS.get message "payload") "deck" = VStr (deck_name k) ->
  ToNumber StringToNumber ObjectToNumber
    (JS.coalesce (JS.get_prop (merged_deck w message k) "opacity")
       (VNum Num.one)) = Some x ->
  exists w' out,
    on_message StringToNumber ObjectToNumber w sender message
      = Some (w', out) /\
    let deck := deck_get (decks (mixState (state w'))) k in
    let type := JS.get_prop deck "type" in
    let assetId := JS.get_prop deck "assetId" in
    (type = VNull \/ exists s, type = VStr s /\ In s deck_types) /\
    (type = VStr "generative" -> assetId = VNull) /\
    (type <> VStr "generative" ->
     assetId = VNull \/ type = VNull -> assetId = VNull /\ type = VNull) /\
    (exists v,
       JS.get_prop deck "opacity" = VNum v /\
       (Num.isNaN x = false -> Num.between Num.zero Num.one v = true)) /\
    (exists b, JS.get_prop deck "enabled" = VBool b).
Proof.
  intros Htype Hdeck Hnum.
  rewrite (dispatch_update_mix_deck _ _ _ Htype).
  unfold update_mix_deck. rewrite Hdeck, deck_lookup_name.
  pose proof (apply_deck_invariants_spec (merged_deck w message k)) as Hspec.
  destruct (apply_deck_invariants _ _ (merged_deck w message k))
    as [current|]; [|congruence].
  destruct Hspec as (Hshape & (x' & Hx' & Hopacity) & Henabled).
  assert (x' = x) by congruence; subst x'.
  eexists _, _. split; [reflexivity|].
  cbn [state mixState set_mixState decks set_decks].
  replace (deck_get (deck_set (decks (mixState (state w))) k current) k)
    with current by (destruct k; reflexivity).
  cbv zeta.
  refine (conj _ (conj _ (conj _ (conj _ Henabled)))).
  - destruct Hshape as [[-> _]|[[-> _]|(s & -> & Hin & _)]];
      [now left|right|right]; eauto.
    exists "generative". split; [reflexivity|]. simpl; auto.
  - destruct Hshape as [[_ ->]|[[_ ->]|(s & -> & _ & Hne & _)]];
      [reflexivity|reflexivity|].
    intros [= ->]. now elim Hne.
  - intros Hnot Hone.
    destruct Hshape as [[Ht Ha]|[[Ht _]|(s & Hs & _ & _ & Hasset)]];
      [now split|contradiction|].
    destruct Hone as [Ha|Ht]; [|congruence].
    rewrite Ha in Hasset. discriminate.
  - exists (clamp01 x). split; [exact Hopacity|].
    intros Hnan. apply (NumFacts.clamp01_clamped x Hnan).
Qed.

End DeckFacts.

Lemma deck_update_invariants_witness :
  exists w' out,
    on_message Example.StringToNumber Example.ObjectToNumber Example.world 1
      (Example.message "update-mix-deck"
         (VObj [("deck", VStr "a");
                ("data", VObj [("type", VStr "video");
                               ("assetId", VStr "cat/clip.mp4");
                               ("enabled", VBool true)])]))
      = Some (w', out) /\
    let deck := deck_get (decks (mixState (state w'))) deck_a in
    let type := JS.get_prop deck "type" in
    let assetId := JS.get_prop deck "assetId" in
    (type = VNull \/ exists s, type = VStr s /\ In s deck_types) /\
    (type = VStr "generative" -> assetId = VNull) /\
    (type <> VStr "generative" ->
     assetId = VNull \/ type = VNull -> assetId = VNull /\ type = VNull) /\
    (exists v,
       JS.get_prop deck "opacity" = VNum v /\
       (Num.isNaN Num.one = false ->
        Num.between Num.zero Num.one v = true)) /\
    (exists b, JS.get_prop deck "enabled" = VBool b).
Proof.
  exact (deck_update_invariants
           Example.StringToNumber Example.ObjectToNumber Example.world 1
           (Example.message "update-mix-deck"
              (VObj [("deck", VStr "a");
                     ("data", VObj [("type", VStr "video");
                                    ("assetId", VStr "cat/clip.mp4");
                                    ("enabled", VBool true)])]))
           deck_a Num.one eq_refl eq_refl eq_refl).
Defined.

(** The scenario of the specification: deck [a] takes the video, and the
    mix state goes to both open connections, the sender included. *)
Lemma video_deck_scenario :
  exists w' out,
    on_message Example.StringToNumber Example.ObjectToNumber Example.world 1
      (Example.message "update-mix-deck"
         (VObj [("deck", VStr "a");
                ("data", VObj [("type", VStr "video");
                               ("assetId", VStr "cat/clip.mp4");
                               ("enabled", VBool true)])]))
      = Some (w', out) /\
    deck_get (decks (mixState (state w'))) deck_a
      = [("type", VStr "video"); ("assetId", VStr "cat/clip.mp4");
         ("opacity", VNum Num.one); ("enabled", VBool true)] /\
    recipients out = [1; 2]%nat /\
    Forall (fun s => snd s = MixStateFrame (mixState (state w'))) out.
Proof.
  eexists _, _. split; [reflexivity|].
  split; [reflexivity|]. split; [reflexivity|].
  repeat constructor.
Qed.

(** C1, as stated, fails on a generative deck whose opacity is a text that
    spells no number: the asset is [null], as the first invariant demands,
    while the type is not, which the third invariant forbids; and the
    opacity is NaN, which is not in the unit interval. *)
Lemma generative_deck_breaks_stated_invariants :
  exists w' out,
    on_message Example.StringToNumber Example.ObjectToNumber Example.world 1
      (Example.message "update-mix-deck"
         (VObj [("deck", VStr "a");
                ("data", VObj [("type", VStr "generative");
                               ("opacity", VStr "abc")])]))
      = Some (w', out) /\
    deck_get (decks (mixState (state w'))) deck_a
      = [("type", VStr "generative"); ("assetId", VNull);
         ("opacity", VNum Num.NaN); ("enabled", VBool false)] /\
    Num.between Num.zero Num.one Num.NaN = false /\
    ~ deck_invariants_as_stated (deck_get (decks (mixState (state w'))) deck_a).
Proof.
  eexists _, _. split; [reflexivity|]. split; [reflexivity|].
  split; [reflexivity|].
  cbn. intros (_ & _ & Hboth & _).
  destruct Hboth as [_ Htype]; [now left|]. discriminate Htype.
Qed.

(** The same update without the opacity: the third invariant as stated
    fails on its own, whatever the engine does with texts. *)
Lemma generative_deck_keeps_its_type :
  exists w' out,
    on_message Example.StringToNumber Example.ObjectToNumber Example.world 1
      (Example.message "update-mix-deck"
         (VObj [("deck", VStr "a");
                ("data", VObj [("type", VStr "generative")])]))
      = Some (w', out) /\
    deck_get (decks (mixState (state w'))) deck_a
      = [("type", VStr "generative"); ("assetId", VNull);
         ("opacity", VNum Num.one); ("enabled", VBool false)].
Proof.
  eexists _, _. split; reflexivity.
Qed.

(** ** Crossfaders *)

Lemma crossfaderFieldMap_known (key : string) :
  In key crossfader_targets ->
  crossfaderFieldMap key = Some (target_field key).
Proof.
  unfold crossfader_targets. simpl.
  intros [<-|[<-|[<-|[<-|[<-|[]]]]]]; reflexivity.
Qed.


Lemma known_target_truthy (key : string) :
  In key crossfader_targets -> JS.truthy (VStr key) = true.
Proof.
  unfold crossfader_targets. simpl.
  intros [<-|[<-|[<-|[<-|[<-|[]]]]]]; reflexivity.
Qed.

Lemma crossfader_set_same (m : MixState) (f : CrossfaderField) (v : number) :
  crossfader (set_crossfader m f v) f = v.
Proof. destruct f; reflexivity. Qed.

Section CrossfaderFacts.

Variable StringToNumber : string -> number.
Variable ObjectToNumber : value -> option number.

Lemma dispatch_update_crossfader
    (w : World) (sender : nat) (message : value) (t : string) :
  JS.get message "type" = VStr t ->
  In t ["update-crossfader"; "updateCrossfader"] ->
  on_message StringToNumber ObjectToNumber w sender message =
    match applyCrossfaderUpdate StringToNumber ObjectToNumber w
            (JS.get message "payload") with
    | None => None
    | Some (_, w', out) => Some (w', out)
    end.
Proof.
  intros Htype Hin.
  destruct (typed_message_is_object _ _ Htype) as (o & -> & Ho).
  unfold on_message. cbn [JS.get]. rewrite Ho.
  destruct Hin as [<-|[<-|[]]]; reflexivity.
Qed.

(** [applyCrossfaderUpdate] on a payload whose target names a field. *)
Lemma applyCrossfaderUpdate_known
    (w : World) (payload : value) (target : string) (x : number) :
  JS.get payload "target" = VStr target ->
  In (Str.toLowerCase (Str.trim target)) crossfader_targets ->
  ToNumber StringToNumber ObjectToNumber
    (JS.coalesce (JS.get payload "value") (VNum Num.zero)) = Some x ->
  applyCrossfaderUpdate StringToNumber ObjectToNumber w payload =
    let s' :=
      set_mixState (state w)
        (set_crossfader (mixState (state w))
           (target_field (Str.toLowerCase (Str.trim target))) (clamp01 x)) in
    Some (true, mkWorld s' (clients w), broadcastMixState (clients w) s').
Proof.
  intros Htarget Hkey Hnum. unfold applyCrossfaderUpdate.
  assert (Htruthy : JS.truthy payload = true).
  { destruct payload; try discriminate. reflexivity. }
  rewrite Htruthy, Htarget. cbn [negb].
  rewrite (known_target_truthy _ Hkey), (crossfaderFieldMap_known _ Hkey), Hnum.
  reflexivity.
Qed.



(** C8. On [update-crossfader] with a target that names a field and a
    payload whose [value] is missing or [null], the field is set to 0 and
    the mix state is sent to every open connection. *)
Theorem crossfader_missing_value_is_zero
    (w : World) (sender : nat) (message : value) (t target : string) :
  JS.get message "type" = VStr t ->
  In t ["update-crossfader"; "updateCrossfader"] ->
  let payload := JS.get message "payload" in
  JS.get payload "target" = VStr target ->
  In (Str.toLowerCase (Str.trim target)) crossfader_targets ->
  JS.get payload "value" = VUndefined \/ JS.get payload "value" = VNull ->
  let field := target_field (Str.toLowerCase (Str.trim target)) in
  let mix := set_crossfader (mixState (state w)) field Num.zero in
  exists out,
    on_message StringToNumber ObjectToNumber w sender message
      = Some (mkWorld (set_mixState (state w) mix) (clients w), out) /\
    crossfader mix field = Num.zero /\
    recipients out = all_open (clients w) /\
    Forall (fun s => snd s = MixStateFrame mix) out.
Proof.
  intros Htype Hin payload Htarget Hkey Hvalue field mix.
  rewrite (dispatch_update_crossfader w sender message t Htype Hin).
  fold payload.
  rewrite (applyCrossfaderUpdate_known w payload target Num.zero Htarget Hkey)
    by (destruct Hvalue as [-> | ->]; reflexivity).
  exists (broadcast (clients w) (MixStateFrame mix) None).
  refine (conj eq_refl (conj (crossfader_set_same _ _ _)
            (conj (broadcast_everyone _ _) (broadcast_frames _ _ _)))).
Qed.

End CrossfaderFacts.



(** The scenario of the specification: target [AB] and value 1.5 leave
    [crossfaderAB] at 1, and both open connections are told. *)
Lemma crossfader_scenario :
  exists w' out,
    on_message Example.StringToNumber Example.ObjectToNumber Example.world 1
      (Example.message "update-crossfader"
         (VObj [("target", VStr "AB"); ("value", VNum Example.one_and_a_half)]))
      = Some (w', out) /\
    crossfaderAB (mixState (state w')) = Num.one /\
    recipients out = [1; 2]%nat.
Proof.
  eexists _, _. repeat split.
Qed.

Lemma crossfader_missing_value_is_zero_witness :
  exists out,
    let mix := set_crossfader (mixState initial_state) fieldAB Num.zero in
    on_message Example.StringToNumber Example.ObjectToNumber Example.world 1
      (Example.message "update-crossfader" (VObj [("target", VStr "main")]))
      = Some (mkWorld (set_mixState initial_state mix) Example.three_clients,
              out) /\
    crossfader mix fieldAB = Num.zero /\
    recipients out = [1; 2]%nat /\
    Forall (fun s => snd s = MixStateFrame mix) out.
Proof.
  exact (crossfader_missing_value_is_zero
           Example.StringToNumber Example.ObjectToNumber Example.world 1
           (Example.message "update-crossfader" (VObj [("target", VStr "main")]))
           "update-crossfader" "main" eq_refl (or_introl eq_refl) eq_refl
           (or_introl eq_refl) (or_introl eq_refl)).
Defined.

(** ** Who receives an update *)

Section AudienceFacts.

Variable StringToNumber : string -> number.
Variable ObjectToNumber : value -> option number.




Lemma audience_types (t : string) (a : audience) :
  update_audience t = Some a ->
  (a = Everyone /\
   In t ["update-mix-deck"; "update-crossfader"; "updateCrossfader"])
  \/ (a = Others /\
      In t ["update-fallback-layers"; "update-control-settings";
            "viewer-status"; "deck-media-state"]).
Proof.
  unfold update_audience.
  destruct (existsb (String.eqb t)
              ["update-mix-deck"; "update-crossfader"; "updateCrossfader"])
    eqn:H1.
  - intros [= <-]. left. split; [reflexivity|].
    apply existsb_exists in H1 as (s & Hin & Heq).
    apply String.eqb_eq in Heq. now subst.
  - destruct (existsb (String.eqb t)
                ["update-fallback-layers"; "update-control-settings";
                 "viewer-status"; "deck-media-state"]) eqn:H2;
      [|intros H; discriminate H].
    intros [= <-]. right. split; [reflexivity|].
    apply existsb_exists in H2 as (s & Hin & Heq).
    apply String.eqb_eq in Heq. now subst.
Qed.




Lemma ToNumber_completes (v : value) :
  (forall u, ObjectToNumber u <> None) ->
  exists x, ToNumber StringToNumber ObjectToNumber v = Some x.
Proof.
  intros Htotal. destruct v as [| |b| | | |]; simpl; eauto.
  - destruct b; eauto.
  - specialize (Htotal (VArr elems)).
    destruct (ObjectToNumber (VArr elems)); [eauto|contradiction].
  - specialize (Htotal (VObj props)).
    destruct (ObjectToNumber (VObj props)); [eauto|contradiction].
Qed.

(** The handler completes on every update, as long as [Number] does not
    throw and the deck key stays within what [deck_lookup] models. *)
Lemma update_completes
    (w : World) (sender : nat) (message : value) (t : string) (a : audience) :
  JS.get message "type" = VStr t ->
  update_audience t = Some a ->
  (forall u, ObjectToNumber u <> None) ->
  deck_lookup (JS.get (JS.get message "payload") "deck") <> None ->
  exists w' out,
    on_message StringToNumber ObjectToNumber w sender message = Some (w', out).
Proof.
  intros Htype Haud Htotal Hdeck.
  destruct (typed_message_is_object _ _ Htype) as (o & -> & Ho).
  unfold on_message. cbn [JS.get] in *. rewrite Ho.
  destruct (audience_types t a Haud) as [[-> Hin]|[-> Hin]]; simpl in Hin.
  - destruct Hin as [<-|[<-|[<-|[]]]].
    + unfold update_mix_deck. cbn [JS.get].
      destruct (deck_lookup _) as [[k|]|]; [|eauto|contradiction].
      pose proof (apply_deck_invariants_spec StringToNumber ObjectToNumber
                    (merged_deck w (VObj o) k)) as Hspec.
      destruct (apply_deck_invariants _ _ _); [eauto|].
      destruct (ToNumber_completes
                  (JS.coalesce
                     (JS.get_prop (merged_deck w (VObj o) k) "opacity")
                     (VNum Num.one)) Htotal) as [x Hx].
      congruence.
    + unfold applyCrossfaderUpdate.
      destruct (negb _); [eauto|].
      match goal with
      | |- context [match ?f with Some _ => _ | None => Some (false, w, []) end] =>
          destruct f
      end; [|eauto].
      destruct (ToNumber_completes
                  (JS.coalesce (JS.get (JS.get_prop o "payload") "value")
                     (VNum Num.zero)) Htotal) as [x ->].
      eauto.
    + unfold applyCrossfaderUpdate.
      destruct (negb _); [eauto|].
      match goal with
      | |- context [match ?f with Some _ => _ | None => Some (false, w, []) end] =>
          destruct f
      end; [|eauto].
      destruct (ToNumber_completes
                  (JS.coalesce (JS.get (JS.get_prop o "payload") "value")
                     (VNum Num.zero)) Htotal) as [x ->].
      eauto.
  - destruct Hin as [<-|[<-|[<-|[<-|[]]]]]; eauto.
    unfold deck_media_state. cbn [JS.get].
    destruct (deck_lookup _) as [[k|]|]; [|eauto|contradiction].
    destruct (negb _); [eauto|].
    destruct (ToNumber_completes
                (JS.coalesce
                   (JS.get (JS.get (JS.get_prop o "payload") "state")
                      "progress") (VNum Num.zero)) Htotal) as [x ->].
    eauto.
Qed.


End AudienceFacts.


(** ** More on the Range header *)

(** X1.  A range that is served lies within the resource: both ends are byte
    positions of the resource and the start is not after the end. *)
Theorem range_within_resource (h : string) (size start end_ : Z) :
  resolve_range h size = ByteRange start end_ ->
  0 <= start /\ start <= end_ /\ end_ <= size - 1.
Proof.
  unfold resolve_range.
  destruct (range_regex h) as [[startString endString]|]; [|discriminate].
  match goal with
  | |- context [match ?b with Some _ => _ | None => _ end] =>
      destruct b as [[s e]|] eqn:Hb
  end; [|discriminate].
  destruct (Z.leb_spec size s) as [|Hlt]; [discriminate|].
  intros [= <- <-].
  destruct ((startString =? "")%string && negb (endString =? "")%string).
  - destruct (Double.Number endString) as [suffixLength|]; [|discriminate].
    destruct (suffixLength <=? 0); [discriminate|].
    injection Hb as <- <-. lia.
  - destruct (Double.Number startString) as [st|]; [|discriminate].
    destruct (Z.ltb_spec st 0); [discriminate|].
    destruct (if (endString =? "")%string then DFin (size - 1)
              else Double.Number endString) as [e0|]; [|discriminate].
    destruct (Z.ltb_spec e0 st); [discriminate|].
    injection Hb as <- <-. lia.
Qed.

Lemma range_within_resource_witness :
  0 <= 900 /\ 900 <= 999 /\ 999 <= 1000 - 1.
Proof.
  exact (range_within_resource "bytes=900-2000" 1000 900 999 eq_refl).
Defined.

Lemma range_regex_digits (a b : string) :
  digits a -> digits b ->
  range_regex ("bytes=" ++ a ++ "-" ++ b) = Some (a, b).
Proof.
  intros Ha Hb. unfold range_regex.
  change (Str.strip_prefix "bytes=" ("bytes=" ++ a ++ "-" ++ b))
    with (Some (a ++ "-" ++ b)).
  cbv beta iota.
  rewrite (span_digits_stop a ("-" ++ b) Ha) by reflexivity.
  change ("-" ++ b) with (String "-" b). cbv beta iota.
  rewrite <- (append_empty_r b) at 1.
  rewrite (span_digits_stop b "" Hb) by exact I.
  reflexivity.
Qed.

Lemma digits_value_nonneg (ds : string) (acc : Z) :
  digits ds -> 0 <= acc -> 0 <= Double.digits_value acc ds.
Proof.
  unfold digits. revert acc. induction ds as [|c ds IH]; intros acc Hds Hacc.
  - exact Hacc.
  - cbn [Double.digits_value list_ascii_of_string] in *.
    inversion Hds as [|? ? Hc Hrest]; subst.
    apply IH; [exact Hrest|].
    unfold Str.is_digit in Hc. cbv zeta in Hc.
    apply andb_true_iff in Hc as [Hlo _].
    apply N.leb_le in Hlo. lia.
Qed.

Lemma round_nonneg (n : Z) : 0 <= n -> 0 <= Double.round n.
Proof.
  intros Hn. unfold Double.round.
  destruct (Z.log2 n - 52 <=? 0); [exact Hn|].
  apply Z.shiftl_nonneg.
  assert (0 <= Z.shiftr n (Z.log2 n - 52)) by now apply Z.shiftr_nonneg.
  destruct (_ || _); lia.
Qed.

(** [Number] on a run of digits is never negative. *)
Lemma Number_nonneg (ds : string) (n : Z) :
  digits ds -> Double.Number ds = DFin n -> 0 <= n.
Proof.
  intros Hds. unfold Double.Number.
  destruct (2 ^ 1024 <=? _); [discriminate|].
  intros [= <-]. apply round_nonneg, digits_value_nonneg; [exact Hds|lia].
Qed.

(** X2.  The suffix form [bytes=-N], [N] a run of digits with the value [n]:
    the last [n] bytes of the resource, the whole resource when [n]
    exceeds its size, and a refusal when [n] is 0 or the resource is
    empty. *)
Theorem suffix_range (ds : string) (n size : Z) :
  digits ds -> ds <> "" -> Double.Number ds = DFin n ->
  resolve_range ("bytes=-" ++ ds) size =
    if n =? 0 then Rejected "Invalid Range"
    else if size <=? 0 then Rejected "Range Not Satisfiable"
    else ByteRange (Z.max 0 (size - n)) (size - 1).
Proof.
  intros Hds Hne Hnum. pose proof (Number_nonneg ds n Hds Hnum) as Hn.
  unfold resolve_range.
  change ("bytes=-" ++ ds) with ("bytes=" ++ "" ++ "-" ++ ds).
  rewrite (range_regex_digits "" ds) by (constructor || assumption).
  destruct (String.eqb_spec ds "") as [->|_]; [now elim Hne|].
  cbn [String.eqb andb negb]. rewrite Hnum.
  destruct (Z.eqb_spec n 0) as [->|Hn0]; [reflexivity|].
  destruct (Z.leb_spec n 0); [lia|].
  destruct (Z.leb_spec size (Z.max 0 (size - n)));
    destruct (Z.leb_spec size 0); (reflexivity || lia).
Qed.

Lemma suffix_range_witness :
  resolve_range ("bytes=-" ++ "5000") 1000 =
    if 5000 =? 0 then Rejected "Invalid Range"
    else if 1000 <=? 0 then Rejected "Range Not Satisfiable"
    else ByteRange (Z.max 0 (1000 - 5000)) (1000 - 1).
Proof.
  apply (suffix_range "5000" 5000 1000).
  - repeat constructor.
  - discriminate.
  - reflexivity.
Defined.

(** X3.  The closed form [bytes=A-B], [A] and [B] runs of digits with the
    values [m] and [n]: refused as invalid when [n] is below [m], refused
    as not satisfiable when [m] is not below the size, else the range from
    [m] to [n], cut at the last byte. *)
Theorem closed_range (a b : string) (m n size : Z) :
  digits a -> digits b -> a <> "" -> b <> "" ->
  Double.Number a = DFin m -> Double.Number b = DFin n ->
  resolve_range ("bytes=" ++ a ++ "-" ++ b) size =
    if n <? m then Rejected "Invalid Range"
    else if size <=? m then Rejected "Range Not Satisfiable"
    else ByteRange m (Z.min n (size - 1)).
Proof.
  intros Ha Hb Hane Hbne Hm Hn.
  pose proof (Number_nonneg a m Ha Hm) as Hpos.
  unfold resolve_range.
  rewrite (range_regex_digits a b Ha Hb).
  destruct (String.eqb_spec a "") as [->|_]; [now elim Hane|].
  destruct (String.eqb_spec b "") as [->|_]; [now elim Hbne|].
  cbn [andb negb]. rewrite Hm, Hn.
  destruct (Z.ltb_spec m 0); [lia|].
  destruct (Z.ltb_spec n m); reflexivity.
Qed.

Lemma closed_range_witness :
  resolve_range ("bytes=" ++ "1000" ++ "-" ++ "2000") 1000 =
    if 2000 <? 1000 then Rejected "Invalid Range"
    else if 1000 <=? 1000 then Rejected "Range Not Satisfiable"
    else ByteRange 1000 (Z.min 2000 (1000 - 1)).
Proof.
  apply (closed_range "1000" "2000" 1000 2000 1000);
    try (repeat constructor); discriminate.
Defined.

(** ** More on the stream handler *)

Section StreamingMore.

Variable cwd : string.
Variable dirname : string.
Variable stat : string -> option Stats.

(** X4.  A 206 answer tells the truth about what it sends: it comes with a range
    inside the file, its [Content-Range] and [Content-Length] are those of
    that range, and the bytes read from the file are exactly that range. *)
Theorem partial_content_is_consistent (req : request) :
  status (fst (stream_mp4 cwd dirname stat req)) = 206 ->
  exists absolutePath stats start end_,
    locate cwd dirname req = inr absolutePath /\
    stat absolutePath = Some stats /\
    isFile stats = true /\
    0 <= start /\ start <= end_ /\ end_ <= size stats - 1 /\
    stream_mp4 cwd dirname stat req =
      (mkResponse 206
         [("Content-Range",
           "bytes " ++ Str.of_Z start ++ "-" ++ Str.of_Z end_ ++ "/"
             ++ Str.of_Z (size stats));
          ("Accept-Ranges", "bytes");
          ("Content-Length", Str.of_Z (end_ - start + 1));
          ("Content-Type", "video/mp4")]
         (FileBytes absolutePath (Some (start, end_))),
       [Stat absolutePath;
        CreateReadStream absolutePath (Some (start, end_))]).
Proof.
  unfold stream_mp4.
  pose proof (locate_cases cwd dirname req) as Hloc.
  destruct (locate cwd dirname req) as [res|p].
  - destruct Hloc as [-> | ->]; discriminate.
  - destruct (stat p) as [stats|] eqn:Hstat; [|discriminate].
    destruct (isFile stats) eqn:Hfile; [|discriminate]. cbn [negb].
    unfold serve_file.
    destruct (range req) as [h|]; [|discriminate].
    destruct (h =? "")%string; [discriminate|].
    destruct (resolve_range h (size stats)) as [s e|text] eqn:Hrange;
      [|discriminate].
    intros _.
    assert (Hin : 0 <= s /\ s <= e /\ e <= size stats - 1).
    { revert Hrange. unfold resolve_range.
      destruct (range_regex h) as [[startString endString]|]; [|discriminate].
      match goal with
      | |- context [match ?b with Some _ => _ | None => _ end] =>
          destruct b as [[s0 e0]|] eqn:Hb
      end; [|discriminate].
      destruct (Z.leb_spec (size stats) s0) as [|Hlt]; [discriminate|].
      intros [= <- <-].
      destruct ((startString =? "")%string && negb (endString =? "")%string).
      - destruct (Double.Number endString) as [suffixLength|]; [|discriminate].
        destruct (suffixLength <=? 0); [discriminate|].
        injection Hb as <- <-. lia.
      - destruct (Double.Number startString) as [st|]; [|discriminate].
        destruct (Z.ltb_spec st 0); [discriminate|].
        destruct (if (endString =? "")%string then DFin (size stats - 1)
                  else Double.Number endString) as [e1|]; [|discriminate].
        destruct (Z.ltb_spec e1 st); [discriminate|].
        injection Hb as <- <-. lia. }
    destruct Hin as (H0 & H1 & H2).
    exists p, stats, s, e. repeat split; auto.
Qed.

End StreamingMore.

Lemma partial_content_is_consistent_witness :
  exists absolutePath stats start end_,
    locate Example.cwd Example.dirname
      (mkRequest "music/clip.mp4" (Some "bytes=900-2000")) = inr absolutePath /\
    Example.disk absolutePath = Some stats /\
    isFile stats = true /\
    0 <= start /\ start <= end_ /\ end_ <= size stats - 1 /\
    stream_mp4 Example.cwd Example.dirname Example.disk
      (mkRequest "music/clip.mp4" (Some "bytes=900-2000")) =
      (mkResponse 206
         [("Content-Range",
           "bytes " ++ Str.of_Z start ++ "-" ++ Str.of_Z end_ ++ "/"
             ++ Str.of_Z (size stats));
          ("Accept-Ranges", "bytes");
          ("Content-Length", Str.of_Z (end_ - start + 1));
          ("Content-Type", "video/mp4")]
         (FileBytes absolutePath (Some (start, end_))),
       [Stat absolutePath;
        CreateReadStream absolutePath (Some (start, end_))]).
Proof.
  exact (partial_content_is_consistent Example.cwd Example.dirname
           Example.disk (mkRequest "music/clip.mp4" (Some "bytes=900-2000"))
           eq_refl).
Defined.

(** ** How a request ends *)

Section Endings.

Variable cwd : string.
Variable dirname : string.
Variable stat : string -> option Stats.
Variable fate : string -> option (Z * Z) -> stream_fate.

(** X5.  How a request ends, the listeners of [error] of the read streams
    included.  It is answered 400 or 404 without a call into the file
    system; or [stat] is called once and it is answered 404 or 416 without
    opening the file; or, [stat] having found a file, that file is opened
    once, whole for a 200 or one range of it for a 206, and the request
    ends with that answer when the stream ends, with the 500 of the
    listener when the stream fails before the headers went out, and with
    the response destroyed when it fails after. *)
Theorem answers_and_reads (req : request) :
  (exists res,
     fst (stream_mp4_ending cwd dirname stat fate req) = Answered res
     /\ In (status res) [400; 404]%Z
     /\ snd (stream_mp4_ending cwd dirname stat fate req) = [])
  \/ exists p,
       (exists res,
          fst (stream_mp4_ending cwd dirname stat fate req) = Answered res
          /\ In (status res) [404; 416]%Z
          /\ snd (stream_mp4_ending cwd dirname stat fate req) = [Stat p])
       \/ (exists stats, stat p = Some stats /\ isFile stats = true)
          /\ exists r res,
               snd (stream_mp4_ending cwd dirname stat fate req)
                 = [Stat p; CreateReadStream p r]
               /\ payload res = FileBytes p r
               /\ ((status res = 200%Z /\ r = None)
                   \/ (status res = 206%Z
                       /\ exists start end_, r = Some (start, end_)))
               /\ fst (stream_mp4_ending cwd dirname stat fate req)
                  = match fate p r with
                    | StreamEnds => Answered res
                    | ErrorBeforeHeaders => InternalServerError
                    | ErrorAfterHeaders => Destroyed res
                    end.
Proof.
  unfold stream_mp4_ending, stream_mp4.
  pose proof (locate_cases cwd dirname req) as Hloc.
  destruct (locate cwd dirname req) as [res|p].
  - left. exists res. destruct Hloc as [-> | ->]; cbn; tauto.
  - right. exists p.
    destruct (stat p) as [stats|] eqn:Hstat.
    2:{ left. eexists. cbn. split; [reflexivity|]. tauto. }
    destruct (isFile stats) eqn:Hfile; cbn [negb].
    2:{ left. eexists. cbn. split; [reflexivity|]. tauto. }
    assert (Hfound : exists stats0,
              Some stats = Some stats0 /\ isFile stats0 = true)
      by (exists stats; auto).
    unfold serve_file.
    destruct (range req) as [h|].
    2:{ right. split; [exact Hfound|]. cbn.
        match goal with |- context [Answered ?a] => exists None, a end.
        refine (conj eq_refl (conj eq_refl (conj _ eq_refl))). now left. }
    destruct (h =? "")%string.
    { right. split; [exact Hfound|]. cbn.
      match goal with |- context [Answered ?a] => exists None, a end.
      refine (conj eq_refl (conj eq_refl (conj _ eq_refl))). now left. }
    destruct (resolve_range h (size stats)) as [s e|text].
    + right. split; [exact Hfound|]. cbn.
      match goal with |- context [Answered ?a] => exists (Some (s, e)), a end.
      refine (conj eq_refl (conj eq_refl (conj _ eq_refl))).
      right. split; [reflexivity|]. now exists s, e.
    + left. eexists. cbn. split; [reflexivity|]. tauto.
Qed.

End Endings.


(** ** What one message does *)

Section Dispatch.

Variable StringToNumber : string -> number.
Variable ObjectToNumber : value -> option number.

(** A message whose type is none of the fourteen of the [switch] is
    ignored. *)
Lemma unknown_type_falls_through
    (w : World) (sender : nat) (o : obj) (t : string) :
  JS.get_prop o "type" = VStr t ->
  ~ In t message_types ->
  on_message StringToNumber ObjectToNumber w sender (VObj o) = Some (w, []).
Proof.
  intros Ho Hno. unfold on_message. cbn [JS.get]. rewrite Ho. clear Ho.
  unfold message_types in Hno.
  split_head; try reflexivity.
  all: exfalso; apply Hno; simpl; tauto.
Qed.

Lemma applyCrossfaderUpdate_effect
    (w w' : World) (payload : value) (applied : bool) (out : list sent) :
  applyCrossfaderUpdate StringToNumber ObjectToNumber w payload
    = Some (applied, w', out) ->
  clients w' = clients w /\
  state_step StringToNumber ObjectToNumber (state w) (state w') /\
  (out = [] \/ exists f ex, out = broadcast (clients w) f ex).
Proof.
  unfold applyCrossfaderUpdate.
  destruct (negb (JS.truthy payload)).
  { intros [= <- <- <-].
    refine (conj eq_refl (conj (step_none _ _ _) (or_introl eq_refl))). }
  match goal with
  | |- context [match ?f with Some _ => _ | None => Some (false, w, []) end] =>
      destruct f as [f'|]
  end.
  2:{ intros [= <- <- <-].
      refine (conj eq_refl (conj (step_none _ _ _) (or_introl eq_refl))). }
  destruct (ToNumber _ _ _) as [x|]; [|discriminate].
  intros [= <- <- <-].
  refine (conj eq_refl (conj (step_crossfader _ _ _ f' x) _)).
  right; eexists _, _; reflexivity.
Qed.

(** What handling a message may do: the state takes one step, the clients
    stay as they are or the sender's role is set, and what is sent is one
    broadcast, or nothing. *)
Lemma on_message_effect
    (w w' : World) (sender : nat) (message : value) (out : list sent) :
  on_message StringToNumber ObjectToNumber w sender message = Some (w', out) ->
  state_step StringToNumber ObjectToNumber (state w) (state w') /\
  (clients w' = clients w
   \/ exists r, clients w' = map (set_role sender r) (clients w)) /\
  (out = [] \/ exists f ex, out = broadcast (clients w) f ex).
Proof.
  assert (Hsame : forall w1 out1,
            Some (w, @nil sent) = Some (w1, out1) ->
            state_step StringToNumber ObjectToNumber (state w) (state w1) /\
            (clients w1 = clients w
             \/ exists r, clients w1 = map (set_role sender r) (clients w)) /\
            (out1 = [] \/ exists f ex, out1 = broadcast (clients w) f ex)).
  { intros w1 out1 [= <- <-].
    exact (conj (step_none _ _ _) (conj (or_introl eq_refl) (or_introl eq_refl))). }
  destruct message as [| |b|x|s|l|o]; try discriminate; try apply Hsame.
  destruct (JS.get_prop o "type") as [| |b|x|t|l|o'] eqn:Ho;
    try (unfold on_message; cbn [JS.get]; rewrite Ho; apply Hsame).
  destruct (in_dec string_dec t message_types) as [Hin|Hno].
  2:{ rewrite (unknown_type_falls_through w sender o t Ho Hno). apply Hsame. }
  unfold on_message. cbn [JS.get]. rewrite Ho.
  unfold message_types in Hin. simpl in Hin.
  destruct Hin as [<-|[<-|[<-|[<-|[<-|[<-|[<-|[<-|[<-|[<-|[<-|[<-|[<-|[<-|[]]]]]]]]]]]]]]].
  - (* register *)
    intros [= <- <-]. refine (conj (step_none _ _ _) (conj _ (or_introl eq_refl))).
    right; eexists; reflexivity.
  - intros [= <- <-].
    refine (conj (step_layers _ _ _ _) (conj (or_introl eq_refl) _)).
    right; eexists _, _; reflexivity.
  - intros [= <- <-].
    refine (conj (step_settings _ _ _ _) (conj (or_introl eq_refl) _)).
    right; eexists _, _; reflexivity.
  - (* update-mix-deck *)
    unfold update_mix_deck, merged_deck.
    destruct (deck_lookup _) as [[k|]|]; [| apply Hsame |discriminate].
    destruct (apply_deck_invariants _ _ _) as [current|] eqn:Hinv;
      [|discriminate].
    intros [= <- <-].
    refine (conj (step_deck _ _ _ _ _ _ Hinv) (conj (or_introl eq_refl) _)).
    right; eexists _, _; reflexivity.
  - destruct (applyCrossfaderUpdate _ _ _ _) as [[[applied w1] out1]|] eqn:Happ;
      [|discriminate].
    intros [= <- <-].
    destruct (applyCrossfaderUpdate_effect _ _ _ _ _ Happ) as (Hc & Hs & Hout).
    exact (conj Hs (conj (or_introl Hc) Hout)).
  - destruct (applyCrossfaderUpdate _ _ _ _) as [[[applied w1] out1]|] eqn:Happ;
      [|discriminate].
    intros [= <- <-].
    destruct (applyCrossfaderUpdate_effect _ _ _ _ _ Happ) as (Hc & Hs & Hout).
    exact (conj Hs (conj (or_introl Hc) Hout)).
  - intros [= <- <-].
    refine (conj (step_none _ _ _) (conj (or_introl eq_refl) _)).
    right; eexists _, _; reflexivity.
  - intros [= <- <-].
    refine (conj (step_none _ _ _) (conj (or_introl eq_refl) _)).
    right; eexists _, _; reflexivity.
  - intros [= <- <-].
    refine (conj (step_none _ _ _) (conj (or_introl eq_refl) _)).
    right; eexists _, _; reflexivity.
  - intros [= <- <-].
    refine (conj (step_none _ _ _) (conj (or_introl eq_refl) _)).
    right; eexists _, _; reflexivity.
  - intros [= <- <-].
    refine (conj (step_status _ _ _ _) (conj (or_introl eq_refl) _)).
    right; eexists _, _; reflexivity.
  - intros [= <- <-].
    refine (conj (step_none _ _ _) (conj (or_introl eq_refl) _)).
    right; eexists _, _; reflexivity.
  - (* deck-media-state *)
    unfold deck_media_state.
    destruct (deck_lookup _) as [[k|]|]; [| apply Hsame |discriminate].
    destruct (JS.truthy _) eqn:Htruthy; cbn [negb]; [|apply Hsame].
    destruct (ToNumber _ _ _) as [p|]; [|discriminate].
    intros [= <- <-].
    refine (conj (step_media _ _ _ _ _ _ Htruthy) (conj (or_introl eq_refl) _)).
    right; eexists _, _; reflexivity.
  - (* rtc-signal *)
    intros [= <- <-].
    refine (conj (step_none _ _ _) (conj (or_introl eq_refl) _)).
    unfold handleRTCSignaling.
    destruct (JS.get _ "rtc"); try (now left).
    destruct (negb _); [now left|right; eauto].
Qed.

End Dispatch.

Local Open Scope string_scope.

(** ** Objects without repeated keys *)

Lemma has_key_In (o : obj) (k : string) :
  has_key o k = true <-> In k (map fst o).
Proof.
  unfold has_key. rewrite existsb_exists. split.
  - intros ([k' v] & Hin & Heq). apply String.eqb_eq in Heq. simpl in Heq.
    subst. now apply (in_map fst) in Hin.
  - intros Hin. apply in_map_iff in Hin as ([k' v] & Heq & Hin).
    simpl in Heq. subst. exists (k, v). split; [exact Hin|].
    apply String.eqb_refl.
Qed.

Lemma set_prop_keys (o : obj) (k : string) (v : value) :
  map fst (JS.set_prop o k v) =
    if has_key o k then map fst o else (map fst o ++ [k])%list.
Proof.
  induction o as [|[k' v'] o IH]; [reflexivity|].
  unfold has_key in *. cbn [JS.set_prop existsb fst].
  destruct (String.eqb_spec k' k) as [->|Hne]; [reflexivity|].
  cbn [orb map fst]. rewrite IH.
  now destruct (existsb _ o).
Qed.

Lemma set_prop_NoDup (o : obj) (k : string) (v : value) :
  NoDup (map fst o) -> NoDup (map fst (JS.set_prop o k v)).
Proof.
  intros Hnd. rewrite set_prop_keys.
  destruct (has_key o k) eqn:Hk; [exact Hnd|].
  apply NoDup_app; [exact Hnd|repeat constructor; intros []|].
  intros x Hin [<-|[]].
  apply has_key_In in Hin. congruence.
Qed.

Lemma assign_NoDup (target : obj) (source : value) :
  NoDup (map fst target) -> NoDup (map fst (JS.assign target source)).
Proof.
  unfold JS.assign. generalize (JS.own_props source) as props.
  intros props. revert target.
  induction props as [|[k v] props IH]; intros target Hnd; [exact Hnd|].
  simpl. apply IH. now apply set_prop_NoDup.
Qed.

(** An object literal made of spreads has no property twice. *)
Lemma spread2_NoDup (a b : value) : NoDup (map fst (JS.spread2 a b)).
Proof.
  unfold JS.spread2. apply assign_NoDup, assign_NoDup. constructor.
Qed.

Lemma get_prop_absent (o : obj) (k : string) :
  has_key o k = false -> JS.get_prop o k = VUndefined.
Proof.
  unfold has_key. induction o as [|[k' v] o IH]; [reflexivity|].
  cbn [existsb JS.get_prop fst].
  destruct (k' =? k)%string; [discriminate|exact IH].
Qed.

(** ** The state invariant *)

Section Invariant.

Variable StringToNumber : string -> number.
Variable ObjectToNumber : value -> option number.

Lemma clamp01_unit_or_NaN (x : number) : unit_or_NaN (clamp01 x).
Proof.
  unfold unit_or_NaN.
  destruct (Num.isNaN x) eqn:Hnan.
  - left. destruct x; try discriminate. reflexivity.
  - right. now destruct (NumFacts.clamp01_clamped x Hnan) as [H _].
Qed.

(** [Math.max(0, Math.min(100, p))] lies between 0 and 100 unless [p] is
    NaN. *)
Lemma progress_between (p : number) :
  Num.isNaN p = false ->
  Num.between Num.zero Num.hundred
    (Num.max Num.zero (Num.min Num.hundred p)) = true.
Proof.
  intros Hnan.
  pose proof (NumFacts.compare_total Num.hundred p eq_refl Hnan) as T1.
  pose proof (NumFacts.compare_total Num.zero p eq_refl Hnan) as T0.
  pose proof (NumFacts.compare_swap Num.hundred p) as Hswap.
  unfold Num.min.
  destruct (SFcompare Num.hundred p) as [[| |]|] eqn:H1; [| | |congruence];
    try reflexivity.
  unfold Num.max, Num.between, SFleb.
  destruct (SFcompare Num.zero p) as [[| |]|] eqn:H0; [| | |congruence].
  - apply NumFacts.compare_zero_eq in H0 as [s ->]. now destruct s.
  - rewrite H0, Hswap. reflexivity.
  - reflexivity.
Qed.

Lemma progress_clamped (p : number) :
  Num.isNaN (Num.max Num.zero (Num.min Num.hundred p)) = true
  \/ Num.between Num.zero Num.hundred
       (Num.max Num.zero (Num.min Num.hundred p)) = true.
Proof.
  destruct (Num.isNaN p) eqn:Hnan.
  - left. destruct p; try discriminate. reflexivity.
  - right. now apply progress_between.
Qed.

Lemma apply_deck_invariants_NoDup (current current' : obj) :
  NoDup (map fst current) ->
  apply_deck_invariants StringToNumber ObjectToNumber current = Some current' ->
  NoDup (map fst current').
Proof.
  intros Hnd. unfold apply_deck_invariants.
  set (c1 := if negb (JS.includes deck_types (JS.get_prop current "type"))
             then JS.set_prop current "type" VNull else current).
  assert (H1 : NoDup (map fst c1)).
  { unfold c1. destruct (negb _); [now apply set_prop_NoDup|exact Hnd]. }
  set (c2 := if JS.is_string (JS.get_prop c1 "type") "generative"
             then JS.set_prop c1 "assetId" VNull
             else if negb (JS.truthy (JS.get_prop c1 "assetId"))
                     || negb (JS.truthy (JS.get_prop c1 "type"))
             then JS.set_prop (JS.set_prop c1 "type" VNull) "assetId" VNull
             else c1).
  assert (H2 : NoDup (map fst c2)).
  { unfold c2. destruct (JS.is_string _ _); [now apply set_prop_NoDup|].
    destruct (_ || _); [|exact H1]. now repeat apply set_prop_NoDup. }
  destruct (ToNumber _ _ _); [|discriminate].
  intros [= <-]. now repeat apply set_prop_NoDup.
Qed.

(** What the handler stores in a deck is a well-formed deck. *)
Lemma apply_deck_invariants_ok (current current' : obj) :
  NoDup (map fst current) ->
  apply_deck_invariants StringToNumber ObjectToNumber current = Some current' ->
  deck_ok current'.
Proof.
  intros Hnd Hrun.
  pose proof (apply_deck_invariants_spec StringToNumber ObjectToNumber current)
    as Hspec.
  rewrite Hrun in Hspec. cbv zeta in Hspec.
  destruct Hspec as (Hshape & (x & _ & Hop) & Hen).
  split; [now apply (apply_deck_invariants_NoDup current)|].
  split; [|split; [|exact Hen]].
  - destruct Hshape as [H|[H|(s & Hs & Hin & Hne & Ha)]]; auto.
    right; right. exists s. repeat split; auto.
    simpl in Hin. simpl. destruct Hin as [H|[H|[H|[]]]]; auto; congruence.
  - exists (clamp01 x). split; [exact Hop|apply clamp01_unit_or_NaN].
Qed.

Lemma deck_get_set {A : Type} (p : PerDeck A) (k k' : DeckKey) (x : A) :
  deck_get (deck_set p k x) k' =
    if (deck_name k =? deck_name k')%string then x else deck_get p k'.
Proof. destruct k, k'; reflexivity. Qed.

Lemma crossfader_get_set (m : MixState) (f f' : CrossfaderField) (x : number) :
  crossfader (set_crossfader m f x) f' = x /\ f = f'
  \/ crossfader (set_crossfader m f x) f' = crossfader m f' /\ f <> f'.
Proof.
  destruct f, f'; ((left; split; reflexivity) || (right; split; [reflexivity|discriminate])).
Qed.

Lemma initial_state_ok : state_ok initial_state.
Proof.
  assert (Hdeck : deck_ok defaultMixDeck).
  { split; [repeat constructor; simpl; intuition discriminate|].
    split; [left; split; reflexivity|].
    split; [exists Num.one; split; [reflexivity|right; reflexivity]|].
    exists false. reflexivity. }
  assert (Hmedia : media_ok defaultDeckMediaState).
  { split; [right; reflexivity|left; reflexivity]. }
  refine (conj _ (conj _ (conj _ (conj _ _)))).
  - repeat constructor; simpl; intuition discriminate.
  - repeat constructor; simpl; intuition discriminate.
  - intros []; right; reflexivity.
  - intros []; apply Hdeck.
  - intros []; apply Hmedia.
Qed.

(** Every step of the state keeps the state well formed. *)
Lemma state_step_ok (s s' : State) :
  state_step StringToNumber ObjectToNumber s s' -> state_ok s -> state_ok s'.
Proof.
  intros Hstep (Hcs & Hvs & Hcf & Hdecks & Hmedia).
  destruct Hstep as [|payload|payload|payload|k data current Hinv|f x|k deckState p Htruthy];
    unfold state_ok; cbn.
  - auto.
  - auto.
  - refine (conj (spread2_NoDup _ _) (conj Hvs (conj Hcf (conj Hdecks Hmedia)))).
  - refine (conj Hcs (conj (spread2_NoDup _ _) (conj Hcf (conj Hdecks Hmedia)))).
  - refine (conj Hcs (conj Hvs (conj Hcf (conj _ Hmedia)))).
    intros k'. rewrite deck_get_set.
    destruct (_ =? _)%string; [|apply Hdecks].
    apply (apply_deck_invariants_ok _ _ (spread2_NoDup _ _) Hinv).
  - refine (conj Hcs (conj Hvs (conj _ (conj _ Hmedia)))).
    + intros f'.
      destruct (crossfader_get_set (mixState s) f f' (clamp01 x))
        as [[-> _]|[-> _]]; [apply clamp01_unit_or_NaN|apply Hcf].
    + intros k'. destruct f; apply Hdecks.
  - refine (conj Hcs (conj Hvs (conj Hcf (conj Hdecks _)))).
    intros k'. rewrite deck_get_set.
    destruct (_ =? _)%string; [|apply Hmedia].
    split; [apply progress_clamped|]. cbn [src].
    destruct (JS.get deckState "src") as [| | | |text| |]; try (now left).
    destruct (String.eqb_spec (Str.trim text) ""); cbn [negb]; [now left|].
    right. eauto.
Qed.

End Invariant.

(** ** Merging objects *)

Lemma get_prop_app (a b : obj) (k : string) :
  JS.get_prop (a ++ b)%list k =
    if has_key a k then JS.get_prop a k else JS.get_prop b k.
Proof.
  unfold has_key. induction a as [|[k' v] a IH]; [reflexivity|].
  cbn [app JS.get_prop existsb fst].
  destruct (k' =? k)%string; [reflexivity|exact IH].
Qed.

Lemma has_key_app (a b : obj) (k : string) :
  has_key (a ++ b)%list k = has_key a k || has_key b k.
Proof. unfold has_key. apply existsb_app. Qed.

Lemma has_key_rev (o : obj) (k : string) : has_key (rev o) k = has_key o k.
Proof.
  induction o as [|kv o IH]; [reflexivity|].
  cbn [rev]. rewrite has_key_app, IH. unfold has_key. cbn [existsb].
  rewrite orb_false_r. apply orb_comm.
Qed.

Lemma get_set (o : obj) (k k' : string) (v : value) :
  JS.get_prop (JS.set_prop o k v) k' =
    if (k =? k')%string then v else JS.get_prop o k'.
Proof.
  destruct (String.eqb_spec k k') as [->|Hne].
  - apply get_set_same.
  - now apply get_set_other.
Qed.

(** After [Object.assign]-like copying of the properties [props] onto
    [target], a key reads as the last property of that name in [props], or
    as in [target] when [props] has none. *)
Lemma get_fold_set (props target : obj) (k : string) :
  JS.get_prop
    (fold_left (fun o kv => JS.set_prop o (fst kv) (snd kv)) props target) k =
    if has_key props k then JS.get_prop (rev props) k
    else JS.get_prop target k.
Proof.
  revert target. induction props as [|[k0 v0] props IH]; intros target;
    [reflexivity|].
  cbn [fold_left fst snd rev]. rewrite IH, get_prop_app, has_key_rev, get_set.
  unfold has_key at 2. cbn [existsb fst].
  fold (has_key props k).
  destruct (has_key props k); [now rewrite orb_true_r|].
  rewrite orb_false_r. cbn [JS.get_prop].
  now destruct (k0 =? k)%string.
Qed.

Lemma get_prop_rev_NoDup (o : obj) (k : string) :
  NoDup (map fst o) -> JS.get_prop (rev o) k = JS.get_prop o k.
Proof.
  induction o as [|[k0 v0] o IH]; intros Hnd; [reflexivity|].
  cbn [map fst] in Hnd. inversion Hnd as [|? ? Hk Ho]; subst.
  cbn [rev JS.get_prop]. rewrite get_prop_app, has_key_rev, (IH Ho).
  destruct (String.eqb_spec k0 k) as [->|Hne].
  - assert (Hno : has_key o k = false).
    { destruct (has_key o k) eqn:E; [|reflexivity].
      apply has_key_In in E. contradiction. }
    rewrite Hno. cbn [JS.get_prop]. now rewrite String.eqb_refl.
  - destruct (has_key o k) eqn:E; [reflexivity|].
    cbn [JS.get_prop]. destruct (String.eqb_spec k0 k); [contradiction|].
    now rewrite get_prop_absent.
Qed.

(** The literal [{...a, ...b}] of two objects reads as [b] where [b] has
    the key (its last property of that name), and as [a] elsewhere. *)
Lemma get_spread2 (a b : obj) (k : string) :
  NoDup (map fst a) ->
  JS.get_prop (JS.spread2 (VObj a) (VObj b)) k =
    if has_key b k then JS.get_prop (rev b) k else JS.get_prop a k.
Proof.
  intros Hnd. unfold JS.spread2, JS.assign. cbn [JS.own_props].
  rewrite !get_fold_set. cbn [JS.get_prop].
  destruct (has_key b k); [reflexivity|].
  rewrite (get_prop_rev_NoDup a k Hnd).
  destruct (has_key a k) eqn:E; [reflexivity|].
  now rewrite get_prop_absent.
Qed.

(** Spreading nothing over an object gives the object back. *)
Lemma set_prop_absent (o : obj) (k : string) (v : value) :
  has_key o k = false -> JS.set_prop o k v = (o ++ [(k, v)])%list.
Proof.
  unfold has_key. induction o as [|[k' v'] o IH]; [reflexivity|].
  cbn [existsb fst JS.set_prop app].
  destruct (k' =? k)%string; [discriminate|].
  intros H. now rewrite (IH H).
Qed.

Lemma fold_set_fresh (o acc : obj) :
  NoDup (map fst (acc ++ o)%list) ->
  fold_left (fun o kv => JS.set_prop o (fst kv) (snd kv)) o acc
    = (acc ++ o)%list.
Proof.
  revert acc. induction o as [|[k v] o IH]; intros acc Hnd.
  - now rewrite app_nil_r.
  - cbn [fold_left fst snd].
    assert (Hk : has_key acc k = false).
    { destruct (has_key acc k) eqn:E; [|reflexivity].
      apply has_key_In in E. rewrite map_app in Hnd.
      apply NoDup_app_remove_r in Hnd as Hnd'.
      exfalso. revert Hnd. clear -E. intros Hnd.
      induction acc as [|[k1 v1] acc IHa]; [contradiction|].
      cbn in *. inversion Hnd as [|? ? Hx Hrest]; subst.
      destruct E as [->|E]; [|now apply IHa].
      apply Hx. apply in_or_app. right. now left. }
    rewrite (set_prop_absent acc k v Hk), IH.
    + now rewrite <- app_assoc.
    + now rewrite <- app_assoc.
Qed.

Lemma spread2_nothing (a : obj) :
  NoDup (map fst a) -> JS.spread2 (VObj a) (VObj []) = a.
Proof.
  intros Hnd. unfold JS.spread2, JS.assign. cbn [JS.own_props fold_left].
  now rewrite (fold_set_fresh a []).
Qed.

(** ** Reachable worlds *)

Lemma set_role_ws (sender : nat) (r : value) (c : Client) :
  ws (set_role sender r c) = ws c /\ isOpen (set_role sender r c) = isOpen c.
Proof.
  unfold set_role. destruct (Nat.eqb (ws c) sender); split; reflexivity.
Qed.

(** Dropping clients from a registry without repeated sockets leaves one
    without repeated sockets. *)
Lemma sockets_of_filter (keep_client : Client -> bool) (registry : list Client) :
  NoDup (map ws registry) -> NoDup (map ws (filter keep_client registry)).
Proof.
  induction registry as [|c registry IH]; intros Hnd; [constructor|].
  cbn [map filter] in *. inversion Hnd as [|? ? Hc Hrest]; subst.
  destruct (keep_client c); [|now apply IH].
  cbn [map]. constructor; [|now apply IH].
  intros Hin. apply Hc. apply in_map_iff in Hin as (c' & Hws & Hin).
  apply filter_In in Hin as [Hin _]. rewrite <- Hws. now apply in_map.
Qed.

Lemma filter_others_set_role (sender : nat) (r : value) (l : list Client) :
  filter (fun c => negb (Nat.eqb (ws c) sender)) (map (set_role sender r) l)
    = filter (fun c => negb (Nat.eqb (ws c) sender)) l.
Proof.
  induction l as [|c l IH]; [reflexivity|].
  cbn [map filter]. rewrite IH.
  destruct (set_role_ws sender r c) as [-> _].
  destruct (Nat.eqb (ws c) sender) eqn:Hc; cbn [negb]; [reflexivity|].
  unfold set_role. now rewrite Hc.
Qed.

Section Reachable.

Variable StringToNumber : string -> number.
Variable ObjectToNumber : value -> option number.

(** X12.  Handling a message keeps the sockets of the registry and their ready
    states, and leaves every client but the sender as it is. *)
Theorem message_keeps_registry
    (w w' : World) (sender : nat) (message : value) (out : list sent) :
  on_message StringToNumber ObjectToNumber w sender message = Some (w', out) ->
  map ws (clients w') = map ws (clients w) /\
  map isOpen (clients w') = map isOpen (clients w) /\
  filter (fun c => negb (Nat.eqb (ws c) sender)) (clients w')
    = filter (fun c => negb (Nat.eqb (ws c) sender)) (clients w).
Proof.
  intros Hrun.
  destruct (on_message_effect _ _ _ _ _ _ _ Hrun) as (_ & [-> | [r ->]] & _).
  - auto.
  - rewrite !map_map. repeat split.
    + apply map_ext. intros c. apply set_role_ws.
    + apply map_ext. intros c. apply set_role_ws.
    + apply filter_others_set_role.
Qed.

(** X13.  In every world that the server reaches the state is well formed and no
    socket is registered twice. *)
Theorem reachable_world_ok (w : World) :
  reachable StringToNumber ObjectToNumber w ->
  state_ok (state w) /\ NoDup (map ws (clients w)).
Proof.
  induction 1 as [|w socket _ [IHs IHc] Hfresh|w socket _ [IHs IHc]
                  |w socket ready _ [IHs IHc]
                  |w sender message w' out _ [IHs IHc] _ Hrun].
  - split; [apply initial_state_ok|constructor].
  - split; [exact IHs|]. cbn [clients]. rewrite map_app.
    apply NoDup_app; [exact IHc|repeat constructor; intros []|].
    intros x Hin [<-|[]]. contradiction.
  - split; [exact IHs|]. now apply sockets_of_filter.
  - split; [exact IHs|]. cbn [clients]. rewrite map_map.
    erewrite map_ext; [exact IHc|].
    intros c. now destruct (Nat.eqb (ws c) socket).
  - destruct (on_message_effect _ _ _ _ _ _ _ Hrun) as (Hstep & _ & _).
    split; [exact (state_step_ok _ _ _ _ Hstep IHs)|].
    destruct (on_message_effect _ _ _ _ _ _ _ Hrun) as (_ & [-> | [r ->]] & _);
      [exact IHc|].
    rewrite map_map. erewrite map_ext; [exact IHc|].
    intros c. apply set_role_ws.
Qed.

(** X14.  What is sent for one message goes to open clients of the registry, to
    each socket at most once when no socket is registered twice, and it is
    the same frame for all. *)
Theorem delivery_is_to_open_clients
    (w w' : World) (sender : nat) (message : value) (out : list sent) :
  on_message StringToNumber ObjectToNumber w sender message = Some (w', out) ->
  NoDup (map ws (clients w)) ->
  incl (recipients out) (all_open (clients w)) /\
  NoDup (recipients out) /\
  exists f, Forall (fun s => snd s = f) out.
Proof.
  intros Hrun Hnd.
  destruct (on_message_effect _ _ _ _ _ _ _ Hrun) as (_ & _ & [-> | (f & ex & ->)]).
  - repeat split; [intros x []|constructor|]. exists (Relay VNull). constructor.
  - repeat split.
    + unfold recipients, broadcast, all_open. rewrite map_map. cbn [fst].
      intros r Hin. apply in_map_iff in Hin as (c & <- & Hc).
      apply filter_In in Hc as [Hc Hp]. apply andb_true_iff in Hp as [_ Hopen].
      apply in_map, filter_In. auto.
    + unfold recipients, broadcast. rewrite map_map. cbn [fst].
      now apply sockets_of_filter.
    + exists f. apply broadcast_frames.
Qed.

End Reachable.

Lemma reachable_world_ok_witness :
  state_ok
    (set_mixState initial_state
       (set_crossfader (mixState initial_state) fieldAB Num.zero))
  /\ NoDup (map ws [mkClient 1 true (VStr "unknown")]).
Proof.
  apply (reachable_world_ok Example.StringToNumber Example.ObjectToNumber
           (mkWorld
              (set_mixState initial_state
                 (set_crossfader (mixState initial_state) fieldAB Num.zero))
              [mkClient 1 true (VStr "unknown")])).
  apply (reach_message _ _
           (mkWorld initial_state [mkClient 1 true (VStr "unknown")]) 1%nat
           (Example.message "update-crossfader" (VObj [("target", VStr "main")]))
           _
           (broadcast [mkClient 1 true (VStr "unknown")]
              (MixStateFrame
                 (set_crossfader (mixState initial_state) fieldAB Num.zero))
              None)).
  - apply (reach_connect _ _ (mkWorld initial_state []) 1%nat).
    + apply reach_start.
    + intros [].
  - left. reflexivity.
  - reflexivity.
Defined.

(** ** The handlers, one by one *)

Section HandlersMore.

Variable StringToNumber : string -> number.
Variable ObjectToNumber : value -> option number.

(** X11.  A message that is not [null] and whose type is none of the fourteen
    (or no text at all) changes nothing and sends nothing. *)
Theorem unknown_message_is_ignored
    (w : World) (sender : nat) (message : value) :
  message <> VNull -> message <> VUndefined ->
  (forall t, JS.get message "type" = VStr t -> ~ In t message_types) ->
  on_message StringToNumber ObjectToNumber w sender message = Some (w, []).
Proof.
  intros Hnull Hundef Htype.
  destruct message as [| |b|x|s|l|o]; try contradiction; try reflexivity.
  destruct (JS.get_prop o "type") as [| |b|x|t|l|o'] eqn:Ho;
    try (unfold on_message; cbn [JS.get]; rewrite Ho; reflexivity).
  apply (unknown_type_falls_through _ _ w sender o t Ho).
  apply Htype. exact Ho.
Qed.

(** X15.  The settings are merged key by key: after [update-control-settings]
    with an object for payload, a key reads as in the payload when the
    payload has it and as before when it has not; the rest of the state is
    as before, and the merged settings go to the other open connections. *)
Theorem settings_are_merged
    (w : World) (sender : nat) (message : value) (props : obj) :
  NoDup (map fst (controlSettings (state w))) ->
  JS.get message "type" = VStr "update-control-settings" ->
  JS.get message "payload" = VObj props ->
  exists settings out,
    on_message StringToNumber ObjectToNumber w sender message
      = Some (mkWorld (set_controlSettings (state w) settings) (clients w), out)
    /\ (forall k,
          JS.get_prop settings k =
            if has_key props k then JS.get_prop (rev props) k
            else JS.get_prop (controlSettings (state w)) k)
    /\ recipients out = others_open (clients w) sender
    /\ Forall (fun s => snd s = ControlSettingsFrame settings) out.
Proof.
  intros Hnd Htype Hpayload.
  destruct (typed_message_is_object _ _ Htype) as (o & -> & Ho).
  cbn [JS.get] in Hpayload.
  exists (JS.spread2 (VObj (controlSettings (state w))) (VObj props)).
  exists (broadcast (clients w)
            (ControlSettingsFrame
               (JS.spread2 (VObj (controlSettings (state w))) (VObj props)))
            (Some sender)).
  split; [|split; [|split]].
  - unfold on_message. cbn [JS.get]. rewrite Ho, Hpayload. reflexivity.
  - intros k. now apply get_spread2.
  - apply broadcast_others.
  - apply broadcast_frames.
Qed.

(** X16.  The viewer status is merged in the same way: after [viewer-status]
    with an object for payload, a key reads as in the payload when the
    payload has it and as before when it has not; the rest of the state is
    as before, and the merged status goes to the other open connections. *)
Theorem viewer_status_is_merged
    (w : World) (sender : nat) (message : value) (props : obj) :
  NoDup (map fst (viewerStatus (state w))) ->
  JS.get message "type" = VStr "viewer-status" ->
  JS.get message "payload" = VObj props ->
  exists status out,
    on_message StringToNumber ObjectToNumber w sender message
      = Some (mkWorld (set_viewerStatus (state w) status) (clients w), out)
    /\ (forall k,
          JS.get_prop status k =
            if has_key props k then JS.get_prop (rev props) k
            else JS.get_prop (viewerStatus (state w)) k)
    /\ recipients out = others_open (clients w) sender
    /\ Forall (fun s => snd s = ViewerStatusFrame status) out.
Proof.
  intros Hnd Htype Hpayload.
  destruct (typed_message_is_object _ _ Htype) as (o & -> & Ho).
  cbn [JS.get] in Hpayload.
  exists (JS.spread2 (VObj (viewerStatus (state w))) (VObj props)).
  exists (broadcast (clients w)
            (ViewerStatusFrame
               (JS.spread2 (VObj (viewerStatus (state w))) (VObj props)))
            (Some sender)).
  split; [|split; [|split]].
  - unfold on_message. cbn [JS.get]. rewrite Ho, Hpayload. reflexivity.
  - intros k. now apply get_spread2.
  - apply broadcast_others.
  - apply broadcast_frames.
Qed.

(** X17.  An update of the settings without a payload (or with one that is
    falsy) leaves the settings as they are, and they are still sent to the
    others. *)
Theorem settings_without_payload
    (w : World) (sender : nat) (message : value) :
  NoDup (map fst (controlSettings (state w))) ->
  JS.get message "type" = VStr "update-control-settings" ->
  JS.truthy (JS.get message "payload") = false ->
  exists out,
    on_message StringToNumber ObjectToNumber w sender message = Some (w, out)
    /\ recipients out = others_open (clients w) sender
    /\ Forall (fun s => snd s = ControlSettingsFrame (controlSettings (state w)))
         out.
Proof.
  intros Hnd Htype Hfalsy.
  destruct (typed_message_is_object _ _ Htype) as (o & -> & Ho).
  cbn [JS.get] in Hfalsy.
  exists (broadcast (clients w)
            (ControlSettingsFrame (controlSettings (state w))) (Some sender)).
  split; [|split; [apply broadcast_others|apply broadcast_frames]].
  unfold on_message. cbn [JS.get]. rewrite Ho.
  unfold JS.or_else. rewrite Hfalsy, (spread2_nothing _ Hnd).
  destruct w as [[fl cs vs mx dm] cl]. reflexivity.
Qed.

(** X18.  The signalling relay: a message [rtc-signal] never touches the state;
    when its [rtc] is a text that, trimmed and in lower case, is one of
    [offer], [answer], [ice-candidate] and [request-offer], that kind and
    the payload ([null] when missing) go to the other open connections, and
    otherwise nothing is sent. *)
Theorem rtc_signal_is_relayed
    (w : World) (sender : nat) (message : value) :
  JS.get message "type" = VStr "rtc-signal" ->
  exists out,
    on_message StringToNumber ObjectToNumber w sender message = Some (w, out) /\
    match JS.get message "rtc" with
    | VStr rtc =>
        if existsb (String.eqb (Str.toLowerCase (Str.trim rtc))) rtc_kinds
        then recipients out = others_open (clients w) sender /\
             Forall
               (fun s =>
                  snd s =
                    RtcSignalFrame (Str.toLowerCase (Str.trim rtc))
                      (JS.coalesce (JS.get message "payload") VNull)) out
        else out = []
    | _ => out = []
    end.
Proof.
  intros Htype.
  destruct (typed_message_is_object _ _ Htype) as (o & -> & Ho).
  exists (handleRTCSignaling w (VObj o) sender).
  split; [unfold on_message; cbn [JS.get]; now rewrite Ho|].
  unfold handleRTCSignaling.
  destruct (JS.get (VObj o) "rtc") as [| | | |rtc| |]; try reflexivity.
  destruct (existsb _ rtc_kinds); cbn [negb]; [|reflexivity].
  split; [apply broadcast_others|apply broadcast_frames].
Qed.

Lemma dispatch_deck_media_state
    (w : World) (sender : nat) (message : value) :
  JS.get message "type" = VStr "deck-media-state" ->
  on_message StringToNumber ObjectToNumber w sender message
    = deck_media_state StringToNumber ObjectToNumber w message sender.
Proof.
  intros Htype.
  destruct (typed_message_is_object _ _ Htype) as (o & -> & Ho).
  unfold on_message. cbn [JS.get]. now rewrite Ho.
Qed.

(** X19.  A media state for one of the four decks replaces that deck's media
    state by the coerced one: booleans, a progress from 0 to 100 (unless it
    is NaN) and a source that is the given text when it is not blank and
    [null] otherwise.  The other decks and the rest of the state stay, and
    the deck key with the stored state goes to the other open
    connections. *)
Theorem media_state_is_coerced
    (w : World) (sender : nat) (message : value) (k : DeckKey) (p : number) :
  JS.get message "type" = VStr "deck-media-state" ->
  let payload := JS.get message "payload" in
  JS.get payload "deck" = VStr (deck_name k) ->
  JS.truthy (JS.get payload "state") = true ->
  ToNumber StringToNumber ObjectToNumber
    (JS.coalesce (JS.get (JS.get payload "state") "progress") (VNum Num.zero))
    = Some p ->
  exists entry out,
    on_message StringToNumber ObjectToNumber w sender message
      = Some (mkWorld
                (set_deckMediaStates (state w)
                   (deck_set (deckMediaStates (state w)) k entry))
                (clients w), out) /\
    media_ok entry /\
    (Num.isNaN p = false ->
     Num.between Num.zero Num.hundred (progress entry) = true) /\
    (forall s, JS.get (JS.get payload "state") "src" = VStr s ->
               Str.trim s <> "" -> src entry = VStr s) /\
    recipients out = others_open (clients w) sender /\
    Forall (fun s => snd s = DeckMediaStateFrame (VStr (deck_name k)) entry) out.
Proof.
  intros Htype payload Hdeck Hstate Hp.
  rewrite (dispatch_deck_media_state w sender message Htype).
  unfold deck_media_state. fold payload.
  rewrite Hdeck, deck_lookup_name, Hstate, Hp. cbn [negb].
  eexists _, _. split; [reflexivity|].
  split; [|split; [|split; [|split]]].
  - split; [apply progress_clamped|]. cbn [src].
    destruct (JS.get (JS.get payload "state") "src") as [| | | |text| |];
      try (now left).
    destruct (String.eqb_spec (Str.trim text) ""); cbn [negb]; [now left|].
    right. eauto.
  - intros Hnan. cbn [progress]. now apply progress_between.
  - intros s Hs Hblank. cbn [src]. rewrite Hs.
    destruct (String.eqb_spec (Str.trim s) ""); [contradiction|reflexivity].
  - apply broadcast_others.
  - apply broadcast_frames.
Qed.

End HandlersMore.

(** ** The deck invariants, applied twice *)

Lemma set_prop_same (o : obj) (k : string) (v : value) :
  JS.get_prop o k = v -> v <> VUndefined -> JS.set_prop o k v = o.
Proof.
  induction o as [|[k' v'] o IH]; intros Hget Hv.
  - simpl in Hget. congruence.
  - cbn [JS.get_prop JS.set_prop] in *.
    destruct (String.eqb_spec k' k) as [->|Hne]; [now subst|].
    now rewrite IH.
Qed.

Lemma clamp01_idempotent (x : number) : clamp01 (clamp01 x) = clamp01 x.
Proof.
  destruct (Num.isNaN x) eqn:Hnan.
  - destruct x; try discriminate. reflexivity.
  - destruct (NumFacts.clamp01_cases x Hnan)
      as [(_ & _ & H)|[(_ & _ & H)|(_ & H)]]; rewrite H;
      [exact H|reflexivity|reflexivity].
Qed.

Section Idempotent.

Variable StringToNumber : string -> number.
Variable ObjectToNumber : value -> option number.

(** X20.  The deck that the handler stores is a fixed point of the statements
    that produced it: applying them to it gives the same deck. *)
Theorem deck_invariants_idempotent (current current' : obj) :
  apply_deck_invariants StringToNumber ObjectToNumber current = Some current' ->
  apply_deck_invariants StringToNumber ObjectToNumber current' = Some current'.
Proof.
  intros Hrun.
  pose proof (apply_deck_invariants_spec StringToNumber ObjectToNumber current)
    as Hspec.
  rewrite Hrun in Hspec. cbv zeta in Hspec.
  destruct Hspec as (Hshape & (x & _ & Hop) & (b & Hen)).
  unfold apply_deck_invariants.
  assert (E1 : (if negb (JS.includes deck_types (JS.get_prop current' "type"))
                then JS.set_prop current' "type" VNull else current')
               = current').
  { destruct Hshape as [[Ht _]|[[Ht _]|(s & Ht & Hin & _)]].
    - rewrite Ht. cbn. now apply set_prop_same.
    - rewrite Ht. reflexivity.
    - rewrite Ht. unfold JS.includes.
      assert (Hex : existsb (String.eqb s) deck_types = true).
      { apply existsb_exists. exists s. split; [exact Hin|apply String.eqb_refl]. }
      now rewrite Hex. }
  rewrite E1.
  assert (E2 : (if JS.is_string (JS.get_prop current' "type") "generative"
                then JS.set_prop current' "assetId" VNull
                else if negb (JS.truthy (JS.get_prop current' "assetId"))
                        || negb (JS.truthy (JS.get_prop current' "type"))
                then JS.set_prop (JS.set_prop current' "type" VNull)
                       "assetId" VNull
                else current') = current').
  { destruct Hshape as [[Ht Ha]|[[Ht Ha]|(s & Ht & Hin & Hne & Ha)]].
    - rewrite Ht, Ha. cbn.
      rewrite (set_prop_same current' "type" VNull Ht) by discriminate.
      now apply set_prop_same.
    - rewrite Ht. cbn. now apply set_prop_same.
    - rewrite Ht, Ha. cbn [JS.is_string JS.truthy negb orb].
      destruct (String.eqb_spec s "generative"); [contradiction|].
      simpl in Hin.
      destruct Hin as [<-|[<-|[<-|[]]]]; (reflexivity || contradiction). }
  rewrite E2, Hop. cbn [JS.coalesce ToNumber].
  rewrite clamp01_idempotent.
  rewrite (set_prop_same current' "opacity" _ Hop) by discriminate.
  rewrite Hen. cbn [JS.truthy].
  rewrite (set_prop_same current' "enabled" _ Hen) by discriminate.
  reflexivity.
Qed.

End Idempotent.

Lemma deck_invariants_idempotent_witness :
  apply_deck_invariants Example.StringToNumber Example.ObjectToNumber
    [("type", VStr "video"); ("assetId", VStr "cat/clip.mp4");
     ("opacity", VNum Num.one); ("enabled", VBool true)]
  = Some [("type", VStr "video"); ("assetId", VStr "cat/clip.mp4");
          ("opacity", VNum Num.one); ("enabled", VBool true)].
Proof.
  exact (deck_invariants_idempotent
           Example.StringToNumber Example.ObjectToNumber
           [("type", VStr "video"); ("assetId", VStr "cat/clip.mp4");
            ("opacity", VNum Example.one_and_a_half);
            ("enabled", VNum Example.one_and_a_half)]
           [("type", VStr "video"); ("assetId", VStr "cat/clip.mp4");
            ("opacity", VNum Num.one); ("enabled", VBool true)]
           eq_refl).
Defined.

(** ** What a deck update leaves alone *)

Section DeckUpdate.

Variable StringToNumber : string -> number.
Variable ObjectToNumber : value -> option number.

Lemma apply_deck_invariants_other (current current' : obj) (key : string) :
  apply_deck_invariants StringToNumber ObjectToNumber current = Some current' ->
  ~ In key ["type"; "assetId"; "opacity"; "enabled"] ->
  JS.get_prop current' key = JS.get_prop current key.
Proof.
  intros Hrun Hkey.
  assert (Ht : "type" <> key) by (intros <-; apply Hkey; simpl; tauto).
  assert (Ha : "assetId" <> key) by (intros <-; apply Hkey; simpl; tauto).
  assert (Ho : "opacity" <> key) by (intros <-; apply Hkey; simpl; tauto).
  assert (He : "enabled" <> key) by (intros <-; apply Hkey; simpl; tauto).
  unfold apply_deck_invariants in Hrun.
  set (c1 := if negb (JS.includes deck_types (JS.get_prop current "type"))
             then JS.set_prop current "type" VNull else current) in Hrun.
  set (c2 := if JS.is_string (JS.get_prop c1 "type") "generative"
             then JS.set_prop c1 "assetId" VNull
             else if negb (JS.truthy (JS.get_prop c1 "assetId"))
                     || negb (JS.truthy (JS.get_prop c1 "type"))
             then JS.set_prop (JS.set_prop c1 "type" VNull) "assetId" VNull
             else c1) in Hrun.
  assert (H1 : JS.get_prop c1 key = JS.get_prop current key).
  { unfold c1. destruct (negb _); [now apply get_set_other|reflexivity]. }
  assert (H2 : JS.get_prop c2 key = JS.get_prop current key).
  { unfold c2. destruct (JS.is_string _ _).
    - now rewrite get_set_other.
    - destruct (_ || _); [|exact H1]. now rewrite !get_set_other. }
  destruct (ToNumber _ _ _) as [x|]; [|discriminate].
  injection Hrun as <-. now rewrite !get_set_other.
Qed.

(** X21.  An update of one deck touches that deck alone: the other decks, the
    crossfaders, the rest of the state and the clients are as before.  In
    the deck itself, every property other than [type], [assetId],
    [opacity] and [enabled] is merged as it comes: it reads as in the data
    of the message when the data has it, and as before when it has not. *)
Theorem deck_update_is_local
    (w w' : World) (sender : nat) (message : value) (k : DeckKey)
    (data : obj) (out : list sent) :
  NoDup (map fst (deck_get (decks (mixState (state w))) k)) ->
  JS.get message "type" = VStr "update-mix-deck" ->
  JS.get (JS.get message "payload") "deck" = VStr (deck_name k) ->
  JS.get (JS.get message "payload") "data" = VObj data ->
  on_message StringToNumber ObjectToNumber w sender message = Some (w', out) ->
  (forall k', k' <> k ->
     deck_get (decks (mixState (state w'))) k'
       = deck_get (decks (mixState (state w))) k') /\
  (forall f, crossfader (mixState (state w')) f
               = crossfader (mixState (state w)) f) /\
  fallbackLayers (state w') = fallbackLayers (state w) /\
  controlSettings (state w') = controlSettings (state w) /\
  viewerStatus (state w') = viewerStatus (state w) /\
  deckMediaStates (state w') = deckMediaStates (state w) /\
  clients w' = clients w /\
  (forall key, ~ In key ["type"; "assetId"; "opacity"; "enabled"] ->
     JS.get_prop (deck_get (decks (mixState (state w'))) k) key =
       if has_key data key then JS.get_prop (rev data) key
       else JS.get_prop (deck_get (decks (mixState (state w))) k) key).
Proof.
  intros Hnd Htype Hdeck Hdata.
  rewrite (dispatch_update_mix_deck _ _ w sender message Htype).
  unfold update_mix_deck, merged_deck.
  rewrite Hdeck, deck_lookup_name, Hdata. cbn [JS.or_else JS.truthy].
  destruct (apply_deck_invariants _ _ _) as [current|] eqn:Hinv;
    [|discriminate].
  intros [= <- <-]. cbn [state clients].
  refine (conj _ (conj _ (conj eq_refl (conj eq_refl (conj eq_refl
            (conj eq_refl (conj eq_refl _))))))).
  - intros k' Hk'. destruct k, k'; (reflexivity || now elim Hk').
  - intros f. destruct f; reflexivity.
  - intros key Hkey.
    replace (deck_get _ k) with current by (destruct k; reflexivity).
    rewrite (apply_deck_invariants_other _ _ key Hinv Hkey).
    now apply get_spread2.
Qed.

End DeckUpdate.

(** ** The handlers on the example world *)

Lemma three_sockets : NoDup (map ws (clients Example.world)).
Proof.
  repeat (constructor; [simpl; intuition discriminate|]). constructor.
Qed.

Lemma initial_settings_keys :
  NoDup (map fst (controlSettings (state Example.world))).
Proof.
  repeat (constructor; [simpl; intuition discriminate|]). constructor.
Qed.

Lemma initial_status_keys :
  NoDup (map fst (viewerStatus (state Example.world))).
Proof.
  repeat (constructor; [simpl; intuition discriminate|]). constructor.
Qed.

Lemma default_deck_keys : NoDup (map fst defaultMixDeck).
Proof.
  repeat (constructor; [simpl; intuition discriminate|]). constructor.
Qed.

Lemma message_keeps_registry_witness :
  exists w' out,
    on_message Example.StringToNumber Example.ObjectToNumber Example.world
      1%nat Messages.register = Some (w', out)
    /\ map ws (clients w') = map ws (clients Example.world)
    /\ map isOpen (clients w') = map isOpen (clients Example.world)
    /\ filter (fun c => negb (Nat.eqb (ws c) 1%nat)) (clients w')
       = filter (fun c => negb (Nat.eqb (ws c) 1%nat)) (clients Example.world).
Proof.
  eexists _, _. split; [reflexivity|].
  eapply (message_keeps_registry Example.StringToNumber Example.ObjectToNumber
           Example.world _ 1%nat Messages.register _).
  reflexivity.
Defined.

Lemma delivery_is_to_open_clients_witness :
  exists w' out,
    on_message Example.StringToNumber Example.ObjectToNumber Example.world
      1%nat Messages.new_prompt = Some (w', out)
    /\ incl (recipients out) (all_open (clients Example.world))
    /\ NoDup (recipients out)
    /\ exists f, Forall (fun s => snd s = f) out.
Proof.
  eexists _, _. split; [reflexivity|].
  eapply (delivery_is_to_open_clients
           Example.StringToNumber Example.ObjectToNumber
           Example.world _ 1%nat Messages.new_prompt _).
  - reflexivity.
  - exact three_sockets.
Defined.

Lemma unknown_message_is_ignored_witness :
  on_message Example.StringToNumber Example.ObjectToNumber Example.world
    1%nat Messages.ping = Some (Example.world, []).
Proof.
  apply (unknown_message_is_ignored
           Example.StringToNumber Example.ObjectToNumber
           Example.world 1%nat Messages.ping).
  - discriminate.
  - discriminate.
  - intros t H. cbv in H. injection H as <-. cbv. intuition discriminate.
Defined.

Lemma settings_are_merged_witness :
  exists settings out,
    on_message Example.StringToNumber Example.ObjectToNumber Example.world
      1%nat Messages.new_prompt
      = Some (mkWorld (set_controlSettings (state Example.world) settings)
                (clients Example.world), out)
    /\ (forall k,
          JS.get_prop settings k =
            if has_key [("prompt", VStr "waves")] k
            then JS.get_prop (rev [("prompt", VStr "waves")]) k
            else JS.get_prop (controlSettings (state Example.world)) k)
    /\ recipients out = others_open (clients Example.world) 1%nat
    /\ Forall (fun s => snd s = ControlSettingsFrame settings) out.
Proof.
  exact (settings_are_merged Example.StringToNumber Example.ObjectToNumber
           Example.world 1%nat Messages.new_prompt [("prompt", VStr "waves")]
           initial_settings_keys eq_refl eq_refl).
Defined.

Lemma viewer_status_is_merged_witness :
  exists status out,
    on_message Example.StringToNumber Example.ObjectToNumber Example.world
      2%nat Messages.running
      = Some (mkWorld (set_viewerStatus (state Example.world) status)
                (clients Example.world), out)
    /\ (forall k,
          JS.get_prop status k =
            if has_key [("isRunning", VBool true)] k
            then JS.get_prop (rev [("isRunning", VBool true)]) k
            else JS.get_prop (viewerStatus (state Example.world)) k)
    /\ recipients out = others_open (clients Example.world) 2%nat
    /\ Forall (fun s => snd s = ViewerStatusFrame status) out.
Proof.
  exact (viewer_status_is_merged Example.StringToNumber Example.ObjectToNumber
           Example.world 2%nat Messages.running [("isRunning", VBool true)]
           initial_status_keys eq_refl eq_refl).
Defined.

Lemma settings_without_payload_witness :
  exists out,
    on_message Example.StringToNumber Example.ObjectToNumber Example.world
      1%nat Messages.settings_alone = Some (Example.world, out)
    /\ recipients out = others_open (clients Example.world) 1%nat
    /\ Forall
         (fun s =>
            snd s = ControlSettingsFrame (controlSettings (state Example.world)))
         out.
Proof.
  exact (settings_without_payload Example.StringToNumber Example.ObjectToNumber
           Example.world 1%nat Messages.settings_alone
           initial_settings_keys eq_refl eq_refl).
Defined.

Lemma rtc_signal_is_relayed_witness :
  exists out,
    on_message Example.StringToNumber Example.ObjectToNumber Example.world
      1%nat Messages.offer = Some (Example.world, out)
    /\ recipients out = others_open (clients Example.world) 1%nat
    /\ Forall (fun s => snd s = RtcSignalFrame "offer" (VStr "sdp")) out.
Proof.
  exact (rtc_signal_is_relayed Example.StringToNumber Example.ObjectToNumber
           Example.world 1%nat Messages.offer eq_refl).
Defined.

Lemma media_state_is_coerced_witness :
  exists entry out,
    on_message Example.StringToNumber Example.ObjectToNumber Example.world
      2%nat Messages.playing
      = Some (mkWorld
                (set_deckMediaStates (state Example.world)
                   (deck_set (deckMediaStates (state Example.world)) deck_b
                      entry))
                (clients Example.world), out)
    /\ media_ok entry
    /\ (Num.isNaN Num.one = false ->
        Num.between Num.zero Num.hundred (progress entry) = true)
    /\ (forall s,
          JS.get (JS.get (JS.get Messages.playing "payload") "state") "src"
            = VStr s ->
          Str.trim s <> "" -> src entry = VStr s)
    /\ recipients out = others_open (clients Example.world) 2%nat
    /\ Forall (fun s => snd s = DeckMediaStateFrame (VStr "b") entry) out.
Proof.
  exact (media_state_is_coerced Example.StringToNumber Example.ObjectToNumber
           Example.world 2%nat Messages.playing deck_b Num.one
           eq_refl eq_refl eq_refl eq_refl).
Defined.

Lemma deck_update_is_local_witness :
  exists w' out,
    on_message Example.StringToNumber Example.ObjectToNumber Example.world
      1%nat Messages.label_deck = Some (w', out)
    /\ (forall k', k' <> deck_a ->
          deck_get (decks (mixState (state w'))) k'
            = deck_get (decks (mixState (state Example.world))) k')
    /\ (forall f, crossfader (mixState (state w')) f
                    = crossfader (mixState (state Example.world)) f)
    /\ fallbackLayers (state w') = fallbackLayers (state Example.world)
    /\ controlSettings (state w') = controlSettings (state Example.world)
    /\ viewerStatus (state w') = viewerStatus (state Example.world)
    /\ deckMediaStates (state w') = deckMediaStates (state Example.world)
    /\ clients w' = clients Example.world
    /\ (forall key, ~ In key ["type"; "assetId"; "opacity"; "enabled"] ->
          JS.get_prop (deck_get (decks (mixState (state w'))) deck_a) key =
            if has_key [("label", VStr "intro"); ("opacity", VNull)] key
            then JS.get_prop (rev [("label", VStr "intro"); ("opacity", VNull)])
                   key
            else JS.get_prop
                   (deck_get (decks (mixState (state Example.world))) deck_a)
                   key).
Proof.
  eexists _, _. split; [reflexivity|].
  eapply (deck_update_is_local Example.StringToNumber Example.ObjectToNumber
           Example.world _ 1%nat Messages.label_deck deck_a
           [("label", VStr "intro"); ("opacity", VNull)] _).
  - exact default_deck_keys.
  - reflexivity.
  - reflexivity.
  - reflexivity.
  - reflexivity.
Defined.

(** ** Roles *)

Lemma broadcast_same_sockets
    (c1 c2 : list Client) (f : frame) (exclude : option nat) :
  map ws c1 = map ws c2 -> map isOpen c1 = map isOpen c2 ->
  broadcast c1 f exclude = broadcast c2 f exclude.
Proof.
  unfold broadcast. revert c2.
  induction c1 as [|a c1 IH]; intros [|b c2] Hws Hopen;
    try discriminate; [reflexivity|].
  cbn [map] in Hws, Hopen.
  injection Hws as Hws1 Hws. injection Hopen as Hopen1 Hopen.
  cbn [filter]. cbv beta. rewrite Hws1, Hopen1.
  destruct (negb _ && isOpen b); cbn [map]; rewrite ?Hws1, (IH c2 Hws Hopen);
    reflexivity.
Qed.

Section Roles.

Variable StringToNumber : string -> number.
Variable ObjectToNumber : value -> option number.

Lemma applyCrossfaderUpdate_same_sockets
    (s : State) (c1 c2 : list Client) (payload : value) :
  map ws c1 = map ws c2 -> map isOpen c1 = map isOpen c2 ->
  outcome
    (match applyCrossfaderUpdate StringToNumber ObjectToNumber
             (mkWorld s c1) payload with
     | None => None
     | Some (_, w', out) => Some (w', out)
     end)
  = outcome
      (match applyCrossfaderUpdate StringToNumber ObjectToNumber
               (mkWorld s c2) payload with
       | None => None
       | Some (_, w', out) => Some (w', out)
       end).
Proof.
  intros Hws Hopen. unfold applyCrossfaderUpdate.
  destruct (negb (JS.truthy payload)); [reflexivity|].
  match goal with
  | |- context [match ?f with Some _ => _ | None => Some (false, _, []) end] =>
      destruct f as [f'|]
  end; [|reflexivity].
  cbn [state clients].
  destruct (ToNumber _ _ _) as [x|]; [|reflexivity].
  unfold outcome, broadcastMixState. cbn [option_map fst snd state].
  now rewrite (broadcast_same_sockets c1 c2 _ _ Hws Hopen).
Qed.

(** X22.  The role of a client is written and never read: two registries with
    the same sockets in the same ready states, whatever the roles, lead
    every message from every sender to the same state and to the same
    frames for the same sockets. *)
Theorem role_is_never_consulted
    (s : State) (c1 c2 : list Client) (sender : nat) (message : value) :
  map ws c1 = map ws c2 -> map isOpen c1 = map isOpen c2 ->
  outcome (on_message StringToNumber ObjectToNumber (mkWorld s c1) sender message)
  = outcome (on_message StringToNumber ObjectToNumber (mkWorld s c2) sender message).
Proof.
  intros Hws Hopen.
  destruct message as [| |b|x|t|l|o]; try reflexivity.
  destruct (JS.get_prop o "type") as [| |b|x|t|l|o'] eqn:Ho;
    try (unfold on_message; cbn [JS.get]; rewrite Ho; reflexivity).
  destruct (in_dec string_dec t message_types) as [Hin|Hno].
  2:{ now rewrite !(unknown_type_falls_through _ _ _ sender o t Ho Hno). }
  unfold on_message. cbn [JS.get]. rewrite Ho.
  unfold message_types in Hin. simpl in Hin.
  destruct Hin as [<-|[<-|[<-|[<-|[<-|[<-|[<-|[<-|[<-|[<-|[<-|[<-|[<-|[<-|[]]]]]]]]]]]]]]];
    cbv beta iota zeta; cbn [state clients].
  - reflexivity.
  - unfold outcome. cbn [option_map fst snd state].
    now rewrite (broadcast_same_sockets c1 c2 _ _ Hws Hopen).
  - unfold outcome. cbn [option_map fst snd state].
    now rewrite (broadcast_same_sockets c1 c2 _ _ Hws Hopen).
  - unfold update_mix_deck, merged_deck. cbn [state clients].
    destruct (deck_lookup _) as [[k|]|]; try reflexivity.
    destruct (apply_deck_invariants _ _ _); [|reflexivity].
    unfold outcome, broadcastMixState. cbn [option_map fst snd state].
    now rewrite (broadcast_same_sockets c1 c2 _ _ Hws Hopen).
  - now apply applyCrossfaderUpdate_same_sockets.
  - now apply applyCrossfaderUpdate_same_sockets.
  - unfold outcome. cbn [option_map fst snd state].
    now rewrite (broadcast_same_sockets c1 c2 _ _ Hws Hopen).
  - unfold outcome. cbn [option_map fst snd state].
    now rewrite (broadcast_same_sockets c1 c2 _ _ Hws Hopen).
  - unfold outcome. cbn [option_map fst snd state].
    now rewrite (broadcast_same_sockets c1 c2 _ _ Hws Hopen).
  - unfold outcome. cbn [option_map fst snd state].
    now rewrite (broadcast_same_sockets c1 c2 _ _ Hws Hopen).
  - unfold outcome. cbn [option_map fst snd state].
    now rewrite (broadcast_same_sockets c1 c2 _ _ Hws Hopen).
  - unfold outcome. cbn [option_map fst snd state].
    now rewrite (broadcast_same_sockets c1 c2 _ _ Hws Hopen).
  - unfold deck_media_state. cbn [state clients].
    destruct (deck_lookup _) as [[k|]|]; try reflexivity.
    destruct (negb _); [reflexivity|].
    destruct (ToNumber _ _ _); [|reflexivity].
    unfold outcome. cbn [option_map fst snd state].
    now rewrite (broadcast_same_sockets c1 c2 _ _ Hws Hopen).
  - unfold outcome, handleRTCSignaling. cbn [option_map fst snd state clients].
    destruct (JS.get _ "rtc"); try reflexivity.
    destruct (negb _); [reflexivity|].
    now rewrite (broadcast_same_sockets c1 c2 _ _ Hws Hopen).
Qed.

End Roles.

Lemma role_is_never_consulted_witness :
  outcome
    (on_message Example.StringToNumber Example.ObjectToNumber
       (mkWorld initial_state Example.three_clients) 2%nat Messages.new_prompt)
  = outcome
      (on_message Example.StringToNumber Example.ObjectToNumber
         (mkWorld initial_state Messages.other_roles) 2%nat
         Messages.new_prompt).
Proof.
  exact (role_is_never_consulted
           Example.StringToNumber Example.ObjectToNumber initial_state
           Example.three_clients Messages.other_roles 2%nat
           Messages.new_prompt eq_refl eq_refl).
Defined.

(** ** The root test *)

Section RootTest.
Import Path PathFacts.

Variable cwd : string.
Variable dirname : string.

(** A normalized path without [..] resolves, against the asset root, to
    the root followed by its segments, which passes the test on the root. *)
Lemma resolve_inside_root (normalizedPath : string) :
  isAbsolute dirname = true ->
  isAbsolute normalizedPath = false ->
  Str.includes ".." normalizedPath = false ->
  resolve cwd [mp4Dir cwd dirname; normalizedPath] =
    match filter keep (split normalizedPath) with
    | [] => mp4Dir cwd dirname
    | kept => mp4Dir cwd dirname ++ "/" ++ join kept
    end
  /\ isInsideMp4Dir cwd dirname
       (resolve cwd [mp4Dir cwd dirname; normalizedPath]) = true.
Proof.
  intros Habs Hrel Hdots.
  destruct (mp4Dir_shape cwd dirname Habs) as (base & Hne & Hclean & Hroot).
  assert (Hpath : resolve cwd [mp4Dir cwd dirname; normalizedPath] =
            match filter keep (split normalizedPath) with
            | [] => mp4Dir cwd dirname
            | kept => mp4Dir cwd dirname ++ "/" ++ join kept
            end).
  { rewrite Hroot.
    rewrite (resolve_under cwd base normalizedPath Hne Hclean Hrel
               (includes_dotdot_split _ Hdots)).
    destruct (filter keep (split normalizedPath)) as [|k kept].
    - now rewrite app_nil_r.
    - rewrite join_app by (assumption || discriminate).
      now rewrite append_assoc. }
  split; [exact Hpath|].
  unfold isInsideMp4Dir. rewrite Hpath.
  destruct (filter keep (split normalizedPath)) as [|k kept].
  - now rewrite String.eqb_refl.
  - apply orb_true_iff; right.
    rewrite <- append_assoc. apply startsWith_app.
Qed.

(** X6.  The test on [..] is the only one that refuses a path: the test on the
    root that follows it lets every path through.  A request with a path
    that is not blank is answered 400 when its normalized path contains
    [..], and goes to [stat] with a path inside the root otherwise. *)
Theorem only_dotdot_is_refused (req : request) :
  isAbsolute dirname = true ->
  Str.trim (param req) <> "" ->
  let normalizedPath :=
    strip_leading_separators (normalize (Str.trim (param req))) in
  locate cwd dirname req =
    if Str.includes ".." normalizedPath
    then inl (mkResponse 400 [] (Text "Invalid video path"))
    else inr (match filter keep (split normalizedPath) with
              | [] => mp4Dir cwd dirname
              | kept => mp4Dir cwd dirname ++ "/" ++ join kept
              end).
Proof.
  intros Habs Hblank normalizedPath. unfold locate.
  destruct (String.eqb_spec (Str.trim (param req)) ""); [contradiction|].
  fold normalizedPath.
  destruct (Str.includes ".." normalizedPath) eqn:Hdots; [reflexivity|].
  destruct (resolve_inside_root normalizedPath Habs
              (strip_leading_not_absolute _) Hdots) as [Hpath Hinside].
  rewrite Hinside. cbn [negb]. now rewrite Hpath.
Qed.

End RootTest.

Lemma only_dotdot_is_refused_witness :
  locate Example.cwd Example.dirname (mkRequest " a/./b/../c.mp4 " None)
    = inr "/srv/muloom/mp4/a/c.mp4".
Proof.
  exact (only_dotdot_is_refused Example.cwd Example.dirname
           (mkRequest " a/./b/../c.mp4 " None) eq_refl
           ltac:(discriminate)).
Defined.

(** ** Every path that reaches the disk *)

Section BelowRoot.
Import Path PathFacts.

Variable cwd : string.
Variable dirname : string.
Variable stat : string -> option Stats.

Lemma kept_segments_clean (p : string) :
  Str.includes ".." p = false -> Forall clean (filter keep (split p)).
Proof.
  intros Hdots. apply Forall_forall. intros seg Hin.
  apply filter_In in Hin as [Hin Hkeep].
  refine (conj Hkeep (conj _ _)).
  - intros ->. exact (includes_dotdot_split p Hdots Hin).
  - pose proof (split_segments_no_slash p) as Hall.
    rewrite Forall_forall in Hall. now apply Hall.
Qed.

(** A path below the root in this sense has no segment [..], and it passes
    the textual test of the handler. *)
Lemma below_root_segments (p : string) :
  below_root cwd dirname p ->
  ~ In ".." (split p) /\ inside_root cwd dirname p.
Proof.
  intros (root & names & Hne & Hroot & Hnames & Hmp4 & ->).
  assert (Hall : Forall clean (root ++ names)%list)
    by (apply Forall_app; now split).
  assert (Hne' : (root ++ names)%list <> [])
    by (destruct root; [now elim Hne|discriminate]).
  split.
  - change (split ("/" ++ join (root ++ names)%list))
      with ("" :: split (join (root ++ names)%list)).
    rewrite (split_join _ Hne' (clean_no_slash _ Hall)).
    intros [H|H]; [discriminate H|].
    exact (clean_no_dotdot _ Hall H).
  - unfold inside_root. rewrite Hmp4.
    destruct names as [|n names].
    + left. now rewrite app_nil_r.
    + right. exists (join (n :: names)).
      rewrite join_app by (assumption || discriminate). reflexivity.
Qed.

(** What [locate] answers: a 404 or a 400, or a path that lies below the
    root segment by segment. *)
Lemma locate_below_root (req : request) :
  isAbsolute dirname = true ->
  match locate cwd dirname req with
  | inl res =>
      res = mkResponse 404 [] StatusText
      \/ res = mkResponse 400 [] (Text "Invalid video path")
  | inr p => below_root cwd dirname p
  end.
Proof.
  intros Habs. unfold locate.
  destruct (Str.trim (param req) =? "")%string; [now left|].
  set (normalizedPath :=
         strip_leading_separators (normalize (Str.trim (param req)))).
  destruct (Str.includes ".." normalizedPath) eqn:Hdots; [now right|].
  destruct (resolve_inside_root cwd dirname normalizedPath Habs
              (strip_leading_not_absolute _) Hdots) as [Hpath Hinside].
  rewrite Hinside. cbn [negb]. rewrite Hpath.
  destruct (mp4Dir_shape cwd dirname Habs) as (root & Hne & Hclean & Hroot).
  exists root, (filter keep (split normalizedPath)).
  refine (conj Hne (conj Hclean (conj (kept_segments_clean _ Hdots)
            (conj Hroot _)))).
  destruct (filter keep (split normalizedPath)) as [|k kept].
  - now rewrite app_nil_r.
  - rewrite join_app by (assumption || discriminate).
    now rewrite Hroot, append_assoc.
Qed.

(** C2. A request is answered with a 400 and without any call into the
    file system, or every path given to [stat] (and to the read stream)
    lies in the asset root segment by segment: it is the absolute path of
    the root, followed by names or by nothing, and none of its segments is
    [..].  The path [../../etc/passwd] is answered with a 400 before any
    call. *)
Theorem stat_only_inside_asset_root (req : request) :
  isAbsolute dirname = true ->
  ((status (fst (stream_mp4 cwd dirname stat req)) = 400%Z /\
    snd (stream_mp4 cwd dirname stat req) = [])
   \/
   ((status (fst (stream_mp4 cwd dirname stat req)) =? 400)%Z = false /\
    Forall (fun c => below_root cwd dirname (fs_path c))
      (snd (stream_mp4 cwd dirname stat req))))
  /\
  stream_mp4 cwd dirname stat (mkRequest "../../etc/passwd" (range req))
    = (mkResponse 400 [] (Text "Invalid video path"), []).
Proof.
  intros Habs. split; [|reflexivity].
  unfold stream_mp4.
  pose proof (locate_below_root req Habs) as Hloc.
  destruct (locate cwd dirname req) as [res|p].
  - destruct Hloc as [-> | ->]; [right|left]; simpl; auto.
  - right.
    destruct (stat p) as [stats|]; [|simpl; auto].
    destruct (negb (isFile stats)); [simpl; auto|].
    pose proof (serve_file_cases p stats (range req)) as [Hst Hcalls].
    destruct (serve_file p stats (range req)) as [res calls]; simpl in *.
    split; [exact Hst|].
    constructor; [exact Hloc|].
    eapply Forall_impl; [|exact Hcalls].
    intros c ->. exact Hloc.
Qed.

End BelowRoot.

Lemma stat_only_inside_asset_root_witness :
  ((status (fst (stream_mp4 Example.cwd Example.dirname Example.disk
                   (mkRequest "music/./clip.mp4" (Some "bytes=0-99"))))
    = 400%Z /\
    snd (stream_mp4 Example.cwd Example.dirname Example.disk
           (mkRequest "music/./clip.mp4" (Some "bytes=0-99"))) = [])
   \/
   ((status (fst (stream_mp4 Example.cwd Example.dirname Example.disk
                    (mkRequest "music/./clip.mp4" (Some "bytes=0-99"))))
     =? 400)%Z = false /\
    Forall (fun c => below_root Example.cwd Example.dirname (fs_path c))
      (snd (stream_mp4 Example.cwd Example.dirname Example.disk
              (mkRequest "music/./clip.mp4" (Some "bytes=0-99"))))))
  /\
  stream_mp4 Example.cwd Example.dirname Example.disk
    (mkRequest "../../etc/passwd" (Some "bytes=0-99"))
    = (mkResponse 400 [] (Text "Invalid video path"), []).
Proof.
  exact (stat_only_inside_asset_root Example.cwd Example.dirname Example.disk
           (mkRequest "music/./clip.mp4" (Some "bytes=0-99")) eq_refl).
Defined.


(** ** The catalogue *)

Module CatalogueFacts.
Import Path PathFacts.

Lemma clean_nonempty (seg : string) : clean seg -> (seg =? "")%string = false.
Proof.
  intros (Hkeep & _ & _). unfold keep in Hkeep.
  apply negb_true_iff, orb_false_iff in Hkeep. tauto.
Qed.

Lemma clean_not_absolute (seg rest : string) :
  clean seg -> isAbsolute (seg ++ rest) = false.
Proof.
  intros Hclean. pose proof (clean_nonempty seg Hclean) as Hne.
  destruct Hclean as (_ & _ & Hns). destruct seg as [|c seg]; [discriminate|].
  unfold no_slash in Hns. cbn in Hns. inversion Hns as [|? ? Hc _]; subst.
  unfold isAbsolute. cbn [append Str.startsWith].
  unfold is_slash in Hc. rewrite Ascii.eqb_sym, Hc. reflexivity.
Qed.

Lemma clean_no_backslash_strip (seg rest : string) :
  clean seg -> Str.startsWith "\" seg = false ->
  strip_leading_separators (seg ++ rest) = seg ++ rest.
Proof.
  intros Hclean Hback. pose proof (clean_nonempty seg Hclean) as Hne.
  destruct Hclean as (_ & _ & Hns). destruct seg as [|c seg]; [discriminate|].
  unfold no_slash in Hns. cbn in Hns. inversion Hns as [|? ? Hc _]; subst.
  cbn [append strip_leading_separators].
  unfold is_slash in Hc. rewrite Hc.
  cbn [Str.startsWith] in Hback. rewrite andb_true_r, Ascii.eqb_sym in Hback.
  now rewrite Hback.
Qed.

Lemma endsWithSlash_app (a e : string) :
  e <> "" -> endsWithSlash (a ++ e) = endsWithSlash e.
Proof.
  intros He. induction a as [|c a IH]; [reflexivity|].
  cbn [append endsWithSlash].
  destruct (a ++ e) eqn:E; [|exact IH].
  destruct a; [now subst|discriminate].
Qed.

Lemma no_slash_endsWithSlash (e : string) :
  no_slash e -> endsWithSlash e = false.
Proof.
  unfold no_slash. induction e as [|c e IH]; [reflexivity|].
  cbn. intros H. inversion H as [|? ? Hc He]; subst.
  destruct e; [exact Hc|now apply IH].
Qed.

Lemma step_other (allow : bool) (res : list string) (seg : string) :
  seg <> ".." ->
  step allow res seg = if keep seg then seg :: res else res.
Proof.
  intros Hne. unfold step, keep.
  destruct ((seg =? "")%string || (seg =? ".")%string); [reflexivity|].
  destruct (String.eqb_spec seg ".."); [contradiction|reflexivity].
Qed.

Lemma fold_step_clean_segments (allow : bool) (segs res : list string) :
  Forall clean segs ->
  fold_left (step allow) segs res = (rev segs ++ res)%list.
Proof.
  revert res. induction segs as [|seg segs IH]; intros res Hall;
    [reflexivity|].
  inversion Hall as [|? ? (Hk & Hne & _) Hrest]; subst.
  cbn [fold_left rev]. rewrite (step_other allow res seg Hne), Hk, (IH _ Hrest).
  now rewrite <- app_assoc.
Qed.

(** A relative path of two clean names is its own normal form. *)
Lemma normalize_two_names (a b : string) :
  clean a -> clean b -> normalize (a ++ "/" ++ b) = a ++ "/" ++ b.
Proof.
  intros Ha Hb.
  assert (Hne : ((a ++ "/" ++ b) =? "")%string = false).
  { pose proof (clean_nonempty a Ha). destruct a; [discriminate|reflexivity]. }
  assert (Hb' : b <> "").
  { pose proof (clean_nonempty b Hb). intros ->. discriminate. }
  pose proof (clean_not_absolute a ("/" ++ b) Ha) as Habs.
  destruct Hb as (Hkb & Hnb & Hsb). destruct Ha as (Hka & Hna & Hsa).
  assert (Hend : endsWithSlash (a ++ "/" ++ b) = false).
  { rewrite <- (append_assoc a "/" b).
    rewrite (endsWithSlash_app (a ++ "/") b Hb').
    now apply no_slash_endsWithSlash. }
  assert (Hnorm : normalizeString (a ++ "/" ++ b) true = a ++ "/" ++ b).
  { unfold normalizeString.
    change (a ++ "/" ++ b) with (a ++ String "/" b) at 1.
    rewrite split_app_slash, (split_no_slash a Hsa), (split_no_slash b Hsb).
    cbn [app].
    rewrite (fold_step_clean_segments true [a; b] [])
      by (repeat constructor; auto).
    reflexivity. }
  unfold normalize. rewrite Hne, Habs, Hend. cbn [negb].
  rewrite Hnorm, Hne. cbn [append]. now rewrite append_empty_r.
Qed.

Lemma path_join_two_names (a b : string) :
  clean a -> clean b -> path_join [a; b] = a ++ "/" ++ b.
Proof.
  intros Ha Hb. unfold path_join. cbn [filter].
  rewrite (clean_nonempty a Ha), (clean_nonempty b Hb). cbn [negb join].
  now apply normalize_two_names.
Qed.

(** An absolute path of clean names followed by one more clean name is its
    own normal form. *)
Lemma path_join_under (base : list string) (seg : string) :
  base <> [] -> Forall clean base -> clean seg ->
  path_join ["/" ++ join base; seg] = "/" ++ join (base ++ [seg])%list.
Proof.
  intros Hne Hbase Hseg.
  assert (Hseg' : seg <> "").
  { pose proof (clean_nonempty seg Hseg). intros ->. discriminate. }
  pose proof (clean_nonempty seg Hseg) as Hsegne.
  destruct Hseg as (Hk & Hn & Hs).
  set (p := ("/" ++ join base) ++ "/" ++ seg).
  assert (Hp : (p =? "")%string = false) by reflexivity.
  assert (Habs : isAbsolute p = true) by reflexivity.
  assert (Hend : endsWithSlash p = false).
  { unfold p. rewrite <- (append_assoc ("/" ++ join base) "/" seg).
    rewrite (endsWithSlash_app _ seg Hseg').
    now apply no_slash_endsWithSlash. }
  assert (Hnorm : normalizeString p false = join (base ++ [seg])%list).
  { unfold p. rewrite (normalize_under base seg Hne Hbase).
    - rewrite (split_no_slash seg Hs). cbn [filter]. now rewrite Hk.
    - rewrite (split_no_slash seg Hs). intros [H|[]]. now apply Hn. }
  assert (Hj : (join (base ++ [seg])%list =? "")%string = false).
  { rewrite join_app by (assumption || discriminate). cbn [join].
    destruct (join base); reflexivity. }
  unfold path_join. cbn [filter]. rewrite Hsegne.
  change (("/" ++ join base) =? "")%string with false. cbn [negb join].
  fold p. unfold normalize. rewrite Hp, Habs, Hend. cbn [negb].
  rewrite Hnorm, Hj. now rewrite append_empty_r.
Qed.

Lemma includes_strip (s : string) :
  Str.includes ".." s = true ->
  Str.includes ".." (strip_leading_separators s) = true.
Proof.
  induction s as [|c s IH]; [discriminate|].
  intros Hinc. cbn [strip_leading_separators].
  destruct (Ascii.eqb c "/") eqn:Hs; [|destruct (Ascii.eqb c "\") eqn:Hb];
    cbn [orb]; try exact Hinc.
  - apply Ascii.eqb_eq in Hs; subst c. apply IH.
    cbn [Str.includes] in Hinc. apply orb_true_iff in Hinc as [H|H];
      [discriminate H|exact H].
  - apply Ascii.eqb_eq in Hb; subst c. apply IH.
    cbn [Str.includes] in Hinc. apply orb_true_iff in Hinc as [H|H];
      [discriminate H|exact H].
Qed.

(** ** What [remove_extension] removes *)

Lemma remove_extension_tail (ext s : string) :
  endsWith ext (Str.toLowerCase s) = true ->
  exists tail, s = remove_extension ext s ++ tail
               /\ Str.toLowerCase tail = ext.
Proof.
  induction s as [|c s IH]; intros Hends.
  - cbn [Str.toLowerCase endsWith] in Hends. rewrite orb_false_r in Hends.
    exists "". cbn [remove_extension Str.toLowerCase]. rewrite Hends.
    split; [reflexivity|]. now apply String.eqb_eq in Hends.
  - cbn [remove_extension].
    destruct (String.eqb_spec (Str.toLowerCase (String c s)) ext) as [Heq|Hne].
    + exists (String c s). split; [reflexivity|exact Heq].
    + cbn [Str.toLowerCase endsWith] in Hends.
      apply orb_true_iff in Hends as [H|H].
      * apply String.eqb_eq in H. cbn [Str.toLowerCase] in Hne. contradiction.
      * destruct (IH H) as (tail & Hs & Ht).
        exists tail. split; [|exact Ht]. cbn [append]. now rewrite <- Hs.
Qed.

Lemma remove_extension_absent (ext s : string) :
  endsWith ext (Str.toLowerCase s) = false -> remove_extension ext s = s.
Proof.
  induction s as [|c s IH]; intros Hends.
  - cbn [Str.toLowerCase endsWith] in Hends. rewrite orb_false_r in Hends.
    cbn [remove_extension Str.toLowerCase]. now rewrite Hends.
  - cbn [Str.toLowerCase endsWith] in Hends.
    apply orb_false_iff in Hends as [H1 H2].
    cbn [remove_extension Str.toLowerCase]. rewrite H1. now rewrite (IH H2).
Qed.

End CatalogueFacts.

(** ** Blanks at the ends of a path *)

Lemma trimStart_length (s : string) :
  (String.length (Str.trimStart s) <= String.length s)%nat.
Proof.
  induction s as [|c s IH]; [apply le_n|].
  cbn [Str.trimStart]. destruct (Str.is_whitespace c); cbn [String.length]; lia.
Qed.

(** A text that [trimStart] leaves alone still is left alone with more
    text after it. *)
Lemma trimStart_app (s rest : string) :
  s <> "" -> Str.trimStart s = s -> Str.trimStart (s ++ rest) = s ++ rest.
Proof.
  destruct s as [|c s]; [congruence|]. intros _ Hs.
  cbn [Str.trimStart append] in *.
  destruct (Str.is_whitespace c); [|reflexivity].
  pose proof (trimStart_length s) as Hlen. rewrite Hs in Hlen.
  cbn [String.length] in Hlen. lia.
Qed.

Lemma trimEnd_app (a b : string) :
  b <> "" -> Str.trimEnd b = b -> Str.trimEnd (a ++ b) = a ++ b.
Proof.
  intros Hne Hb. induction a as [|c a IH]; [exact Hb|].
  cbn [append Str.trimEnd]. rewrite IH.
  destruct (a ++ b) eqn:E.
  - destruct a; [now subst|discriminate].
  - now rewrite andb_false_r.
Qed.

Lemma lower_char_four (c : ascii) :
  Str.lower_char c = "4"%char -> Str.is_whitespace c = false.
Proof.
  destruct c as [[] [] [] [] [] [] [] []]; vm_compute;
    intros H; try reflexivity; discriminate H.
Qed.

(** A name that ends in [.mp4], in whatever case, has no blank at its
    end. *)
Lemma mp4_name_trimEnd (pre entry : string) :
  endsWith ".mp4" (Str.toLowerCase entry) = true ->
  Str.trimEnd (pre ++ entry) = pre ++ entry.
Proof.
  intros Hends.
  destruct (CatalogueFacts.remove_extension_tail ".mp4" entry Hends)
    as (tail & Hentry & Htail).
  rewrite Hentry, <- append_assoc.
  destruct tail as [|c1 [|c2 [|c3 [|c4 [|c5 tail]]]]]; try discriminate Htail.
  cbn [Str.toLowerCase] in Htail.
  injection Htail as _ _ _ H4.
  pose proof (lower_char_four c4 H4) as Hws.
  apply trimEnd_app; [discriminate|].
  cbn [Str.trimEnd]. rewrite Hws. cbn [andb].
  now rewrite !andb_false_r.
Qed.

Lemma includes_app_slash (a b : string) :
  Str.includes ".." (a ++ "/" ++ b)
    = Str.includes ".." a || Str.includes ".." b.
Proof.
  change ("/" ++ b) with (String "/" b).
  induction a as [|c a IH].
  - cbn [append Str.includes Str.startsWith].
    change (Ascii.eqb "." "/") with false. reflexivity.
  - cbn [append Str.includes]. rewrite IH, orb_assoc. f_equal.
    destruct a as [|d a];
      cbn [append Str.includes Str.startsWith];
      [change (Ascii.eqb "." "/") with false|]; reflexivity.
Qed.

(** ** The catalogue and the stream route *)

Section CatalogueProps.
Import Path PathFacts CatalogueFacts.

Variable cwd : string.
Variable dirname : string.
Variable disk : Disk.

Lemma glslDir_shape :
  isAbsolute dirname = true ->
  exists base,
    base <> [] /\ Forall clean base /\ glslDir cwd dirname = "/" ++ join base.
Proof.
  intros Habs. unfold glslDir, resolve.
  cbn [rev app resolve_loop].
  change ("../glsl" =? "")%string with false.
  change (isAbsolute "../glsl") with false. cbv iota.
  rewrite (absolute_nonempty _ Habs), Habs. cbn [negb].
  unfold normalizeString.
  change (dirname ++ "/" ++ "../glsl" ++ "/" ++ "")
    with (dirname ++ String "/" "../glsl/").
  rewrite split_app_slash, fold_left_app.
  set (acc := fold_left (step false) (split dirname) []).
  assert (Hacc : Forall clean acc).
  { apply fold_step_clean; [constructor|apply split_segments_no_slash]. }
  change (split "../glsl/") with [".."; "glsl"; ""].
  cbn [fold_left].
  set (acc' := step false acc "..").
  assert (Hacc' : Forall clean acc').
  { apply step_clean; [exact Hacc|]. repeat constructor. }
  change (step false (step false acc' "glsl") "") with ("glsl" :: acc').
  exists (rev ("glsl" :: acc')). repeat split.
  - simpl. intros H. now apply app_eq_nil in H as [_ H].
  - apply Forall_rev. constructor; [|exact Hacc'].
    repeat split; [discriminate|repeat constructor].
Qed.

(** [path.join(dir, name)] for a directory in normal form and the name of
    one of its entries. *)
Lemma path_join_entry (dir name : string) :
  (exists base, base <> [] /\ Forall clean base /\ dir = "/" ++ join base) ->
  clean name ->
  path_join [dir; name] = dir ++ "/" ++ name.
Proof.
  intros (base & Hne & Hbase & ->) Hname.
  rewrite (path_join_under base name Hne Hbase Hname).
  rewrite join_app by (assumption || discriminate).
  reflexivity.
Qed.

Lemma video_of_entry_In (category entry : string) (v : VideoAsset) :
  clean category -> clean entry ->
  (In v (video_of_entry category entry) <->
   endsWith ".mp4" (Str.toLowerCase entry) = true
   /\ v = mkVideoAsset (category ++ "/" ++ entry)
            (remove_extension ".mp4" entry) category
            ("/stream/mp4/" ++ category ++ "/" ++ entry)).
Proof.
  intros Hcat Hentry. unfold video_of_entry.
  rewrite (path_join_two_names category entry Hcat Hentry).
  destruct (endsWith ".mp4" (Str.toLowerCase entry)); cbn [negb In].
  - split; [intros [<-|[]]; now split|intros [_ ->]; now left].
  - split; [intros []|intros [H _]; discriminate H].
Qed.

End CatalogueProps.

Section CatalogueTheorems.
Import Path PathFacts CatalogueFacts.

Variable cwd : string.
Variable dirname : string.
Variable disk : Disk.

(** X7.  The videos of the catalogue are the entries named [*.mp4], in whatever
    case, of the directories that the asset root lists: one video for each,
    with the category and the name of the file as its identifier and its
    address on the stream route.  What the root holds that is not a
    directory, and what a category holds under another name, is left
    out. *)
Theorem catalogue_videos (assets : FallbackAssets) (v : VideoAsset) :
  isAbsolute dirname = true ->
  (forall dir names, readdirSync disk dir = Some names -> Forall clean names) ->
  readFallbackAssets cwd dirname disk = Some assets ->
  (In v (videos assets) <->
   exists categories category entries entry,
     existsSync disk (mp4Dir cwd dirname) = true
     /\ readdirSync disk (mp4Dir cwd dirname) = Some categories
     /\ In category categories
     /\ isDirectory disk (mp4Dir cwd dirname ++ "/" ++ category) = Some true
     /\ readdirSync disk (mp4Dir cwd dirname ++ "/" ++ category) = Some entries
     /\ In entry entries
     /\ endsWith ".mp4" (Str.toLowerCase entry) = true
     /\ v = mkVideoAsset (category ++ "/" ++ entry)
              (remove_extension ".mp4" entry) category
              ("/stream/mp4/" ++ category ++ "/" ++ entry)).
Proof.
  intros Habs Hnames. unfold readFallbackAssets.
  destruct (if existsSync disk (glslDir cwd dirname) then _ else _)
    as [shaders|]; [|discriminate].
  destruct (existsSync disk (mp4Dir cwd dirname)) eqn:Hexists.
  2:{ intros [= <-]. cbn [videos In]. split; [intros []|].
      intros (? & ? & ? & ? & H & _). discriminate H. }
  destruct (readdirSync disk (mp4Dir cwd dirname)) as [categories|] eqn:Hroot;
    [|discriminate].
  cbn [option_map]. intros [= <-]. cbn [videos].
  pose proof (Hnames _ _ Hroot) as Hcats. rewrite Forall_forall in Hcats.
  assert (Hdir : forall category, In category categories ->
            path_join [mp4Dir cwd dirname; category]
              = mp4Dir cwd dirname ++ "/" ++ category).
  { intros category Hin.
    apply path_join_entry; [now apply mp4Dir_shape|now apply Hcats]. }
  rewrite in_flat_map. split.
  - intros (category & Hin & Hv). unfold videos_of_category in Hv.
    rewrite (Hdir _ Hin) in Hv.
    destruct (isDirectory disk _) as [[|]|] eqn:Hisdir; try contradiction.
    destruct (readdirSync disk (_ ++ _)) as [entries|] eqn:Hlist;
      [|contradiction].
    apply in_flat_map in Hv as (entry & Hentry & Hv).
    pose proof (Hnames _ _ Hlist) as Hclean. rewrite Forall_forall in Hclean.
    apply (video_of_entry_In category entry v (Hcats _ Hin) (Hclean _ Hentry))
      in Hv as [Hends ->].
    exists categories, category, entries, entry. tauto.
  - intros (categories' & category & entries & entry
            & _ & Hroot' & Hin & Hisdir & Hlist & Hentry & Hends & ->).
    assert (categories' = categories) by congruence. subst categories'.
    exists category. split; [exact Hin|].
    unfold videos_of_category. rewrite (Hdir _ Hin), Hisdir, Hlist.
    apply in_flat_map. exists entry. split; [exact Hentry|].
    pose proof (Hnames _ _ Hlist) as Hclean. rewrite Forall_forall in Hclean.
    apply (video_of_entry_In category entry _ (Hcats _ Hin) (Hclean _ Hentry)).
    now split.
Qed.

(** X8.  The shaders of the catalogue are the entries named [*.glsl], in
    whatever case, of the shader directory that can be read: one shader for
    each, with the name of the file as its identifier and the text of the
    file as its code.  A file that cannot be read is left out and the
    others are still listed. *)
Theorem catalogue_shaders (assets : FallbackAssets) (g : GlslAsset) :
  isAbsolute dirname = true ->
  (forall dir names, readdirSync disk dir = Some names -> Forall clean names) ->
  readFallbackAssets cwd dirname disk = Some assets ->
  (In g (glsl assets) <->
   exists entries entry code,
     existsSync disk (glslDir cwd dirname) = true
     /\ readdirSync disk (glslDir cwd dirname) = Some entries
     /\ In entry entries
     /\ endsWith ".glsl" (Str.toLowerCase entry) = true
     /\ readFileSync disk (glslDir cwd dirname ++ "/" ++ entry) = Some code
     /\ g = mkGlslAsset entry (remove_extension ".glsl" entry) code).
Proof.
  intros Habs Hnames. unfold readFallbackAssets.
  destruct (existsSync disk (glslDir cwd dirname)) eqn:Hexists.
  2:{ destruct (if existsSync disk (mp4Dir cwd dirname) then _ else _);
        [|discriminate].
      intros [= <-]. cbn [glsl In]. split; [intros []|].
      intros (? & ? & ? & H & _). discriminate H. }
  destruct (readdirSync disk (glslDir cwd dirname)) as [entries|] eqn:Hroot;
    [|discriminate].
  cbn [option_map].
  destruct (if existsSync disk (mp4Dir cwd dirname) then _ else _);
    [|discriminate].
  intros [= <-]. cbn [glsl].
  pose proof (Hnames _ _ Hroot) as Hclean. rewrite Forall_forall in Hclean.
  assert (Hfile : forall entry, In entry entries ->
            path_join [glslDir cwd dirname; entry]
              = glslDir cwd dirname ++ "/" ++ entry).
  { intros entry Hin.
    apply path_join_entry; [now apply glslDir_shape|now apply Hclean]. }
  rewrite in_flat_map. split.
  - intros (entry & Hin & Hg). unfold glsl_of_entry in Hg.
    rewrite (Hfile _ Hin) in Hg.
    destruct (endsWith ".glsl" (Str.toLowerCase entry)) eqn:Hends;
      [|contradiction].
    destruct (readFileSync disk _) as [code|] eqn:Hread; [|contradiction].
    destruct Hg as [<-|[]].
    exists entries, entry, code. tauto.
  - intros (entries' & entry & code
            & _ & Hroot' & Hin & Hends & Hread & ->).
    assert (entries' = entries) by congruence. subst entries'.
    exists entry. split; [exact Hin|].
    unfold glsl_of_entry. rewrite (Hfile _ Hin), Hends, Hread. now left.
Qed.

(** X9.  The address that the catalogue gives a video leads the stream route to
    the file of that video: for a category and a file name without [..],
    the category not starting with a blank or a backslash, the path after
    [/stream/mp4/] in the address is the identifier of the video, and a
    request for it goes to [stat] with the path of the file below the
    asset root.  The identifier is the category, a slash, the name of the
    video and the extension. *)
Theorem listed_video_is_reachable
    (category entry : string) (v : VideoAsset) (rangeHeader : option string) :
  isAbsolute dirname = true ->
  clean category -> clean entry ->
  Str.trimStart category = category ->
  Str.startsWith "\" category = false ->
  Str.includes ".." category = false ->
  Str.includes ".." entry = false ->
  In v (video_of_entry category entry) ->
  video_url v = "/stream/mp4/" ++ video_id v
  /\ (exists ext, video_id v = category ++ "/" ++ video_name v ++ ext
                  /\ Str.toLowerCase ext = ".mp4")
  /\ locate cwd dirname (mkRequest (video_id v) rangeHeader)
       = inr (mp4Dir cwd dirname ++ "/" ++ category ++ "/" ++ entry).
Proof.
  intros Habs Hcat Hentry Hblank Hback Hdots1 Hdots2 Hv.
  apply (video_of_entry_In category entry v Hcat Hentry) in Hv as [Hends ->].
  cbn [video_url video_id video_name].
  refine (conj eq_refl (conj _ _)).
  { destruct (remove_extension_tail ".mp4" entry Hends) as (ext & He & Hext).
    exists ext. split; [now rewrite <- He|exact Hext]. }
  assert (Hne : category <> "").
  { pose proof (clean_nonempty category Hcat). intros ->. discriminate. }
  assert (Htrim : Str.trim (category ++ "/" ++ entry)
                    = category ++ "/" ++ entry).
  { unfold Str.trim. rewrite (trimStart_app category _ Hne Hblank).
    rewrite <- (append_assoc category "/" entry).
    now apply mp4_name_trimEnd. }
  unfold locate. cbn [param]. rewrite Htrim.
  rewrite (normalize_two_names category entry Hcat Hentry).
  rewrite (clean_no_backslash_strip category _ Hcat Hback).
  assert (Hid : ((category ++ "/" ++ entry) =? "")%string = false).
  { destruct category; [congruence|reflexivity]. }
  rewrite Hid, includes_app_slash, Hdots1, Hdots2. cbn [orb].
  destruct (resolve_inside_root cwd dirname (category ++ "/" ++ entry) Habs
              (clean_not_absolute category _ Hcat))
    as [Hpath Hinside].
  { now rewrite includes_app_slash, Hdots1, Hdots2. }
  rewrite Hinside. cbn [negb]. rewrite Hpath.
  destruct Hcat as (Hk1 & _ & Hs1). destruct Hentry as (Hk2 & _ & Hs2).
  change (category ++ "/" ++ entry) with (category ++ String "/" entry).
  rewrite split_app_slash, (split_no_slash _ Hs1), (split_no_slash _ Hs2).
  cbn [app filter]. rewrite Hk1, Hk2. reflexivity.
Qed.

(** X10.  A clip whose category or file name contains [..] is in the catalogue,
    and the stream route refuses the address that the catalogue gives it
    with 400 [Invalid video path]. *)
Theorem listed_video_with_dots_is_refused
    (category entry : string) (rangeHeader : option string) :
  clean category -> clean entry ->
  Str.trimStart category = category ->
  endsWith ".mp4" (Str.toLowerCase entry) = true ->
  Str.includes ".." category || Str.includes ".." entry = true ->
  exists v,
    video_of_entry category entry = [v]
    /\ video_url v = "/stream/mp4/" ++ video_id v
    /\ locate cwd dirname (mkRequest (video_id v) rangeHeader)
         = inl (mkResponse 400 [] (Text "Invalid video path")).
Proof.
  intros Hcat Hentry Hblank Hends Hdots.
  exists (mkVideoAsset (category ++ "/" ++ entry)
            (remove_extension ".mp4" entry) category
            ("/stream/mp4/" ++ category ++ "/" ++ entry)).
  refine (conj _ (conj eq_refl _)).
  { unfold video_of_entry.
    rewrite (path_join_two_names category entry Hcat Hentry), Hends.
    reflexivity. }
  cbn [video_id].
  assert (Hne : category <> "").
  { pose proof (clean_nonempty category Hcat). intros ->. discriminate. }
  assert (Htrim : Str.trim (category ++ "/" ++ entry)
                    = category ++ "/" ++ entry).
  { unfold Str.trim. rewrite (trimStart_app category _ Hne Hblank).
    rewrite <- (append_assoc category "/" entry).
    now apply mp4_name_trimEnd. }
  unfold locate. cbn [param]. rewrite Htrim.
  rewrite (normalize_two_names category entry Hcat Hentry).
  assert (Hid : ((category ++ "/" ++ entry) =? "")%string = false).
  { destruct category; [congruence|reflexivity]. }
  rewrite Hid, includes_strip; [reflexivity|].
  now rewrite includes_app_slash.
Qed.

End CatalogueTheorems.

Lemma fixture_names (dir : string) (names : list string) :
  readdirSync Fixture.disk dir = Some names -> Forall Path.clean names.
Proof.
  unfold Fixture.disk. cbn [readdirSync].
  repeat match goal with
         | |- (if ?b then _ else _) = _ -> _ => destruct b
         end;
    intros [= <-]; repeat constructor; discriminate.
Qed.

Lemma catalogue_videos_witness :
  In Fixture.intro (videos Fixture.assets) <->
  exists categories category entries entry,
    existsSync Fixture.disk (mp4Dir Example.cwd Example.dirname) = true
    /\ readdirSync Fixture.disk (mp4Dir Example.cwd Example.dirname)
         = Some categories
    /\ In category categories
    /\ isDirectory Fixture.disk
         (mp4Dir Example.cwd Example.dirname ++ "/" ++ category) = Some true
    /\ readdirSync Fixture.disk
         (mp4Dir Example.cwd Example.dirname ++ "/" ++ category) = Some entries
    /\ In entry entries
    /\ endsWith ".mp4" (Str.toLowerCase entry) = true
    /\ Fixture.intro
         = mkVideoAsset (category ++ "/" ++ entry)
             (remove_extension ".mp4" entry) category
             ("/stream/mp4/" ++ category ++ "/" ++ entry).
Proof.
  exact (catalogue_videos Example.cwd Example.dirname Fixture.disk
           Fixture.assets Fixture.intro eq_refl fixture_names eq_refl).
Defined.

Lemma catalogue_shaders_witness :
  In (mkGlslAsset "plasma.glsl" "plasma" "void main() {}")
     (glsl Fixture.assets) <->
  exists entries entry code,
    existsSync Fixture.disk (glslDir Example.cwd Example.dirname) = true
    /\ readdirSync Fixture.disk (glslDir Example.cwd Example.dirname)
         = Some entries
    /\ In entry entries
    /\ endsWith ".glsl" (Str.toLowerCase entry) = true
    /\ readFileSync Fixture.disk
         (glslDir Example.cwd Example.dirname ++ "/" ++ entry) = Some code
    /\ mkGlslAsset "plasma.glsl" "plasma" "void main() {}"
         = mkGlslAsset entry (remove_extension ".glsl" entry) code.
Proof.
  exact (catalogue_shaders Example.cwd Example.dirname Fixture.disk
           Fixture.assets _ eq_refl fixture_names eq_refl).
Defined.

Lemma clean_loops : Path.clean "loops".
Proof. repeat split; [discriminate|repeat constructor]. Qed.

Lemma listed_video_is_reachable_witness :
  video_url Fixture.intro = "/stream/mp4/" ++ video_id Fixture.intro
  /\ (exists ext,
        video_id Fixture.intro = "loops" ++ "/" ++ video_name Fixture.intro ++ ext
        /\ Str.toLowerCase ext = ".mp4")
  /\ locate Example.cwd Example.dirname
       (mkRequest (video_id Fixture.intro) (Some "bytes=0-"))
     = inr (mp4Dir Example.cwd Example.dirname ++ "/" ++ "loops" ++ "/"
              ++ "Intro.MP4").
Proof.
  apply (listed_video_is_reachable Example.cwd Example.dirname
           "loops" "Intro.MP4" Fixture.intro (Some "bytes=0-"));
    try reflexivity.
  - exact clean_loops.
  - repeat split; [discriminate|repeat constructor].
  - now left.
Defined.

Lemma listed_video_with_dots_is_refused_witness :
  exists v,
    video_of_entry "loops" "take..2.mp4" = [v]
    /\ video_url v = "/stream/mp4/" ++ video_id v
    /\ locate Example.cwd Example.dirname (mkRequest (video_id v) None)
         = inl (mkResponse 400 [] (Text "Invalid video path")).
Proof.
  apply (listed_video_with_dots_is_refused Example.cwd Example.dirname
           "loops" "take..2.mp4" None); try reflexivity.
  - exact clean_loops.
  - repeat split; [discriminate|repeat constructor].
Defined.
